(** * A Reno-style sender over datagrams: codec, planner, metrics, control loop

    Shallow embedding of [docker/sender_reno.py].

    - Python [int] is [Z]; [bytes] is [list byte]; [str] is the list of its
      Unicode code points ([list Z]).
    - Python [float] is IEEE 754 binary64 with round-to-nearest-even: Rocq's
      primitive [float].  General facts about it are derived from the
      specification of the primitive operations ([SpecFloat]).
    - A raised exception is [None]; a function that cannot raise is total.
    - [Dict[int, float]] is [gmap Z float].
    - The socket is a trace: the datagrams handed to [sendto], oldest first,
      and the receive outcomes fed to the loop one per iteration.
    - [time.time()] is an oracle indexed by the number of calls made so far.
    - The environment variables and the files [verify_transfer] looks at are
      a [host], which the loop takes as it finds it at the fin. *)

From Stdlib Require Import ZArith List Bool Lia Floats Uint63 Sorted.
From Stdlib Require Import Strings.Byte.
From stdpp Require Import gmap.
Import ListNotations.

Set Warnings "-inexact-float".
Local Open Scope Z_scope.

(** ** Constants *)

Definition PACKET_SIZE : Z := 1024.
Definition SEQ_ID_SIZE : nat := 4.
Definition MSS : nat := Z.to_nat PACKET_SIZE - SEQ_ID_SIZE.

(** ** Bytes and integers *)

Definition Z_of_byte (b : byte) : Z := Z.of_N (Byte.to_N b).

Definition byte_of_Z (z : Z) : byte :=
  match Byte.of_N (Z.to_N (z mod 256)) with
  | Some b => b
  | None => x00
  end.

(** [n] bytes, most significant first, of the unsigned value [u]. *)
Fixpoint be_bytes (n : nat) (u : Z) : list byte :=
  match n with
  | O => []
  | S k => be_bytes k (u / 256) ++ [byte_of_Z (u mod 256)]
  end.

(** The unsigned value of a big-endian byte string. *)
Definition be_value (bs : list byte) : Z :=
  fold_left (fun acc b => acc * 256 + Z_of_byte b) bs 0.

(** [int.to_bytes(x, n, byteorder="big", signed=True)]: two's complement on
    [n] bytes, [OverflowError] when [x] does not fit. *)
Definition int_to_bytes (x : Z) (n : nat) : option (list byte) :=
  let half := 2 ^ (8 * Z.of_nat n - 1) in
  if (- half <=? x) && (x <? half)
  then Some (be_bytes n (x mod 2 ^ (8 * Z.of_nat n)))
  else None.

(** [int.from_bytes(bs, byteorder="big", signed=True)]; the empty string is 0. *)
Definition int_from_bytes (bs : list byte) : Z :=
  let u := be_value bs in
  let bits := 8 * Z.of_nat (length bs) in
  if (0 <? bits) && (2 ^ (bits - 1) <=? u) then u - 2 ^ bits else u.

(** ** Text: [bytes.decode(errors=...)] with the default UTF-8 codec

    The decoder reports an error as a range of input bytes: one byte for an
    invalid start byte, the bytes before the offending one for an invalid
    continuation byte, everything up to the end for truncated input.  The
    handler decides what the range becomes. *)

Inductive errors := Strict | Ignore | Replace.

Definition REPLACEMENT_CHARACTER : Z := 0xFFFD.

(** One decoding error whose range ends where [rest] is decoded. *)
Definition on_error (h : errors) (rest : option (list Z)) : option (list Z) :=
  match h with
  | Strict => None
  | Ignore => rest
  | Replace => option_map (cons REPLACEMENT_CHARACTER) rest
  end.

Definition is_continuation (c : Z) : bool := (0x80 <=? c) && (c <? 0xC0).

(** The second byte of a three-byte sequence is wrong for its lead byte. *)
Definition bad_second3 (c c2 : Z) : bool :=
  negb (is_continuation c2)
  || (if c2 <? 0xA0 then c =? 0xE0 else c =? 0xED).

(** The second byte of a four-byte sequence is wrong for its lead byte. *)
Definition bad_second4 (c c2 : Z) : bool :=
  negb (is_continuation c2)
  || (if c2 <? 0x90 then c =? 0xF0 else c =? 0xF4).

Fixpoint decode (h : errors) (s : list byte) {struct s} : option (list Z) :=
  match s with
  | [] => Some []
  | b :: s1 =>
    let c := Z_of_byte b in
    if c <? 0x80 then option_map (cons c) (decode h s1)
    else if c <? 0xC2 then on_error h (decode h s1)
    else if c <? 0xE0 then
      match s1 with
      | [] => on_error h (Some [])
      | b2 :: s2 =>
        let c2 := Z_of_byte b2 in
        if negb (is_continuation c2) then on_error h (decode h s1)
        else option_map (cons (c * 64 + c2 - (0xC0 * 64 + 0x80))) (decode h s2)
      end
    else if c <? 0xF0 then
      match s1 with
      | [] => on_error h (Some [])
      | b2 :: s2 =>
        let c2 := Z_of_byte b2 in
        if bad_second3 c c2 then on_error h (decode h s1)
        else
          match s2 with
          | [] => on_error h (Some [])
          | b3 :: s3 =>
            let c3 := Z_of_byte b3 in
            if negb (is_continuation c3) then on_error h (decode h s2)
            else option_map
                   (cons (c * 4096 + c2 * 64 + c3
                          - (0xE0 * 4096 + 0x80 * 64 + 0x80)))
                   (decode h s3)
          end
      end
    else if c <? 0xF5 then
      match s1 with
      | [] => on_error h (Some [])
      | b2 :: s2 =>
        let c2 := Z_of_byte b2 in
        if bad_second4 c c2 then on_error h (decode h s1)
        else
          match s2 with
          | [] => on_error h (Some [])
          | b3 :: s3 =>
            let c3 := Z_of_byte b3 in
            if negb (is_continuation c3) then on_error h (decode h s2)
            else
              match s3 with
              | [] => on_error h (Some [])
              | b4 :: s4 =>
                let c4 := Z_of_byte b4 in
                if negb (is_continuation c4) then on_error h (decode h s3)
                else option_map
                       (cons (c * 262144 + c2 * 4096 + c3 * 64 + c4
                              - (0xF0 * 262144 + 0x80 * 4096 + 0x80 * 64 + 0x80)))
                       (decode h s4)
              end
          end
      end
    else on_error h (decode h s1)
  end.

(** [s.startswith(prefix)] on code-point strings. *)
Fixpoint startswith (s prefix : list Z) : bool :=
  match prefix, s with
  | [], _ => true
  | p :: prefix', c :: s' => (c =? p) && startswith s' prefix'
  | _ :: _, [] => false
  end.

(** The code points of an ASCII literal. *)
Definition text_of_bytes (bs : list byte) : list Z := map Z_of_byte bs.

(** ** Segment codec *)

Definition make_packet (seq_id : Z) (payload : list byte) : option (list byte) :=
  option_map (fun header => header ++ payload) (int_to_bytes seq_id SEQ_ID_SIZE).

Definition parse_ack (packet : list byte) : option (Z * list Z) :=
  let seq := int_from_bytes (firstn SEQ_ID_SIZE packet) in
  option_map (fun msg => (seq, msg)) (decode Ignore (skipn SEQ_ID_SIZE packet)).

(** The reading of the acknowledgment text the specification words describe:
    undecodable bytes are replaced. *)
Definition parse_ack_replacing (packet : list byte) : option (Z * list Z) :=
  let seq := int_from_bytes (firstn SEQ_ID_SIZE packet) in
  option_map (fun msg => (seq, msg)) (decode Replace (skipn SEQ_ID_SIZE packet)).

(** No prefix of [s] is the encoding of a character: nothing can be decoded
    at the head of [s]. *)
Definition undecodable (s : list byte) : Prop :=
  forall n c, decode Strict (firstn n s) <> Some [c].

(** The text the specification words describe for a tolerant reading that
    leaves out what it cannot decode: [s] is read from left to right; where
    the bytes ahead start with the encoding [ch] of a character [c], the
    character is kept; where nothing can be decoded, one byte is dropped. *)
Inductive drops_undecodable : list byte -> list Z -> Prop :=
  | drops_end : drops_undecodable [] []
  | drops_keep (ch : list byte) (c : Z) (rest : list byte) (msg : list Z) :
      decode Strict ch = Some [c] ->
      drops_undecodable rest msg ->
      drops_undecodable (ch ++ rest) (c :: msg)
  | drops_drop (b : byte) (rest : list byte) (msg : list Z) :
      undecodable (b :: rest) ->
      drops_undecodable rest msg ->
      drops_undecodable (b :: rest) msg.

(** ** Transfer planning *)

(** [range(0, stop, step)]: [ValueError] for a zero step. *)
Fixpoint range_from (fuel i stop step : nat) : list nat :=
  match fuel with
  | O => []
  | S fuel' =>
    if (i <? stop)%nat then i :: range_from fuel' (i + step)%nat stop step else []
  end.

Definition py_range (stop step : nat) : option (list nat) :=
  if (step =? 0)%nat then None else Some (range_from stop 0 stop step).

(** [data[i : j]] for [0 <= i <= j]. *)
Definition slice {A} (data : list A) (i j : nat) : list A :=
  firstn (j - i) (skipn i data).

(** [[data[i : i + mss] for i in range(0, len(data), mss)]]. *)
Definition chunks_of (mss : nat) (data : list byte) : option (list (list byte)) :=
  option_map (map (fun i => slice data i (i + mss)))
             (py_range (length data) mss).

(** The last line of [load_payload_chunks], on the bytes read from the file. *)
Definition load_payload_chunks (data : list byte) : option (list (list byte)) :=
  chunks_of MSS data.

(** The numbering loop of [main]: the pair is ([transfers], [seq]). *)
Definition number_chunks (demo_chunks : list (list byte))
  : list (Z * list byte) * Z :=
  fold_left
    (fun '(transfers, seq) chunk =>
       (transfers ++ [(seq, chunk)], seq + Z.of_nat (length chunk)))
    demo_chunks ([], 0).

(** [transfers] once the EOF marker is appended. *)
Definition plan_transfers (demo_chunks : list (list byte)) : list (Z * list byte) :=
  let '(transfers, seq) := number_chunks demo_chunks in
  transfers ++ [(seq, [])].

Definition total_bytes_of (demo_chunks : list (list byte)) : Z :=
  fold_left (fun acc chunk => acc + Z.of_nat (length chunk)) demo_chunks 0.

(** Planning for an arbitrary segment size. *)
Definition plan (mss : nat) (data : list byte) : option (list (Z * list byte)) :=
  option_map plan_transfers (chunks_of mss data).

(** ** Python numbers on binary64 *)

(** The integer [m * 2^e], signed, that a finite float stands for is kept as
    the pair of its signed mantissa and exponent. *)
Definition signed (s : bool) (m : positive) : Z := if s then Zneg m else Zpos m.

(** [float(n)] and the conversion of an [int] operand in mixed arithmetic:
    correctly rounded, [OverflowError] beyond the largest float.  Machine-size
    operands take the processor's conversion. *)
Definition float_of_int (n : Z) : option float :=
  if (0 <=? n) && (n <? 2 ^ 63) then Some (PrimFloat.of_uint63 (Uint63.of_Z n))
  else if (- 2 ^ 63 <? n) && (n <? 0)
       then Some (- PrimFloat.of_uint63 (Uint63.of_Z (- n)))%float
  else
    let x := SF2Prim (binary_normalize prec emax n 0 false) in
    if PrimFloat.is_infinity x then None else Some x.

(** [int(x)]: truncation toward zero; [ValueError] for a NaN, [OverflowError]
    for an infinity. *)
Definition int_of_float (x : float) : option Z :=
  match Prim2SF x with
  | S754_zero _ => Some 0
  | S754_finite s m e =>
    Some (if 0 <=? e then signed s m * 2 ^ e else Z.quot (signed s m) (2 ^ (- e)))
  | S754_infinity _ | S754_nan => None
  end.

(** [int(x // 2)].  For a finite [x] the float [x // 2] is the floor of the
    exact quotient; for an infinity or a NaN it is a NaN, which [int] refuses. *)
Definition int_floordiv2 (x : float) : option Z :=
  match Prim2SF x with
  | S754_zero _ => Some 0
  | S754_finite s m e =>
    Some (if 0 <=? e then (signed s m * 2 ^ e) / 2 else signed s m / 2 ^ (1 - e))
  | S754_infinity _ | S754_nan => None
  end.

(** [x < n] for a float [x] and an int [n]: Python compares the exact values. *)
Definition float_lt_int (x : float) (n : Z) : bool :=
  match Prim2SF x with
  | S754_nan => false
  | S754_infinity s => s
  | S754_zero _ => 0 <? n
  | S754_finite s m e =>
    if 0 <=? e then signed s m * 2 ^ e <? n else signed s m <? n * 2 ^ (- e)
  end.

(** [x / y] on floats: [ZeroDivisionError] for a zero divisor. *)
Definition py_div (x y : float) : option float :=
  if (y =? 0)%float then None else Some (x / y)%float.

(** [max(a, b)] on floats: the first argument unless the second is greater. *)
Definition py_max (a b : float) : float := if (a <? b)%float then b else a.

(** [sum(xs)] from the integer 0.  The language reference adds left to right;
    interpreters from 3.12 on add the first item to 0 and the others with
    Neumaier's compensation.  Both are modelled. *)
Inductive summation := LeftToRight | Compensated.

Fixpoint neumaier (f_result c : float) (xs : list float) : float :=
  match xs with
  | [] => if negb (c =? 0)%float && is_finite c then (f_result + c)%float else f_result
  | x :: xs' =>
    let t := (f_result + x)%float in
    let c' := if (abs x <=? abs f_result)%float
              then (c + ((f_result - t) + x))%float
              else (c + ((x - t) + f_result))%float in
    neumaier t c' xs'
  end.

Definition py_sum (alg : summation) (xs : list float) : float :=
  match alg with
  | LeftToRight => fold_left PrimFloat.add xs 0%float
  | Compensated =>
    match xs with
    | [] => 0%float
    | x :: xs' => neumaier (0 + x)%float 0%float xs'
    end
  end.

(** ** Metrics *)

Record metrics := {
  throughput : float;
  avg_delay : float;
  avg_jitter : float;
  score : float
}.

(** [abs(delays[i] - delays[i-1]) for i in range(1, len(delays))]. *)
Fixpoint jitter_terms (delays : list float) : list float :=
  match delays with
  | d0 :: (d1 :: _) as rest => abs (d1 - d0)%float :: jitter_terms rest
  | _ => []
  end.

(** The four numbers of the summary line of [print_metrics]. *)
Definition print_metrics (alg : summation)
    (total_bytes : Z) (duration : float) (delays : list float) : option metrics :=
  total ← float_of_int total_bytes;
  throughput ← py_div total duration;
  avg_delay ←
    (if (0 <? length delays)%nat
     then n ← float_of_int (Z.of_nat (length delays)); py_div (py_sum alg delays) n
     else Some 0%float);
  avg_jitter ←
    (if (1 <? length delays)%nat
     then n ← float_of_int (Z.of_nat (length delays) - 1);
          py_div (py_sum alg (jitter_terms delays)) n
     else Some 0%float);
  let safe_jitter := if (0 <? avg_jitter)%float then avg_jitter else 1e-6%float in
  let safe_delay := if (0 <? avg_delay)%float then avg_delay else 1e-6%float in
  a ← py_div throughput 2000;
  b ← py_div 15 safe_jitter;
  c ← py_div 35 safe_delay;
  Some {| throughput := throughput; avg_delay := avg_delay;
          avg_jitter := avg_jitter; score := (a + b + c)%float |}.

(** ** Checking the received file: [verify_transfer]

    A [str] is the list of its code points.  The environment is the two
    variables the function reads; the file system is what a path leads to at
    the time of the call: a regular file with its bytes, something else that
    [stat] knows (a directory, say) with the size it reports, or nothing. *)

Definition SLASH : Z := 47.
Definition DOT : Z := 46.

(** [s.rfind(c)] for a one-character [c]: the last index of [c], or -1. *)
Fixpoint rfind (s : list Z) (c : Z) : Z :=
  match s with
  | [] => -1
  | x :: s' =>
    let r := rfind s' c in
    if 0 <=? r then r + 1 else if x =? c then 0 else -1
  end.

(** [c in s] for a one-character [c]. *)
Definition contains (s : list Z) (c : Z) : bool := existsb (Z.eqb c) s.

(** [os.path.basename(p)] of [posixpath]: what follows the last slash. *)
Definition basename (p : list Z) : list Z :=
  skipn (Z.to_nat (rfind p SLASH + 1)) p.

(** [s.rsplit(c, 1)] when [c] occurs in [s]: the parts around its last
    occurrence. *)
Definition rsplit1 (s : list Z) (c : Z) : list Z * list Z :=
  let i := Z.to_nat (rfind s c) in (firstn i s, skipn (S i) s).

Definition received_basename (original_file : list Z) : list Z :=
  let basename := basename original_file in
  if contains basename DOT
  then let '(name, ext) := rsplit1 basename DOT in
       name ++ text_of_bytes ["_"; "r"; "e"; "c"; "e"; "i"; "v"; "e"; "d"; "."]%byte
            ++ ext
  else basename ++ text_of_bytes ["_"; "r"; "e"; "c"; "e"; "i"; "v"; "e"; "d"]%byte.

Definition received_file (original_file : list Z) : list Z :=
  text_of_bytes ["/"; "h"; "d"; "d"; "/"]%byte ++ received_basename original_file.

Inductive entry :=
  | File (content : list byte)
  | Directory (st_size : Z).

(** [a or b] on an optional string: [None] and the empty string are false. *)
Definition py_or (a : option (list Z)) (b : list Z) : list Z :=
  match a with
  | Some (c :: s) => c :: s
  | _ => b
  end.

Section VerifyTransfer.

(** [os.environ.get("TEST_FILE")], [os.environ.get("PAYLOAD_FILE")] and the
    file system. *)
Variable TEST_FILE PAYLOAD_FILE : option (list Z).
Variable fs : list Z -> option entry.

Definition original_file : list Z :=
  py_or TEST_FILE
    (py_or PAYLOAD_FILE
       (text_of_bytes ["/"; "h"; "d"; "d"; "/"; "f"; "i"; "l"; "e"; ".";
                       "z"; "i"; "p"]%byte)).

(** [os.path.getsize(path)]: [OSError] when there is nothing at [path]. *)
Definition getsize (path : list Z) : option Z :=
  match fs path with
  | Some (File content) => Some (Z.of_nat (length content))
  | Some (Directory st_size) => Some st_size
  | None => None
  end.

(** [open(path, "rb")] followed by [read()]: an error unless [path] leads to
    a regular file. *)
Definition read_binary (path : list Z) : option (list byte) :=
  match fs path with
  | Some (File content) => Some content
  | _ => None
  end.

Definition verify_transfer : option bool :=
  match fs (received_file original_file) with
  | None => Some false
  | Some _ =>
    original_size ← getsize original_file;
    received_size ← getsize (received_file original_file);
    if negb (original_size =? received_size) then Some false
    else
      c1 ← read_binary original_file;
      c2 ← read_binary (received_file original_file);
      Some (if List.list_eq_dec Byte.byte_eq_dec c1 c2 then true else false)
  end.

End VerifyTransfer.

(** The machine [main] runs on, as far as [verify_transfer] looks at it: the
    environment variables [TEST_FILE] and [PAYLOAD_FILE] and the file system
    at the time of the call. *)
Class host := {
  test_file : option (list Z);
  payload_file : option (list Z);
  files : list Z -> option entry
}.


(** ** The sender loop *)

Definition ACK_TIMEOUT : float := 0.5.

(** The local variables of [main] that live across loop iterations, the
    datagrams handed to [sendto] so far and the number of [time.time()] calls. *)
Record sender := {
  base : nat;
  next_seq_num : nat;
  packet_start_times : gmap Z float;
  packet_delays : list float;
  cwnd : float;
  ssthresh : Z;
  dup_acks : Z;
  prev_ack_id : option Z;
  in_fast_recovery : bool;
  sent : list (list byte);
  clock : nat
}.

(** What [recvfrom] does in one iteration: it returns a datagram or times out. *)
Inductive event :=
  | Recv (ack_pkt : list byte)
  | RecvTimeout.

(** How the loop stands: still running, returned after the fin exchange with
    the numbers of its summary line, or left because [base] reached the end. *)
Inductive outcome :=
  | Running (s : sender)
  | Finished (s : sender) (m : metrics)
  | Exhausted (s : sender).

Definition FIN : list Z := text_of_bytes ["f"; "i"; "n"]%byte.
Definition FIN_ACK : list byte := ["F"; "I"; "N"; "/"; "A"; "C"; "K"]%byte.

Section Loop.

(** The segments planned for the transfer, the interpreter's summation and
    the clock: [time k] is what the call number [k] of [time.time()] returns
    (call 0 sets [start]). *)
Variable transfers : list (Z * list byte).
Variable alg : summation.
Variable time : nat -> float.
Context {h : host}.

Definition total_bytes : Z :=
  fold_left (fun acc '(_, payload) => acc + Z.of_nat (length payload)) transfers 0.

(** The state at the first test of the outer loop. *)
Definition initial : sender :=
  {| base := 0; next_seq_num := 0; packet_start_times := ∅; packet_delays := [];
     cwnd := 1; ssthresh := 64; dup_acks := 0; prev_ack_id := None;
     in_fast_recovery := false; sent := []; clock := 1 |}.

(** Sending the segment at [next_seq_num] for the window: the datagram goes
    out, a send time is recorded when the offset has none, the frontier moves. *)
Definition send_next (s : sender) : option sender :=
  '(seq_id, payload) ← transfers !! next_seq_num s;
  pkt ← make_packet seq_id payload;
  Some
    match packet_start_times s !! seq_id with
    | Some _ =>
      {| base := base s; next_seq_num := S (next_seq_num s);
         packet_start_times := packet_start_times s;
         packet_delays := packet_delays s;
         cwnd := cwnd s; ssthresh := ssthresh s; dup_acks := dup_acks s;
         prev_ack_id := prev_ack_id s; in_fast_recovery := in_fast_recovery s;
         sent := sent s ++ [pkt]; clock := clock s |}
    | None =>
      {| base := base s; next_seq_num := S (next_seq_num s);
         packet_start_times := <[seq_id := time (clock s)]> (packet_start_times s);
         packet_delays := packet_delays s;
         cwnd := cwnd s; ssthresh := ssthresh s; dup_acks := dup_acks s;
         prev_ack_id := prev_ack_id s; in_fast_recovery := in_fast_recovery s;
         sent := sent s ++ [pkt]; clock := S (clock s) |}
    end.

(** The inner sending loop, [limit] being [base + max(int(cwnd), 1)]. *)
Fixpoint fill_loop (fuel : nat) (limit : Z) (s : sender) : option sender :=
  match fuel with
  | O => Some s
  | S fuel' =>
    if (Z.of_nat (next_seq_num s) <? limit)
       && (next_seq_num s <? length transfers)%nat
    then s' ← send_next s; fill_loop fuel' limit s'
    else Some s
  end.

Definition fill_window (s : sender) : option sender :=
  w ← int_of_float (cwnd s);
  fill_loop (length transfers) (Z.of_nat (base s) + Z.max w 1) s.

(** Retransmitting the segment at [base]: the datagram goes out and the send
    time of its offset is set to the current time. *)
Definition retransmit_base (s : sender) : option sender :=
  '(seq_id, payload) ← transfers !! base s;
  pkt ← make_packet seq_id payload;
  Some {| base := base s; next_seq_num := next_seq_num s;
          packet_start_times := <[seq_id := time (clock s)]> (packet_start_times s);
          packet_delays := packet_delays s;
          cwnd := cwnd s; ssthresh := ssthresh s; dup_acks := dup_acks s;
          prev_ack_id := prev_ack_id s; in_fast_recovery := in_fast_recovery s;
          sent := sent s ++ [pkt];
          clock := S (clock s) |}.

(** The [except socket.timeout] branch. *)
Definition on_timeout (s : sender) : option sender :=
  half ← int_floordiv2 (cwnd s);
  retransmit_base
    {| base := base s; next_seq_num := base s;
       packet_start_times := packet_start_times s;
       packet_delays := packet_delays s;
       cwnd := 1; ssthresh := Z.max half 1; dup_acks := 0;
       prev_ack_id := prev_ack_id s; in_fast_recovery := false;
       sent := sent s; clock := clock s |}.

(** One turn of the loop that slides [base] past an acknowledged segment. *)
Definition slide (s : sender) (acked_seq : Z) : sender :=
  match packet_start_times s !! acked_seq with
  | Some t0 =>
    {| base := S (base s); next_seq_num := next_seq_num s;
       packet_start_times := packet_start_times s;
       packet_delays := packet_delays s ++ [(time (clock s) - t0)%float];
       cwnd := cwnd s; ssthresh := ssthresh s; dup_acks := dup_acks s;
       prev_ack_id := prev_ack_id s; in_fast_recovery := in_fast_recovery s;
       sent := sent s; clock := S (clock s) |}
  | None =>
    {| base := S (base s); next_seq_num := next_seq_num s;
       packet_start_times := packet_start_times s;
       packet_delays := packet_delays s;
       cwnd := cwnd s; ssthresh := ssthresh s; dup_acks := dup_acks s;
       prev_ack_id := prev_ack_id s; in_fast_recovery := in_fast_recovery s;
       sent := sent s; clock := clock s |}
  end.

(** [while base < len(transfers) and transfers[base][0] < ack_id]. *)
Fixpoint advance_base (fuel : nat) (ack_id : Z) (s : sender) : sender :=
  match fuel with
  | O => s
  | S fuel' =>
    match transfers !! base s with
    | Some (acked_seq, _) =>
      if acked_seq <? ack_id then advance_base fuel' ack_id (slide s acked_seq)
      else s
    | None => s
    end
  end.

(** The congestion variables after a new cumulative acknowledgment. *)
Definition new_ack (s : sender) (ack_id : Z) : option sender :=
  grown ←
    (if in_fast_recovery s then float_of_int (ssthresh s)
     else if float_lt_int (cwnd s) (ssthresh s) then Some (cwnd s + 1)%float
     else inc ← py_div 1 (cwnd s); Some (cwnd s + inc)%float);
  Some {| base := base s; next_seq_num := next_seq_num s;
          packet_start_times := packet_start_times s;
          packet_delays := packet_delays s;
          cwnd := py_max grown 1; ssthresh := ssthresh s; dup_acks := 0;
          prev_ack_id := Some ack_id; in_fast_recovery := false;
          sent := sent s; clock := clock s |}.

(** A duplicate acknowledgment while in fast recovery. *)
Definition inflate (s : sender) : option sender :=
  let s1 :=
    {| base := base s; next_seq_num := next_seq_num s;
       packet_start_times := packet_start_times s;
       packet_delays := packet_delays s;
       cwnd := (cwnd s + 1)%float; ssthresh := ssthresh s;
       dup_acks := dup_acks s + 1;
       prev_ack_id := prev_ack_id s; in_fast_recovery := true;
       sent := sent s; clock := clock s |} in
  w ← int_of_float (cwnd s1);
  if (Z.of_nat (next_seq_num s1) <? Z.of_nat (base s1) + w)
     && (next_seq_num s1 <? length transfers)%nat
  then send_next s1
  else Some s1.

(** The third duplicate acknowledgment outside fast recovery. *)
Definition fast_retransmit (s : sender) : option sender :=
  half ← int_floordiv2 (cwnd s);
  let ssthresh' := Z.max half 1 in
  f ← float_of_int ssthresh';
  retransmit_base
    {| base := base s; next_seq_num := next_seq_num s;
       packet_start_times := packet_start_times s;
       packet_delays := packet_delays s;
       cwnd := (f + 3)%float; ssthresh := ssthresh'; dup_acks := 0;
       prev_ack_id := prev_ack_id s; in_fast_recovery := true;
       sent := sent s; clock := clock s |}.

Definition dup_ack (s : sender) : option sender :=
  if in_fast_recovery s then inflate s
  else if dup_acks s + 1 =? 3 then fast_retransmit s
  else
    Some {| base := base s; next_seq_num := next_seq_num s;
            packet_start_times := packet_start_times s;
            packet_delays := packet_delays s;
            cwnd := cwnd s; ssthresh := ssthresh s; dup_acks := dup_acks s + 1;
            prev_ack_id := prev_ack_id s; in_fast_recovery := false;
            sent := sent s; clock := clock s |}.

(** Everything done with an acknowledgment that is not a fin. *)
Definition on_ack (s : sender) (ack_id : Z) : option sender :=
  '(current_base_seq, _) ← transfers !! base s;
  let s1 := if current_base_seq <? ack_id
            then advance_base (length transfers) ack_id s else s in
  match prev_ack_id s1 with
  | None => new_ack s1 ack_id
  | Some prev =>
    if prev <? ack_id then new_ack s1 ack_id
    else if ack_id =? prev then dup_ack s1
    else Some s1
  end.

(** The fin branch: the FIN/ACK reply, the metrics over the duration, then
    the check of the received file, whose answer is dropped. *)
Definition on_fin (s : sender) (ack_id : Z) : option outcome :=
  fin_ack ← make_packet ack_id FIN_ACK;
  let duration := py_max (time (clock s) - time 0)%float 1e-6%float in
  m ← print_metrics alg total_bytes duration (packet_delays s);
  _ ← verify_transfer test_file payload_file files;
  Some (Finished
          {| base := base s; next_seq_num := next_seq_num s;
             packet_start_times := packet_start_times s;
             packet_delays := packet_delays s;
             cwnd := cwnd s; ssthresh := ssthresh s; dup_acks := dup_acks s;
             prev_ack_id := prev_ack_id s; in_fast_recovery := in_fast_recovery s;
             sent := sent s ++ [fin_ack]; clock := S (clock s) |} m).

(** The body of the outer loop. *)
Definition iteration (s : sender) (ev : event) : option outcome :=
  s1 ← fill_window s;
  match ev with
  | Recv ack_pkt =>
    '(ack_id, msg) ← parse_ack ack_pkt;
    if startswith msg FIN then on_fin s1 ack_id
    else s2 ← on_ack s1 ack_id; Some (Running s2)
  | RecvTimeout => s2 ← on_timeout s1; Some (Running s2)
  end.

(** The outer loop over what the socket delivers. *)
Fixpoint run (evs : list event) (s : sender) : option outcome :=
  if (base s <? length transfers)%nat then
    match evs with
    | [] => Some (Running s)
    | ev :: evs' =>
      o ← iteration s ev;
      match o with
      | Running s' => run evs' s'
      | _ => Some o
      end
    end
  else Some (Exhausted s).

End Loop.

Definition state_of (o : outcome) : sender :=
  match o with Running s | Finished s _ | Exhausted s => s end.

(** ** Notions the properties are stated with *)

(** The segments numbered from [seq] on: what the numbering loop appends. *)
Fixpoint number_from (seq : Z) (chunks : list (list byte)) : list (Z * list byte) :=
  match chunks with
  | [] => []
  | chunk :: chunks' =>
    (seq, chunk) :: number_from (seq + Z.of_nat (length chunk)) chunks'
  end.

(** The congestion variables of a state. *)
Definition congestion (s : sender) : float * Z * Z * option Z * bool :=
  (cwnd s, ssthresh s, dup_acks s, prev_ack_id s, in_fast_recovery s).

(** Every planned offset fits the four signed bytes of the header. *)
Definition encodable (transfers : list (Z * list byte)) : Prop :=
  Forall (fun t => - 2 ^ 31 <= fst t < 2 ^ 31) transfers.

(** The float 1.0 as the specification sees it. *)
Definition SF_one : spec_float := S754_finite false 4503599627370496 (-52).

(** What "at least one" means for a positive mantissa and an exponent. *)
Definition at_least_one (m e : Z) : Prop :=
  0 < m /\ -52 <= e /\ (e = -52 -> 2 ^ 52 <= m).

(** The floats that are not below zero: zeros, positive finite numbers, the
    positive infinity. *)
Definition nonneg_sf (x : spec_float) : Prop :=
  match x with
  | S754_zero _ | S754_finite false _ _ | S754_infinity false => True
  | _ => False
  end.

(** A valid float that is at least 1.0, as the specification sees it. *)
Definition ge_one_sf (x : spec_float) : Prop :=
  match x with
  | S754_infinity false => True
  | S754_finite false m e => -52 <= e /\ 2 ^ 52 <= Zpos m
  | _ => False
  end.

(** The same on a primitive float. *)
Definition nonneg (x : float) : Prop := nonneg_sf (Prim2SF x).

(** The invariant of the congestion variables. *)
Definition congestion_ok (s : sender) : Prop :=
  (1 <=? cwnd s)%float = true /\ 1 <= ssthresh s.


(** [x] is less than [tol] away from [y].  The difference is rounded to
    nearest, which never takes a number at or above [tol] below it. *)
Definition within (tol x y : float) : bool := (abs (x - y) <? tol)%float.

(** One line of the slow-start table: at a window of [k] the test
    [cwnd < 64] holds, the new window is [float(k + 1)], and the window is
    a finite number not below 1.0. *)
Definition slow_start_row (k : Z) : bool :=
  match float_of_int k, float_of_int (k + 1) with
  | Some c, Some c' =>
    float_lt_int c 64 && PrimFloat.Leibniz.eqb (py_max (c + 1) 1) c'
    && PrimFloat.is_finite c && (1 <=? c)%float
  | _, _ => false
  end.

Section Acks.

Variable transfers : list (Z * list byte).
Variable alg : summation.
Variable time : nat -> float.
Context {h : host}.

(** [new_acks n s t]: [n] iterations lead from [s] to [t], each receiving an
    acknowledgment that is not a fin and whose offset is above the recorded
    one (if any). *)
Inductive new_acks : nat -> sender -> sender -> Prop :=
  | new_acks_O (s : sender) : new_acks 0 s s
  | new_acks_S (n : nat) (s t u : sender) (ack_pkt : list byte) (ack_id : Z)
      (msg : list Z) :
      new_acks n s t ->
      parse_ack ack_pkt = Some (ack_id, msg) ->
      startswith msg FIN = false ->
      (forall prev, prev_ack_id t = Some prev -> prev < ack_id) ->
      iteration transfers alg time t (Recv ack_pkt) = Some (Running u) ->
      new_acks (S n) s u.

End Acks.

(** ** A concrete transfer *)

(** A small transfer: twenty-four bytes planned in segments of one byte,
    which gives twenty-four data segments and the terminal marker. *)
Definition demo_data : list byte :=
  ["a"; "b"; "c"; "d"; "e"; "f"; "g"; "h"; "i"; "j"; "k"; "l";
   "m"; "n"; "o"; "p"; "q"; "r"; "s"; "t"; "u"; "v"; "w"; "x"]%byte.

Definition demo : list (Z * list byte) :=
  match plan 1 demo_data with Some transfers => transfers | None => [] end.

(** A clock that reads 0.0, 1.0, 2.0, ... at its successive calls. *)
Definition ticks (k : nat) : float :=
  PrimFloat.of_uint63 (Uint63.of_Z (Z.of_nat k)).

(** The datagram a receiver sends to acknowledge everything below [n]. *)
Definition ack (n : Z) : list byte := be_bytes 4 n ++ ["a"; "c"; "k"]%byte.

(** The acknowledgments of [n], [n + 1], ..., [n + k - 1] in turn. *)
Definition acks (n : Z) (k : nat) : list event :=
  map (fun i => Recv (ack (n + Z.of_nat i))) (seq 0 k).

(** A machine on which the payload is [/hdd/file.zip] and the receiver has
    written an identical [/hdd/file_received.zip]. *)
Definition demo_host : host :=
  {| test_file := None;
     payload_file := None;
     files := fun path =>
       if List.list_eq_dec Z.eq_dec path
            (text_of_bytes ["/"; "h"; "d"; "d"; "/"; "f"; "i"; "l"; "e"; ".";
                            "z"; "i"; "p"]%byte)
       then Some (File demo_data)
       else if List.list_eq_dec Z.eq_dec path
                 (text_of_bytes ["/"; "h"; "d"; "d"; "/"; "f"; "i"; "l"; "e"; "_";
                                 "r"; "e"; "c"; "e"; "i"; "v"; "e"; "d"; ".";
                                 "z"; "i"; "p"]%byte)
       then Some (File demo_data)
       else None |}.

(** The state in which the loop on [demo] stands after the events [evs]. *)
Definition reached (evs : list event) : sender :=
  match run (h := demo_host) demo LeftToRight ticks evs initial with
  | Some o => state_of o
  | None => initial
  end.

(** ** Notions of the further properties *)

(** The recorded acknowledgment is not above the offset of the segment at
    [base]. *)
Definition acked_below (transfers : list (Z * list byte)) (s : sender) : Prop :=
  forall a o p,
    prev_ack_id s = Some a -> transfers !! base s = Some (o, p) -> a <= o.

(** The duplicate count is not negative and stays below 3 outside fast
    recovery. *)
Definition dup_acks_ok (s : sender) : Prop :=
  0 <= dup_acks s /\ (in_fast_recovery s = false -> dup_acks s <= 2).

(** [pkt] is the datagram of a planned segment. *)
Definition planned (transfers : list (Z * list byte)) (pkt : list byte) : Prop :=
  exists i o p, transfers !! i = Some (o, p) /\ make_packet o p = Some pkt.

(** [pkt] is the datagram of the segment [seg]. *)
Definition packet_of (seg : Z * list byte) (pkt : list byte) : Prop :=
  make_packet (fst seg) (snd seg) = Some pkt.

(** The datagram with which a receiver ends the transfer at offset [n]. *)
Definition fin (n : Z) : list byte := be_bytes 4 n ++ ["f"; "i"; "n"]%byte.

(** The events of [demo] up to the third duplicate of the acknowledgment of 9,
    which leaves the sender in fast recovery. *)
Definition to_recovery : list event :=
  acks 1 9 ++ [Recv (ack 9); Recv (ack 9); Recv (ack 9)].

(** ** The fixed-window sender

    Shallow embedding of the loop of [docker/sender_fixed_sliding_window.py].
    Its codec, planner and metrics are those of the Reno sender, line for
    line; its loop keeps a window of [WINDOW_SIZE] segments and reacts to a
    timeout by going back to [base]. *)

Module FixedWindow.

Definition WINDOW_SIZE : Z := 100.

(** The local variables of [main] that live across loop iterations, the
    datagrams handed to [sendto] so far and the number of [time.time()] calls. *)
Record window := {
  base : nat;
  next_seq_num : nat;
  packet_start_times : gmap Z float;
  packet_delays : list float;
  sent : list (list byte);
  clock : nat
}.

Inductive outcome :=
  | Running (s : window)
  | Finished (s : window) (m : metrics)
  | Exhausted (s : window).

Section Loop.

Variable transfers : list (Z * list byte).
Variable alg : summation.
Variable time : nat -> float.

Definition initial : window :=
  {| base := 0; next_seq_num := 0; packet_start_times := ∅; packet_delays := [];
     sent := []; clock := 1 |}.

(** One turn of the sending loop. *)
Definition send_next (s : window) : option window :=
  '(seq_id, payload) ← transfers !! next_seq_num s;
  pkt ← make_packet seq_id payload;
  Some
    match packet_start_times s !! seq_id with
    | Some _ =>
      {| base := base s; next_seq_num := S (next_seq_num s);
         packet_start_times := packet_start_times s;
         packet_delays := packet_delays s;
         sent := sent s ++ [pkt]; clock := clock s |}
    | None =>
      {| base := base s; next_seq_num := S (next_seq_num s);
         packet_start_times := <[seq_id := time (clock s)]> (packet_start_times s);
         packet_delays := packet_delays s;
         sent := sent s ++ [pkt]; clock := S (clock s) |}
    end.

(** [while next_seq_num < base + WINDOW_SIZE and next_seq_num < len(transfers)]. *)
Fixpoint fill_loop (fuel : nat) (s : window) : option window :=
  match fuel with
  | O => Some s
  | S fuel' =>
    if (Z.of_nat (next_seq_num s) <? Z.of_nat (base s) + WINDOW_SIZE)
       && (next_seq_num s <? length transfers)%nat
    then s' ← send_next s; fill_loop fuel' s'
    else Some s
  end.

Definition fill_window (s : window) : option window :=
  fill_loop (length transfers) s.

(** The [except socket.timeout] branch: back to [base], nothing sent. *)
Definition on_timeout (s : window) : window :=
  {| base := base s; next_seq_num := base s;
     packet_start_times := packet_start_times s;
     packet_delays := packet_delays s;
     sent := sent s; clock := clock s |}.

(** One turn of the loop that slides [base] past an acknowledged segment. *)
Definition slide (s : window) (acked_seq : Z) : window :=
  match packet_start_times s !! acked_seq with
  | Some t0 =>
    {| base := S (base s); next_seq_num := next_seq_num s;
       packet_start_times := packet_start_times s;
       packet_delays := packet_delays s ++ [(time (clock s) - t0)%float];
       sent := sent s; clock := S (clock s) |}
  | None =>
    {| base := S (base s); next_seq_num := next_seq_num s;
       packet_start_times := packet_start_times s;
       packet_delays := packet_delays s;
       sent := sent s; clock := clock s |}
  end.

(** [while base < len(transfers) and transfers[base][0] < ack_id]. *)
Fixpoint advance_base (fuel : nat) (ack_id : Z) (s : window) : window :=
  match fuel with
  | O => s
  | S fuel' =>
    match transfers !! base s with
    | Some (acked_seq, _) =>
      if acked_seq <? ack_id then advance_base fuel' ack_id (slide s acked_seq)
      else s
    | None => s
    end
  end.

(** Everything done with an acknowledgment that is not a fin. *)
Definition on_ack (s : window) (ack_id : Z) : option window :=
  '(current_base_seq, _) ← transfers !! base s;
  Some (if current_base_seq <? ack_id
        then advance_base (length transfers) ack_id s else s).

(** The fin branch: the FIN/ACK reply, then the metrics over the duration. *)
Definition on_fin (s : window) (ack_id : Z) : option outcome :=
  fin_ack ← make_packet ack_id FIN_ACK;
  let duration := py_max (time (clock s) - time 0)%float 1e-6%float in
  m ← print_metrics alg (total_bytes transfers) duration (packet_delays s);
  Some (Finished
          {| base := base s; next_seq_num := next_seq_num s;
             packet_start_times := packet_start_times s;
             packet_delays := packet_delays s;
             sent := sent s ++ [fin_ack]; clock := S (clock s) |} m).

(** The body of the outer loop. *)
Definition iteration (s : window) (ev : event) : option outcome :=
  s1 ← fill_window s;
  match ev with
  | Recv ack_pkt =>
    '(ack_id, msg) ← parse_ack ack_pkt;
    if startswith msg FIN then on_fin s1 ack_id
    else s2 ← on_ack s1 ack_id; Some (Running s2)
  | RecvTimeout => Some (Running (on_timeout s1))
  end.

(** The outer loop over what the socket delivers. *)
Fixpoint run (evs : list event) (s : window) : option outcome :=
  if (base s <? length transfers)%nat then
    match evs with
    | [] => Some (Running s)
    | ev :: evs' =>
      o ← iteration s ev;
      match o with
      | Running s' => run evs' s'
      | _ => Some o
      end
    end
  else Some (Exhausted s).

End Loop.

Definition state_of (o : outcome) : window :=
  match o with Running s | Finished s _ | Exhausted s => s end.

(** The state in which the loop on [demo] stands after the events [evs]. *)
Definition reached (evs : list event) : window :=
  match run demo LeftToRight ticks evs initial with
  | Some o => state_of o
  | None => initial
  end.

(** The window is within bounds: no more than [WINDOW_SIZE] segments past
    [base] have been handed out, and none past the plan. *)
Definition in_window (transfers : list (Z * list byte)) (s : window) : Prop :=
  Z.of_nat (next_seq_num s) <= Z.of_nat (base s) + WINDOW_SIZE
  /\ (next_seq_num s <= length transfers)%nat
  /\ (base s <= length transfers)%nat.

End FixedWindow.

(** * Properties *)

(** ** Codec *)

Lemma Z_of_byte_range (b : byte) : 0 <= Z_of_byte b < 256.
Proof.
  unfold Z_of_byte. pose proof (Byte.to_N_bounded b). lia.
Qed.

Lemma Z_of_byte_of_Z (z : Z) : Z_of_byte (byte_of_Z z) = z mod 256.
Proof.
  unfold Z_of_byte, byte_of_Z.
  assert (Hr : 0 <= z mod 256 < 256) by (apply Z.mod_pos_bound; lia).
  destruct (Byte.of_N (Z.to_N (z mod 256))) as [b|] eqn:E.
  - apply Byte.to_of_N in E. rewrite E. lia.
  - apply Byte.of_N_None_iff in E. lia.
Qed.

Lemma be_value_snoc (l : list byte) (b : byte) :
  be_value (l ++ [b]) = be_value l * 256 + Z_of_byte b.
Proof. unfold be_value. now rewrite fold_left_app. Qed.

Lemma length_be_bytes (n : nat) (u : Z) : length (be_bytes n u) = n.
Proof.
  revert u. induction n as [|n IH]; intros u; simpl; [reflexivity|].
  rewrite length_app, IH. simpl. lia.
Qed.

Lemma be_value_be_bytes (n : nat) (u : Z) :
  be_value (be_bytes n u) = u mod 256 ^ Z.of_nat n.
Proof.
  revert u. induction n as [|n IH]; intros u.
  - simpl. now rewrite Z.mod_1_r.
  - cbn [be_bytes]. rewrite be_value_snoc, IH, Z_of_byte_of_Z.
    rewrite Nat2Z.inj_succ, Z.pow_succ_r by lia.
    rewrite Z.mod_mod by lia.
    rewrite (Z.rem_mul_r u 256 (256 ^ Z.of_nat n)) by lia. lia.
Qed.

Lemma pow_256_bits (n : nat) : 256 ^ Z.of_nat n = 2 ^ (8 * Z.of_nat n).
Proof. change 256 with (2 ^ 8). rewrite <- Z.pow_mul_r by lia. reflexivity. Qed.

(** What [int.to_bytes] writes reads back as the same integer. *)
Lemma int_from_bytes_to_bytes (x : Z) (n : nat) (header : list byte) :
  (0 < n)%nat ->
  int_to_bytes x n = Some header ->
  length header = n /\ int_from_bytes header = x.
Proof.
  intros Hn. unfold int_to_bytes.
  set (bits := 8 * Z.of_nat n).
  assert (Hbits : 0 < bits) by (subst bits; lia).
  assert (Hdouble : 2 ^ bits = 2 * 2 ^ (bits - 1)).
  { rewrite <- Z.pow_succ_r by lia. f_equal. lia. }
  assert (Hhalf : 0 < 2 ^ (bits - 1)) by (apply Z.pow_pos_nonneg; lia).
  destruct (_ && _) eqn:E; [|discriminate].
  apply andb_true_iff in E as [E1 E2].
  apply Z.leb_le in E1. apply Z.ltb_lt in E2.
  intros [= <-]. split; [apply length_be_bytes|].
  unfold int_from_bytes. rewrite length_be_bytes, be_value_be_bytes, pow_256_bits.
  fold bits. rewrite Z.mod_mod by lia.
  replace (0 <? bits) with true by (symmetry; apply Z.ltb_lt; lia).
  cbn [andb].
  destruct (Z_lt_le_dec x 0) as [Hneg|Hpos].
  - assert (Hm : x mod 2 ^ bits = x + 2 ^ bits).
    { symmetry. apply Z.mod_unique with (-1); lia. }
    rewrite Hm.
    destruct (2 ^ (bits - 1) <=? x + 2 ^ bits) eqn:C; [lia|].
    apply Z.leb_gt in C. lia.
  - rewrite Z.mod_small by lia.
    destruct (2 ^ (bits - 1) <=? x) eqn:C; [apply Z.leb_le in C; lia|reflexivity].
Qed.

Lemma int_to_bytes_in_range (x : Z) :
  - 2 ^ 31 <= x < 2 ^ 31 -> exists header, int_to_bytes x SEQ_ID_SIZE = Some header.
Proof.
  intros Hx. unfold int_to_bytes, SEQ_ID_SIZE.
  change (2 ^ (8 * Z.of_nat 4 - 1)) with (2 ^ 31).
  destruct (_ && _) eqn:E; [eauto|].
  apply andb_false_iff in E as [E|E]; [apply Z.leb_gt in E|apply Z.ltb_ge in E]; lia.
Qed.

(** One step of the decoder, for rewriting. *)
Lemma decode_cons (h : errors) (b : byte) (s1 : list byte) :
  decode h (b :: s1) =
    let c := Z_of_byte b in
    if c <? 0x80 then option_map (cons c) (decode h s1)
    else if c <? 0xC2 then on_error h (decode h s1)
    else if c <? 0xE0 then
      match s1 with
      | [] => on_error h (Some [])
      | b2 :: s2 =>
        let c2 := Z_of_byte b2 in
        if negb (is_continuation c2) then on_error h (decode h s1)
        else option_map (cons (c * 64 + c2 - (0xC0 * 64 + 0x80))) (decode h s2)
      end
    else if c <? 0xF0 then
      match s1 with
      | [] => on_error h (Some [])
      | b2 :: s2 =>
        let c2 := Z_of_byte b2 in
        if bad_second3 c c2 then on_error h (decode h s1)
        else
          match s2 with
          | [] => on_error h (Some [])
          | b3 :: s3 =>
            let c3 := Z_of_byte b3 in
            if negb (is_continuation c3) then on_error h (decode h s2)
            else option_map
                   (cons (c * 4096 + c2 * 64 + c3
                          - (0xE0 * 4096 + 0x80 * 64 + 0x80)))
                   (decode h s3)
          end
      end
    else if c <? 0xF5 then
      match s1 with
      | [] => on_error h (Some [])
      | b2 :: s2 =>
        let c2 := Z_of_byte b2 in
        if bad_second4 c c2 then on_error h (decode h s1)
        else
          match s2 with
          | [] => on_error h (Some [])
          | b3 :: s3 =>
            let c3 := Z_of_byte b3 in
            if negb (is_continuation c3) then on_error h (decode h s2)
            else
              match s3 with
              | [] => on_error h (Some [])
              | b4 :: s4 =>
                let c4 := Z_of_byte b4 in
                if negb (is_continuation c4) then on_error h (decode h s3)
                else option_map
                       (cons (c * 262144 + c2 * 4096 + c3 * 64 + c4
                              - (0xF0 * 262144 + 0x80 * 4096 + 0x80 * 64 + 0x80)))
                       (decode h s4)
              end
          end
      end
    else on_error h (decode h s1).
Proof. reflexivity. Qed.

(** Splits the goal along the tests and the look-ahead of one decoder step. *)
Ltac decode_cases :=
  rewrite decode_cons; cbv zeta;
  repeat match goal with
  | |- context [if ?c then _ else _] => destruct c eqn:?
  | |- context [match ?l with [] => _ | _ :: _ => _ end] =>
    let b := fresh "b" in let t := fresh "s" in destruct l as [|b t]
  end.

(** With [errors="ignore"] the decoder always returns a text. *)
Lemma decode_ignore_total_upto (n : nat) :
  forall s : list byte, (length s <= n)%nat -> exists msg, decode Ignore s = Some msg.
Proof.
  induction n as [|n IH]; intros s Hlen.
  - destruct s; [now exists []|simpl in Hlen; lia].
  - destruct s as [|b s1]; [now exists []|].
    decode_cases; cbn [on_error];
    try (eexists; reflexivity);
    try (apply IH; simpl in Hlen |- *; lia);
    match goal with
    | |- exists msg, option_map _ (decode Ignore ?t) = Some msg =>
      let m := fresh "m" in let H := fresh "H" in
      assert (H : exists m, decode Ignore t = Some m)
        by (apply IH; simpl in Hlen |- *; lia);
      destruct H as [m H]; rewrite H; eexists; reflexivity
    end.
Qed.

Lemma decode_ignore_total (s : list byte) : exists msg, decode Ignore s = Some msg.
Proof. now apply (decode_ignore_total_upto (length s)). Qed.

(** Replays on the strict decoder the tests a step is known to have passed. *)
Ltac replay_tests :=
  rewrite decode_cons; cbv zeta;
  repeat (cbv beta iota;
          match goal with
          | H : ?c = _ |- context [if ?c then _ else _] => rewrite H
          end);
  cbv beta iota.

(** With [errors="ignore"] the text is the strict decoding of the input with
    some of its bytes left out. *)
Lemma decode_ignore_drops_upto (n : nat) :
  forall s : list byte, (length s <= n)%nat ->
  exists msg kept,
    decode Ignore s = Some msg /\ sublist kept s /\ decode Strict kept = Some msg.
Proof.
  induction n as [|n IH]; intros s Hlen.
  - destruct s; [|simpl in Hlen; lia].
    exists [], []. repeat split; constructor.
  - destruct s as [|b s1].
    { exists [], []. repeat split; constructor. }
    decode_cases; cbn [on_error];
    lazymatch goal with
    | |- exists msg kept, Some [] = Some msg /\ _ =>
      exists [], []; repeat split; apply sublist_nil_l
    | |- exists msg kept, decode Ignore ?t = Some msg /\ _ =>
      destruct (IH t) as (msg & kept & Hm & Hs & Hk);
      [simpl in Hlen |- *; lia|];
      exists msg, kept; repeat split; [exact Hm| |exact Hk];
      repeat first [exact Hs | apply sublist_cons]
    | |- exists msg kept, option_map (cons ?cp) (decode Ignore ?t) = Some msg /\
                          sublist kept ?whole /\ _ =>
      destruct (IH t) as (msg & kept & Hm & Hs & Hk);
      [simpl in Hlen |- *; lia|];
      rewrite Hm; cbn [option_map];
      lazymatch whole with
      | [?x1; ?x2; ?x3; ?x4] ++ _ => idtac
      | ?x1 :: ?x2 :: ?x3 :: ?x4 :: t =>
        exists (cp :: msg), (x1 :: x2 :: x3 :: x4 :: kept)
      | ?x1 :: ?x2 :: ?x3 :: t => exists (cp :: msg), (x1 :: x2 :: x3 :: kept)
      | ?x1 :: ?x2 :: t => exists (cp :: msg), (x1 :: x2 :: kept)
      | ?x1 :: t => exists (cp :: msg), (x1 :: kept)
      end;
      repeat split;
      [ repeat first [exact Hs | apply sublist_skip]
      | replay_tests; rewrite Hk; reflexivity ]
    end.
Qed.

Lemma decode_ascii (h : errors) (payload : list byte) :
  Forall (fun b => Z_of_byte b < 0x80) payload ->
  decode h payload = Some (text_of_bytes payload).
Proof.
  induction 1 as [|b s Hb _ IH]; [reflexivity|].
  rewrite decode_cons. cbv zeta.
  apply Z.ltb_lt in Hb. rewrite Hb, IH. reflexivity.
Qed.

(** C6 (as amended).  For every offset that fits four signed bytes and every
    payload, [make_packet] succeeds, the packet splits back into the offset
    and the payload bytes, and [parse_ack] returns the offset with the payload
    read as text: its UTF-8 decoding with the undecodable bytes left out, which
    is the payload itself when the payload is ASCII. *)
Theorem make_packet_parse_ack (seq_id : Z) (payload : list byte) :
  - 2 ^ 31 <= seq_id < 2 ^ 31 ->
  exists pkt msg,
    make_packet seq_id payload = Some pkt
    /\ int_from_bytes (firstn SEQ_ID_SIZE pkt) = seq_id
    /\ skipn SEQ_ID_SIZE pkt = payload
    /\ decode Ignore payload = Some msg
    /\ parse_ack pkt = Some (seq_id, msg)
    /\ (Forall (fun b => Z_of_byte b < 0x80) payload -> msg = text_of_bytes payload).
Proof.
  intros Hrange.
  destruct (int_to_bytes_in_range seq_id Hrange) as [header Hh].
  destruct (int_from_bytes_to_bytes seq_id SEQ_ID_SIZE header) as [Hlen Hval];
    [unfold SEQ_ID_SIZE; lia|exact Hh|].
  destruct (decode_ignore_total payload) as [msg Hmsg].
  exists (header ++ payload), msg.
  assert (Hfirst : firstn SEQ_ID_SIZE (header ++ payload) = header).
  { rewrite <- Hlen. apply take_app_length. }
  assert (Hskip : skipn SEQ_ID_SIZE (header ++ payload) = payload).
  { rewrite <- Hlen. apply drop_app_length. }
  repeat split.
  - unfold make_packet. now rewrite Hh.
  - now rewrite Hfirst.
  - exact Hskip.
  - exact Hmsg.
  - unfold parse_ack. now rewrite Hfirst, Hskip, Hmsg, Hval.
  - intros Hascii. rewrite (decode_ascii Ignore payload Hascii) in Hmsg. congruence.
Qed.

(** The round trip of a fin message at offset 1020. *)
Lemma make_packet_parse_ack_witness :
  exists pkt msg,
    make_packet 1020 ["f"; "i"; "n"]%byte = Some pkt
    /\ int_from_bytes (firstn SEQ_ID_SIZE pkt) = 1020
    /\ skipn SEQ_ID_SIZE pkt = ["f"; "i"; "n"]%byte
    /\ decode Ignore ["f"; "i"; "n"]%byte = Some msg
    /\ parse_ack pkt = Some (1020, msg)
    /\ (Forall (fun b => Z_of_byte b < 0x80) ["f"; "i"; "n"]%byte ->
        msg = text_of_bytes ["f"; "i"; "n"]%byte).
Proof. apply (make_packet_parse_ack 1020 ["f"; "i"; "n"]%byte). lia. Defined.

(** C6 as stated fails: a payload byte that is not UTF-8 does not come back. *)
Lemma parse_ack_loses_payload :
  exists pkt,
    - 2 ^ 31 <= 0 < 2 ^ 31
    /\ (length [xff] <= MSS)%nat
    /\ make_packet 0 [xff] = Some pkt
    /\ parse_ack pkt = Some (0, [])
    /\ parse_ack pkt <> Some (0, text_of_bytes [xff]).
Proof.
  exists [x00; x00; x00; x00; xff].
  split; [lia|]. split; [unfold MSS; simpl; lia|].
  repeat split; discriminate.
Qed.

Lemma bad_second3_continuation (c c2 : Z) :
  bad_second3 c c2 = false -> is_continuation c2 = true.
Proof.
  unfold bad_second3. intros H. apply orb_false_iff in H as [H _].
  now apply negb_false_iff.
Qed.

Lemma bad_second4_continuation (c c2 : Z) :
  bad_second4 c c2 = false -> is_continuation c2 = true.
Proof.
  unfold bad_second4. intros H. apply orb_false_iff in H as [H _].
  now apply negb_false_iff.
Qed.

(** A continuation byte where a character should start is an error of one
    byte. *)
Lemma decode_continuation (h : errors) (b : byte) (s : list byte) :
  is_continuation (Z_of_byte b) = true ->
  decode h (b :: s) = on_error h (decode h s).
Proof.
  unfold is_continuation. intros H. apply andb_true_iff in H as [H1 H2].
  apply Z.leb_le in H1. apply Z.ltb_lt in H2.
  rewrite decode_cons. cbv zeta.
  destruct (Z_of_byte b <? 0x80) eqn:E1; [apply Z.ltb_lt in E1; lia|].
  destruct (Z_of_byte b <? 0xC2) eqn:E2; [reflexivity|apply Z.ltb_ge in E2; lia].
Qed.

(** The tests passed so far make the byte a continuation byte. *)
Ltac continuation :=
  first [ apply negb_false_iff; assumption
        | eapply bad_second3_continuation; eassumption
        | eapply bad_second4_continuation; eassumption ].

(** Nothing decodes at the head: whatever prefix is taken, the strict
    decoder meets the error the tests in the context lead to. *)
Ltac no_character :=
  let n := fresh "n" in let c := fresh "c" in
  intros n c; destruct n as [|n]; [discriminate|];
  cbn [firstn]; rewrite decode_cons; cbv zeta;
  repeat (cbv beta iota;
          match goal with
          | H : ?t = _ |- context [if ?t then _ else _] => rewrite H
          | |- context [match firstn ?k (_ :: _) with [] => _ | _ :: _ => _ end] =>
            destruct k; cbn [firstn]
          | |- context [match firstn ?k [] with [] => _ | _ :: _ => _ end] =>
            rewrite firstn_nil
          end);
  cbv beta iota; cbn [on_error]; discriminate.

(** What the decoder does at the head of a non-empty input: it reads the
    encoding of one character, or it meets an error, and then the tolerant
    decoder goes on as if the first byte were not there. *)
Lemma decode_head (b : byte) (s1 : list byte) (r : option (list Z)) :
  decode Ignore (b :: s1) = r ->
  (exists ch rest c,
     b :: s1 = ch ++ rest
     /\ decode Strict ch = Some [c]
     /\ r = option_map (cons c) (decode Ignore rest)
     /\ (length rest < length (b :: s1))%nat)
  \/ (undecodable (b :: s1) /\ decode Ignore s1 = r).
Proof.
  decode_cases; cbn [on_error]; intros <-;
  lazymatch goal with
  | |- (exists ch rest c, ?whole = _ /\ _ /\
          option_map (cons ?cp) (decode Ignore ?t) = _ /\ _) \/ _ =>
    left;
    lazymatch whole with
    | ?x1 :: ?x2 :: ?x3 :: ?x4 :: t => exists [x1; x2; x3; x4], t, cp
    | ?x1 :: ?x2 :: ?x3 :: t => exists [x1; x2; x3], t, cp
    | ?x1 :: ?x2 :: t => exists [x1; x2], t, cp
    | ?x1 :: t => exists [x1], t, cp
    end;
    split; [reflexivity|]; split; [replay_tests; reflexivity|];
    split; [reflexivity|simpl; lia]
  | |- _ =>
    right; split;
    [ no_character
    | repeat (rewrite decode_continuation by continuation; cbn [on_error]);
      reflexivity ]
  end.
Qed.

Lemma decode_strict_nil (s : list byte) : decode Strict s = Some [] -> s = [].
Proof.
  destruct s as [|b s1]; [reflexivity|].
  decode_cases; cbn [on_error]; try discriminate;
    match goal with
    | |- option_map _ ?x = _ -> _ => destruct x; discriminate
    end.
Qed.

(** The encoding of a character is read as that character whatever follows
    it. *)
Lemma decode_character (ch rest : list byte) (c : Z) :
  decode Strict ch = Some [c] ->
  decode Ignore (ch ++ rest) = option_map (cons c) (decode Ignore rest).
Proof.
  destruct ch as [|b ch1]; [discriminate|].
  rewrite (decode_cons Strict b ch1). cbv zeta.
  repeat match goal with
  | |- context [if ?t then _ else _] => destruct t eqn:?
  | |- context [match ?l with [] => _ | _ :: _ => _ end] =>
    let b := fresh "b" in let t := fresh "s" in destruct l as [|b t]
  end;
  cbn [on_error]; try discriminate;
  match goal with
  | |- option_map _ (decode Strict ?t) = _ -> _ =>
    let E := fresh "E" in let H := fresh "H" in
    destruct (decode Strict t) as [m|] eqn:E; [|discriminate];
    cbn [option_map]; intros H; injection H as <- ->;
    apply decode_strict_nil in E; subst t;
    cbn [app]; replay_tests; reflexivity
  end.
Qed.

(** Where nothing decodes, the tolerant decoder drops the first byte. *)
Lemma decode_undecodable (b : byte) (rest : list byte) :
  undecodable (b :: rest) -> decode Ignore (b :: rest) = decode Ignore rest.
Proof.
  intros Hu.
  destruct (decode_head b rest _ eq_refl)
    as [(ch & rest' & c & Hsplit & Hch & _)|[_ H]]; [|now symmetry].
  exfalso. apply (Hu (length ch) c). rewrite Hsplit.
  now rewrite take_app_length.
Qed.

(** The tolerant decoder returns the text with the undecodable bytes
    dropped, and nothing else is such a text. *)
Lemma decode_ignore_drops_undecodable (s : list byte) (msg : list Z) :
  drops_undecodable s msg <-> decode Ignore s = Some msg.
Proof.
  split.
  - induction 1 as [|ch c rest msg Hch _ IH|b rest msg Hu _ IH].
    + reflexivity.
    + rewrite (decode_character ch rest c Hch), IH. reflexivity.
    + now rewrite (decode_undecodable b rest Hu).
  - remember (length s) as n eqn:Hn. revert s msg Hn.
    induction n as [n IH] using lt_wf_ind. intros s msg -> Hmsg.
    destruct s as [|b s1].
    { injection Hmsg as <-. constructor. }
    destruct (decode_head b s1 _ Hmsg)
      as [(ch & rest & c & Hsplit & Hch & Hr & Hlen)|[Hu Hrest]].
    + destruct (decode Ignore rest) as [m|] eqn:Em; [|discriminate].
      injection Hr as ->. rewrite Hsplit.
      apply drops_keep; [exact Hch|].
      apply (IH (length rest)); [exact Hlen|reflexivity|exact Em].
    + apply drops_drop; [exact Hu|].
      apply (IH (length s1)); [simpl; lia|reflexivity|exact Hrest].
Qed.

(** Input the strict decoder accepts is read the same by the tolerant one. *)
Lemma decode_strict_ignore (s : list byte) :
  forall text, decode Strict s = Some text -> decode Ignore s = Some text.
Proof.
  remember (length s) as n eqn:Hn. revert s Hn.
  induction n as [n IH] using lt_wf_ind. intros s -> text.
  destruct s as [|b s1]; [trivial|].
  rewrite (decode_cons Strict b s1). cbv zeta.
  repeat match goal with
  | |- context [if ?t then _ else _] => destruct t eqn:?
  | |- context [match ?l with [] => _ | _ :: _ => _ end] =>
    let b := fresh "b" in let t := fresh "s" in destruct l as [|b t]
  end;
  cbn [on_error]; try discriminate;
  match goal with
  | |- option_map _ (decode Strict ?t) = _ -> _ =>
    let E := fresh "E" in let H := fresh "H" in
    destruct (decode Strict t) as [m|] eqn:E; [|discriminate];
    cbn [option_map]; intros H; injection H as <-;
    apply (IH (length t)) in E; [|simpl; lia|reflexivity];
    replay_tests; rewrite E; reflexivity
  end.
Qed.

(** C7 (as amended).  [parse_ack] returns a pair for every byte string: the
    signed value of the first four bytes (of those there are), and the text
    of the rest with the undecodable bytes dropped.  That text is the one
    text obtained by reading the rest from left to right, keeping every
    character whose encoding lies ahead and dropping one byte wherever
    nothing can be decoded; it is the strict decoding of the bytes kept, and
    the strict decoding of the whole rest when that is valid UTF-8. *)
Theorem parse_ack_total (packet : list byte) :
  exists msg kept,
    parse_ack packet = Some (int_from_bytes (firstn SEQ_ID_SIZE packet), msg)
    /\ sublist kept (skipn SEQ_ID_SIZE packet)
    /\ decode Strict kept = Some msg
    /\ drops_undecodable (skipn SEQ_ID_SIZE packet) msg
    /\ (forall msg', drops_undecodable (skipn SEQ_ID_SIZE packet) msg' -> msg' = msg)
    /\ (forall text, decode Strict (skipn SEQ_ID_SIZE packet) = Some text ->
                     msg = text).
Proof.
  destruct (decode_ignore_drops_upto (length (skipn SEQ_ID_SIZE packet))
              (skipn SEQ_ID_SIZE packet)) as (msg & kept & Hm & Hs & Hk); [lia|].
  exists msg, kept. unfold parse_ack. rewrite Hm.
  split; [reflexivity|]. split; [exact Hs|]. split; [exact Hk|].
  split; [now apply decode_ignore_drops_undecodable|].
  split.
  - intros msg' H. apply decode_ignore_drops_undecodable in H. congruence.
  - intros text H. apply decode_strict_ignore in H. congruence.
Qed.

(** C7 as stated fails: an undecodable byte is left out, not replaced. *)
Lemma parse_ack_does_not_replace :
  parse_ack [x00; x00; x00; x01; xff] = Some (1, [])
  /\ parse_ack_replacing [x00; x00; x00; x01; xff] = Some (1, [REPLACEMENT_CHARACTER])
  /\ parse_ack [x00; x00; x00; x01; xff]
     <> parse_ack_replacing [x00; x00; x00; x01; xff].
Proof. repeat split; discriminate. Qed.

(** ** Planner *)

Section Chunks.

Variable data : list byte.
Variable mss : nat.
Hypothesis mss_pos : (0 < mss)%nat.

Lemma slice_window (i : nat) : slice data i (i + mss) = firstn mss (skipn i data).
Proof. unfold slice. f_equal. lia. Qed.

(** The chunks cut from position [i] on. *)
Lemma chunks_from (fuel i : nat) :
  (length data - i <= fuel)%nat ->
  let cs := map (fun j => slice data j (j + mss))
                (range_from fuel i (length data) mss) in
  concat cs = skipn i data
  /\ Forall (fun c => (0 < length c <= mss)%nat) cs
  /\ length cs = ((length data - i + mss - 1) / mss)%nat.
Proof.
  revert i. induction fuel as [|fuel IH]; intros i Hfuel; cbn [range_from].
  - cbn. repeat split.
    + symmetry. apply drop_ge. lia.
    + constructor.
    + symmetry. apply Nat.div_small. lia.
  - destruct (i <? length data)%nat eqn:Hi.
    + apply Nat.ltb_lt in Hi.
      destruct (IH (i + mss)%nat) as (Hcat & Hall & Hlen); [lia|].
      cbn [map concat length]. rewrite slice_window. repeat split.
      * rewrite Hcat, <- drop_drop. apply take_drop.
      * constructor; [|exact Hall].
        rewrite length_take, length_drop. lia.
      * rewrite Hlen.
        destruct (Nat.le_gt_cases mss (length data - i)) as [Hbig|Hsmall].
        -- replace (length data - i + mss - 1)%nat
             with ((length data - (i + mss) + mss - 1) + 1 * mss)%nat by lia.
           rewrite Nat.div_add by lia. lia.
        -- replace (length data - (i + mss) + mss - 1)%nat with (mss - 1)%nat by lia.
           rewrite (Nat.div_small (mss - 1)) by lia.
           replace (length data - i + mss - 1)%nat
             with ((length data - i - 1) + 1 * mss)%nat by lia.
           rewrite Nat.div_add by lia.
           rewrite (Nat.div_small (length data - i - 1)) by lia. reflexivity.
    + apply Nat.ltb_ge in Hi. cbn. repeat split.
      * symmetry. apply drop_ge. lia.
      * constructor.
      * symmetry. apply Nat.div_small. lia.
Qed.

Lemma chunks_of_spec :
  exists cs, chunks_of mss data = Some cs
    /\ concat cs = data
    /\ Forall (fun c => (0 < length c <= mss)%nat) cs
    /\ length cs = ((length data + mss - 1) / mss)%nat.
Proof.
  unfold chunks_of, py_range.
  destruct (mss =? 0)%nat eqn:E; [apply Nat.eqb_eq in E; lia|].
  destruct (chunks_from (length data) 0) as (Hcat & Hall & Hlen); [lia|].
  eexists. split; [reflexivity|]. repeat split.
  - exact Hcat.
  - exact Hall.
  - rewrite Hlen. f_equal. lia.
Qed.

End Chunks.

Lemma number_chunks_spec (chunks : list (list byte)) :
  forall acc seq,
    fold_left
      (fun '(transfers, seq) chunk =>
         (transfers ++ [(seq, chunk)], seq + Z.of_nat (length chunk)))
      chunks (acc, seq)
    = (acc ++ number_from seq chunks, seq + Z.of_nat (length (concat chunks))).
Proof.
  induction chunks as [|c cs IH]; intros acc seq; cbn [fold_left number_from concat].
  - rewrite app_nil_r. f_equal. simpl. lia.
  - rewrite IH, <- app_assoc. cbn [app]. f_equal.
    rewrite length_app. lia.
Qed.

Lemma plan_transfers_spec (chunks : list (list byte)) :
  plan_transfers chunks
  = number_from 0 chunks ++ [(Z.of_nat (length (concat chunks)), [])].
Proof.
  unfold plan_transfers, number_chunks. rewrite number_chunks_spec. reflexivity.
Qed.

Lemma number_from_snd (chunks : list (list byte)) (seq : Z) :
  map snd (number_from seq chunks) = chunks.
Proof.
  revert seq. induction chunks as [|c cs IH]; intros seq; cbn; [reflexivity|].
  now rewrite IH.
Qed.

Lemma number_from_length (chunks : list (list byte)) (seq : Z) :
  length (number_from seq chunks) = length chunks.
Proof. rewrite <- (length_map snd), number_from_snd. reflexivity. Qed.

(** Every offset is at least the start, and the offsets ascend strictly when
    no chunk is empty; the terminal segment sits right after the last. *)
Lemma number_from_sorted (chunks : list (list byte)) :
  Forall (fun c => (0 < length c)%nat) chunks ->
  forall seq,
    StronglySorted Z.lt
      (map fst (number_from seq chunks
                ++ [(seq + Z.of_nat (length (concat chunks)), [])]))
    /\ Forall (fun o => seq <= o)
         (map fst (number_from seq chunks
                   ++ [(seq + Z.of_nat (length (concat chunks)), [])])).
Proof.
  induction 1 as [|c cs Hc _ IH]; intros seq; cbn [number_from concat app map fst].
  - split; repeat constructor. simpl. lia.
  - destruct (IH (seq + Z.of_nat (length c))) as [Hs Hf].
    rewrite length_app, Nat2Z.inj_add, Z.add_assoc.
    split.
    + constructor; [exact Hs|].
      eapply Forall_impl; [exact Hf|]. cbn. intros o Ho. lia.
    + constructor; [lia|].
      eapply Forall_impl; [exact Hf|]. cbn. intros o Ho. lia.
Qed.

(** Each offset is the number of payload bytes before its segment. *)
Lemma number_from_cumulative (chunks : list (list byte)) :
  forall seq i o p,
    (number_from seq chunks
     ++ [(seq + Z.of_nat (length (concat chunks)), [])]) !! i = Some (o, p) ->
    o = seq + Z.of_nat (length (concat (map snd
          (take i (number_from seq chunks
                   ++ [(seq + Z.of_nat (length (concat chunks)), [])]))))).
Proof.
  induction chunks as [|c cs IH]; intros seq i o p; cbn [number_from concat app].
  - destruct i as [|i]; cbn; [|destruct i; discriminate].
    intros [= <- <-]. lia.
  - destruct i as [|i]; cbn [lookup list_lookup take map snd concat].
    + intros [= <- <-]. simpl. lia.
    + rewrite length_app, Nat2Z.inj_add, Z.add_assoc.
      intros Hi. apply IH in Hi. rewrite Hi, length_app. lia.
Qed.

Lemma payload_lengths_sum (l : list (Z * list byte)) :
  list_sum (map (fun t => length (snd t)) l) = length (concat (map snd l)).
Proof.
  induction l as [|[o p] l IH]; [reflexivity|].
  cbn [map concat snd]. rewrite length_app, <- IH. reflexivity.
Qed.

(** C8.  For any payload and any positive segment size, planning yields
    [ceil(L / mss) + 1] segments (one when the payload is empty); the offsets
    ascend strictly, each being the number of payload bytes before its
    segment; the chunks before the terminal segment hold between 1 and [mss]
    bytes, concatenate to the payload and so sum to [L] bytes; the last
    segment is the empty one at offset [L]. *)
Theorem plan_correct (mss : nat) (data : list byte) :
  (0 < mss)%nat ->
  exists transfers,
    plan mss data = Some transfers
    /\ length transfers = ((length data + mss - 1) / mss + 1)%nat
    /\ (length data = 0%nat -> transfers = [(0, [])])
    /\ StronglySorted Z.lt (map fst transfers)
    /\ (forall i o p, transfers !! i = Some (o, p) ->
          o = Z.of_nat (length (concat (map snd (take i transfers)))))
    /\ concat (map snd (removelast transfers)) = data
    /\ list_sum (map (fun t => length (snd t)) (removelast transfers)) = length data
    /\ Forall (fun t => (0 < length (snd t) <= mss)%nat) (removelast transfers)
    /\ last transfers = Some (Z.of_nat (length data), []).
Proof.
  intros Hmss.
  destruct (chunks_of_spec data mss Hmss) as (cs & Hcs & Hcat & Hall & Hlen).
  exists (plan_transfers cs). unfold plan. rewrite Hcs. cbn [option_map].
  rewrite plan_transfers_spec, Hcat.
  assert (Hpos : Forall (fun c => (0 < length c)%nat) cs).
  { eapply Forall_impl; [exact Hall|]. cbn. lia. }
  rewrite removelast_last, last_snoc.
  repeat split.
  - rewrite length_app, number_from_length, Hlen. simpl. lia.
  - intros H0. destruct cs as [|c cs']; [rewrite H0; reflexivity|].
    apply Forall_cons in Hall as [Hc _].
    rewrite <- Hcat in H0. cbn [concat] in H0. rewrite length_app in H0. lia.
  - destruct (number_from_sorted cs Hpos 0) as [Hs _].
    rewrite Hcat in Hs. exact Hs.
  - intros i o p Hi.
    pose proof (number_from_cumulative cs 0 i o p) as Hc.
    rewrite Hcat in Hc. cbn [Z.add] in Hc. apply Hc in Hi. exact Hi.
  - now rewrite number_from_snd.
  - rewrite <- Hcat, payload_lengths_sum, number_from_snd. reflexivity.
  - rewrite <- (number_from_snd cs 0) in Hall.
    apply Forall_map in Hall. exact Hall.
Qed.

(** Three bytes in segments of two. *)
Lemma plan_correct_witness :
  exists transfers,
    plan 2 ["a"; "b"; "c"]%byte = Some transfers
    /\ length transfers = ((length ["a"; "b"; "c"]%byte + 2 - 1) / 2 + 1)%nat
    /\ (length ["a"; "b"; "c"]%byte = 0%nat -> transfers = [(0, [])])
    /\ StronglySorted Z.lt (map fst transfers)
    /\ (forall i o p, transfers !! i = Some (o, p) ->
          o = Z.of_nat (length (concat (map snd (take i transfers)))))
    /\ concat (map snd (removelast transfers)) = ["a"; "b"; "c"]%byte
    /\ list_sum (map (fun t => length (snd t)) (removelast transfers))
       = length ["a"; "b"; "c"]%byte
    /\ Forall (fun t => (0 < length (snd t) <= 2)%nat) (removelast transfers)
    /\ last transfers = Some (Z.of_nat (length ["a"; "b"; "c"]%byte), []).
Proof. apply (plan_correct 2 ["a"; "b"; "c"]%byte). lia. Defined.

(** The sender's own planning is the instance at [MSS]. *)
Lemma load_payload_chunks_plan (data : list byte) :
  option_map plan_transfers (load_payload_chunks data) = plan MSS data.
Proof. reflexivity. Qed.

(** ** Metrics *)

(** C9.  For delays [0.1, 0.3, 0.2], 3000 bytes and 1.5 seconds the metrics
    are a throughput of 2000.0, an average delay of 0.2, an average jitter of
    0.15 and a score of 1.0 + 100.0 + 175.0 = 276.0.  The throughput and the
    first term of the score are exact.  The others agree up to the rounding
    of binary64: the average jitter is the float next below 0.15; the average
    delay and the score are the float next above 0.2 and 276.0 when the
    interpreter adds left to right, the float next below 0.2 and the float
    next above 276.0 when it compensates; every one of them, and each term
    of the score, is within 1e-13 of the number stated, far beyond the seven
    decimals of the summary line.  Both averages are positive, so the score
    is computed from them and 1e-6 stands in for neither. *)
Theorem metrics_scenario (alg : summation) :
  exists m,
    print_metrics alg 3000 1.5 [0.1; 0.3; 0.2]%float = Some m
    /\ throughput m = 2000%float
    /\ avg_jitter m = next_down 0.15
    /\ avg_delay m = match alg with
                     | LeftToRight => next_up 0.2
                     | Compensated => next_down 0.2
                     end
    /\ score m = match alg with
                 | LeftToRight => 276%float
                 | Compensated => next_up 276
                 end
    /\ (0 <? avg_jitter m)%float = true
    /\ (0 <? avg_delay m)%float = true
    /\ score m = (throughput m / 2000 + 15 / avg_jitter m + 35 / avg_delay m)%float
    /\ (throughput m / 2000)%float = 1%float
    /\ within 1e-13 (avg_delay m) 0.2 = true
    /\ within 1e-13 (avg_jitter m) 0.15 = true
    /\ within 1e-13 (15 / avg_jitter m) 100 = true
    /\ within 1e-13 (35 / avg_delay m) 175 = true
    /\ within 1e-13 (score m) 276 = true.
Proof.
  destruct alg; eexists; (split; [vm_compute; reflexivity|]);
    cbn [throughput avg_jitter avg_delay score]; repeat split; vm_compute; reflexivity.
Qed.

(** The agreement is up to rounding only: however the interpreter sums,
    neither average is bit for bit the float written 0.15 or 0.2. *)
Lemma metrics_not_exact :
  exists m m',
    print_metrics LeftToRight 3000 1.5 [0.1; 0.3; 0.2]%float = Some m
    /\ (avg_jitter m =? 0.15)%float = false
    /\ (avg_delay m =? 0.2)%float = false
    /\ print_metrics Compensated 3000 1.5 [0.1; 0.3; 0.2]%float = Some m'
    /\ (avg_jitter m' =? 0.15)%float = false
    /\ (avg_delay m' =? 0.2)%float = false.
Proof. do 2 eexists. repeat split; vm_compute; reflexivity. Qed.

(** With no delay sample both averages are 0 and 1e-6 stands in for them. *)
Lemma metrics_no_sample (alg : summation) :
  print_metrics alg 3000 1.5 [] =
    Some {| throughput := 2000; avg_delay := 0; avg_jitter := 0;
            score := (1 + 15 / 1e-6 + 35 / 1e-6)%float |}.
Proof. destruct alg; vm_compute; reflexivity. Qed.

(** ** The loop: what each step leaves alone *)

Section LoopProperties.

Variable transfers : list (Z * list byte).
Variable alg : summation.
Variable time : nat -> float.
Context {h : host}.

Lemma make_packet_encodable (i : nat) (seq_id : Z) (payload : list byte) :
  encodable transfers ->
  transfers !! i = Some (seq_id, payload) ->
  exists pkt, make_packet seq_id payload = Some pkt.
Proof.
  intros Henc Hi. unfold encodable in Henc. rewrite Forall_lookup in Henc.
  specialize (Henc i _ Hi). cbn in Henc.
  destruct (int_to_bytes_in_range seq_id Henc) as [header Hh].
  unfold make_packet. rewrite Hh. eauto.
Qed.

(** A window send touches neither [base] nor the congestion variables nor the
    delays; it appends one datagram and keeps every recorded send time. *)
Lemma send_next_frame (s s' : sender) :
  send_next transfers time s = Some s' ->
  base s' = base s
  /\ congestion s' = congestion s
  /\ packet_delays s' = packet_delays s
  /\ next_seq_num s' = S (next_seq_num s)
  /\ (exists pkt, sent s' = sent s ++ [pkt])
  /\ (forall o t, packet_start_times s !! o = Some t ->
                  packet_start_times s' !! o = Some t).
Proof.
  unfold send_next.
  destruct (transfers !! next_seq_num s) as [[seq_id payload]|]; [|discriminate].
  cbn. destruct (make_packet seq_id payload) as [pkt|]; [|discriminate].
  cbn. destruct (packet_start_times s !! seq_id) as [t0|] eqn:E;
    intros [= <-]; cbn; repeat split; eauto.
  intros o t Ho. destruct (decide (seq_id = o)) as [->|Hne]; [congruence|].
  now rewrite lookup_insert_ne.
Qed.

Lemma send_next_some (s : sender) :
  encodable transfers ->
  (next_seq_num s < length transfers)%nat ->
  exists s', send_next transfers time s = Some s'.
Proof.
  intros Henc Hlt. unfold send_next.
  destruct (lookup_lt_is_Some_2 transfers _ Hlt) as [[seq_id payload] Hi].
  rewrite Hi. cbn.
  destruct (make_packet_encodable _ _ _ Henc Hi) as [pkt ->]. cbn. eauto.
Qed.

Lemma fill_loop_frame (fuel : nat) (limit : Z) :
  forall s s',
    fill_loop transfers time fuel limit s = Some s' ->
    base s' = base s
    /\ congestion s' = congestion s
    /\ packet_delays s' = packet_delays s
    /\ (next_seq_num s <= next_seq_num s')%nat
    /\ (exists out, sent s' = sent s ++ out)
    /\ (forall o t, packet_start_times s !! o = Some t ->
                    packet_start_times s' !! o = Some t).
Proof.
  induction fuel as [|fuel IH]; intros s s'; cbn [fill_loop].
  - intros [= <-]. repeat split; eauto. exists []. now rewrite app_nil_r.
  - destruct (_ && _).
    + destruct (send_next transfers time s) as [s1|] eqn:E1; [|discriminate].
      cbn. intros H. apply IH in H as (Hb & Hc & Hd & Hn & [out Ho] & Ht).
      apply send_next_frame in E1 as (Hb1 & Hc1 & Hd1 & Hn1 & [pkt Ho1] & Ht1).
      repeat split; try congruence; try lia.
      * exists (pkt :: out). rewrite Ho, Ho1, <- app_assoc. reflexivity.
      * intros o t Hot. apply Ht, Ht1, Hot.
    + intros [= <-]. repeat split; eauto. exists []. now rewrite app_nil_r.
Qed.

Lemma fill_loop_some (fuel : nat) (limit : Z) :
  encodable transfers ->
  forall s, exists s', fill_loop transfers time fuel limit s = Some s'.
Proof.
  intros Henc. induction fuel as [|fuel IH]; intros s; cbn [fill_loop]; [eauto|].
  destruct (_ && _) eqn:E; [|eauto].
  apply andb_true_iff in E as [_ E]. apply Nat.ltb_lt in E.
  destruct (send_next_some s Henc E) as [s1 ->]. cbn. apply IH.
Qed.

(** Filling the window touches neither [base] nor the congestion variables
    nor the delays, and keeps every recorded send time. *)
Lemma fill_window_frame (s s' : sender) :
  fill_window transfers time s = Some s' ->
  base s' = base s
  /\ congestion s' = congestion s
  /\ packet_delays s' = packet_delays s
  /\ (next_seq_num s <= next_seq_num s')%nat
  /\ (exists out, sent s' = sent s ++ out)
  /\ (forall o t, packet_start_times s !! o = Some t ->
                  packet_start_times s' !! o = Some t).
Proof.
  unfold fill_window. destruct (int_of_float (cwnd s)) as [w|]; [|discriminate].
  cbn. apply fill_loop_frame.
Qed.

Lemma fill_window_some (s : sender) (w : Z) :
  encodable transfers ->
  int_of_float (cwnd s) = Some w ->
  exists s', fill_window transfers time s = Some s'.
Proof.
  intros Henc Hw. unfold fill_window. rewrite Hw. cbn. now apply fill_loop_some.
Qed.

Lemma slide_frame (s : sender) (acked_seq : Z) :
  let s' := slide time s acked_seq in
  congestion s' = congestion s
  /\ sent s' = sent s
  /\ packet_start_times s' = packet_start_times s
  /\ next_seq_num s' = next_seq_num s
  /\ base s' = S (base s)
  /\ (exists more, packet_delays s' = packet_delays s ++ more
                   /\ (length more <= 1)%nat).
Proof.
  unfold slide. destruct (packet_start_times s !! acked_seq) as [t0|]; cbn.
  - repeat split. eexists. split; [reflexivity|simpl; lia].
  - repeat split. exists []. rewrite app_nil_r. split; [reflexivity|simpl; lia].
Qed.

(** Sliding [base] touches neither the congestion variables nor the trace nor
    the send times; it adds at most one delay per segment passed. *)
Lemma advance_base_frame (fuel : nat) (ack_id : Z) :
  forall s,
    let s' := advance_base transfers time fuel ack_id s in
    congestion s' = congestion s
    /\ sent s' = sent s
    /\ packet_start_times s' = packet_start_times s
    /\ next_seq_num s' = next_seq_num s
    /\ (base s <= base s')%nat
    /\ (base s <= length transfers -> base s' <= length transfers)%nat
    /\ (exists more, packet_delays s' = packet_delays s ++ more
                     /\ (length more <= base s' - base s)%nat).
Proof.
  assert (Hstay : forall s : sender,
            congestion s = congestion s /\ sent s = sent s
            /\ packet_start_times s = packet_start_times s
            /\ next_seq_num s = next_seq_num s
            /\ (base s <= base s)%nat
            /\ (base s <= length transfers -> base s <= length transfers)%nat
            /\ (exists more, packet_delays s = packet_delays s ++ more
                             /\ (length more <= base s - base s)%nat)).
  { intros s. repeat split; try lia. exists []. rewrite app_nil_r.
    split; [reflexivity|simpl; lia]. }
  induction fuel as [|fuel IH]; intros s; cbn [advance_base]; [apply Hstay|].
  destruct (transfers !! base s) as [[acked_seq payload]|] eqn:Hb; [|apply Hstay].
  destruct (acked_seq <? ack_id); [|apply Hstay].
  assert (Hlt : (base s < length transfers)%nat) by (eapply lookup_lt_Some; exact Hb).
  specialize (IH (slide time s acked_seq)). cbv zeta in IH.
  destruct IH as (Hc & Hs & Hp & Hn & Hle & Hlen & more & Hd & Hm).
  destruct (slide_frame s acked_seq) as (Hc1 & Hs1 & Hp1 & Hn1 & Hb1 & one & Hd1 & Hm1).
  cbv zeta. repeat split; try congruence; try lia.
  exists (one ++ more). rewrite Hd, Hd1, <- app_assoc. split; [reflexivity|].
  rewrite length_app. lia.
Qed.

(** No slide happens when the segment at [base] is not below the offset. *)
Lemma advance_base_stay (fuel : nat) (ack_id : Z) (s : sender) (o : Z) (p : list byte) :
  transfers !! base s = Some (o, p) -> ack_id <= o ->
  advance_base transfers time fuel ack_id s = s.
Proof.
  intros Hb Hle. destruct fuel; cbn [advance_base]; [reflexivity|].
  rewrite Hb. destruct (o <? ack_id) eqn:E; [apply Z.ltb_lt in E; lia|reflexivity].
Qed.

Lemma congestion_eq (s s' : sender) :
  congestion s' = congestion s ->
  cwnd s' = cwnd s /\ ssthresh s' = ssthresh s /\ dup_acks s' = dup_acks s
  /\ prev_ack_id s' = prev_ack_id s /\ in_fast_recovery s' = in_fast_recovery s.
Proof. unfold congestion. intros [= -> -> -> -> ->]. repeat split. Qed.

(** An acknowledgment at the recorded offset, with [base] already past it,
    goes to the duplicate branch without sliding. *)
Lemma on_ack_duplicate (s : sender) (a o : Z) (p : list byte) :
  transfers !! base s = Some (o, p) -> a <= o -> prev_ack_id s = Some a ->
  on_ack transfers time s a = dup_ack transfers time s.
Proof.
  intros Hb Hle Hprev. unfold on_ack. rewrite Hb. cbn.
  destruct (o <? a) eqn:E; [apply Z.ltb_lt in E; lia|].
  rewrite Hprev, Z.ltb_irrefl, Z.eqb_refl. reflexivity.
Qed.

(** C10.  With a recorded offset [prev], an acknowledgment that is not a fin
    and whose offset is below [prev] changes no congestion variable and sends
    nothing: the iteration ends with the congestion variables it started with
    and with the trace as the window filling left it. *)
Theorem stale_ack_noop (s f : sender) (ack_pkt : list byte) (ack_id prev : Z)
    (msg : list Z) :
  fill_window transfers time s = Some f ->
  parse_ack ack_pkt = Some (ack_id, msg) ->
  startswith msg FIN = false ->
  prev_ack_id s = Some prev ->
  ack_id < prev ->
  (base s < length transfers)%nat ->
  exists s',
    iteration transfers alg time s (Recv ack_pkt) = Some (Running s')
    /\ on_ack transfers time f ack_id = Some s'
    /\ congestion s' = congestion s
    /\ sent s' = sent f.
Proof.
  intros Hfill Hparse Hfin Hprev Hlt Hbase.
  destruct (fill_window_frame s f Hfill) as (Hb & Hc & _).
  destruct (congestion_eq _ _ Hc) as (_ & _ & _ & Hp & _).
  assert (Hlt' : (base f < length transfers)%nat) by lia.
  destruct (lookup_lt_is_Some_2 transfers _ Hlt') as [[o p] Ho].
  set (s1 := if o <? ack_id
             then advance_base transfers time (length transfers) ack_id f else f).
  assert (Hs1 : congestion s1 = congestion f /\ sent s1 = sent f).
  { subst s1. destruct (o <? ack_id); [|split; reflexivity].
    destruct (advance_base_frame (length transfers) ack_id f) as (H1 & H2 & _).
    split; assumption. }
  destruct Hs1 as [Hc1 Hsent1].
  destruct (congestion_eq _ _ Hc1) as (_ & _ & _ & Hp1 & _).
  assert (Hack : on_ack transfers time f ack_id = Some s1).
  { unfold on_ack. rewrite Ho. cbn. fold s1. rewrite Hp1, Hp, Hprev.
    destruct (prev <? ack_id) eqn:E1; [apply Z.ltb_lt in E1; lia|].
    destruct (ack_id =? prev) eqn:E2; [apply Z.eqb_eq in E2; lia|]. reflexivity. }
  exists s1. repeat split.
  - unfold iteration. rewrite Hfill. cbn -[startswith FIN].
    rewrite Hparse. cbn -[startswith FIN]. rewrite Hfin, Hack. reflexivity.
  - exact Hack.
  - congruence.
  - exact Hsent1.
Qed.

End LoopProperties.

(** ** Binary64 facts *)

Lemma Prim2SF_one : Prim2SF 1 = SF_one.
Proof. reflexivity. Qed.

Lemma digits2_pos_bounds (m : positive) :
  2 ^ (Zpos (digits2_pos m) - 1) <= Zpos m < 2 ^ Zpos (digits2_pos m).
Proof.
  induction m as [m IH|m IH|]; cbn [digits2_pos].
  - rewrite Pos2Z.inj_succ, (Pos2Z.inj_xI m).
    replace (Z.succ (Zpos (digits2_pos m)) - 1) with (Z.succ (Zpos (digits2_pos m) - 1)) by lia.
    rewrite !Z.pow_succ_r by lia. lia.
  - rewrite Pos2Z.inj_succ, (Pos2Z.inj_xO m).
    replace (Z.succ (Zpos (digits2_pos m)) - 1) with (Z.succ (Zpos (digits2_pos m) - 1)) by lia.
    rewrite !Z.pow_succ_r by lia. lia.
  - cbn. lia.
Qed.

Lemma shr_1_half (r : shr_record) :
  0 <= shr_m r -> shr_m (shr_1 r) = shr_m r / 2.
Proof.
  destruct r as [m rb sb]. cbn [shr_m]. intros Hm.
  destruct m as [|[p|p|]|]; cbn [shr_1 shr_m]; [reflexivity| | |reflexivity|lia].
  - apply Z.div_unique with 1; lia.
  - apply Z.div_unique with 0; lia.
Qed.

Lemma pow2_xO (n : positive) : 2 ^ Zpos n~0 = 2 ^ Zpos n * 2 ^ Zpos n.
Proof.
  rewrite (Pos2Z.inj_xO n). replace (2 * Zpos n) with (Zpos n + Zpos n) by lia.
  apply Z.pow_add_r; lia.
Qed.

Lemma pow2_xI (n : positive) : 2 ^ Zpos n~1 = 2 * (2 ^ Zpos n * 2 ^ Zpos n).
Proof.
  rewrite (Pos2Z.inj_xI n). replace (2 * Zpos n + 1) with (Z.succ (Zpos n + Zpos n)) by lia.
  rewrite Z.pow_succ_r, Z.pow_add_r by lia. reflexivity.
Qed.

Lemma iter_shr_1 (n : positive) :
  forall r, 0 <= shr_m r ->
            shr_m (SpecFloat.iter_pos shr_1 n r) = shr_m r / 2 ^ Zpos n.
Proof.
  assert (Hpow : forall k, 0 < 2 ^ Zpos k) by (intros k; apply Z.pow_pos_nonneg; lia).
  induction n as [n IH|n IH|]; intros r Hr; cbn [SpecFloat.iter_pos].
  - pose proof (Hpow n) as Hn.
    assert (H1 : 0 <= shr_m (shr_1 r)) by (rewrite shr_1_half by lia; apply Z.div_pos; lia).
    assert (H2 : 0 <= shr_m (SpecFloat.iter_pos shr_1 n (shr_1 r)))
      by (rewrite IH by lia; apply Z.div_pos; lia).
    rewrite IH, IH, shr_1_half by lia.
    rewrite !Z.div_div by lia. now rewrite pow2_xI.
  - pose proof (Hpow n) as Hn.
    assert (H2 : 0 <= shr_m (SpecFloat.iter_pos shr_1 n r))
      by (rewrite IH by lia; apply Z.div_pos; lia).
    rewrite IH, IH by lia.
    rewrite !Z.div_div by lia. now rewrite pow2_xO.
  - rewrite shr_1_half by lia. reflexivity.
Qed.

Lemma shr_m_of_loc (m : Z) (l : location) : shr_m (shr_record_of_loc m l) = m.
Proof. destruct l as [|[]]; reflexivity. Qed.

(** The right shift that brings a mantissa to its canonical exponent. *)
Lemma shr_fexp_spec (m e : Z) (l : location) :
  0 <= m ->
  let n := fexp prec emax (Zdigits2 m + e) - e in
  shr_m (fst (shr_fexp prec emax m e l)) = (if 0 <? n then m / 2 ^ n else m)
  /\ snd (shr_fexp prec emax m e l) = (if 0 <? n then e + n else e).
Proof.
  intros Hm n. unfold shr_fexp, shr. fold n.
  destruct n as [|p|p] eqn:E; cbn [fst snd Z.ltb Z.compare].
  - split; [apply shr_m_of_loc|reflexivity].
  - split; [|reflexivity].
    rewrite iter_shr_1 by (rewrite shr_m_of_loc; exact Hm).
    now rewrite shr_m_of_loc.
  - split; [apply shr_m_of_loc|reflexivity].
Qed.

Lemma round_nearest_even_bounds (m : Z) (l : location) :
  m <= round_nearest_even m l <= m + 1.
Proof.
  destruct l as [|[]]; cbn [round_nearest_even]; try lia.
  destruct (Z.even m); lia.
Qed.

Lemma fexp_normal (x : Z) : -1021 <= x -> fexp prec emax x = x - 53.
Proof. intros Hx. unfold fexp, SpecFloat.emin, prec, emax. lia. Qed.

Lemma pow2_lt_exponent (a b : Z) : 0 <= b -> 2 ^ a < 2 ^ b -> a < b.
Proof. intros Hb H. apply (Z.pow_lt_mono_r_iff 2); lia. Qed.

(** Dropping the low bits of a mantissa down to 53 keeps it at least 2^52. *)
Lemma shift_to_53 (m : positive) :
  53 < Zpos (digits2_pos m) ->
  2 ^ 52 <= Zpos m / 2 ^ (Zpos (digits2_pos m) - 53).
Proof.
  intros Hd. pose proof (digits2_pos_bounds m) as [Hlo _].
  assert (E : 2 ^ (Zpos (digits2_pos m) - 53) * 2 ^ 52 = 2 ^ (Zpos (digits2_pos m) - 1)).
  { rewrite <- Z.pow_add_r by lia.
    replace (Zpos (digits2_pos m) - 53 + 52) with (Zpos (digits2_pos m) - 1) by lia.
    reflexivity. }
  apply Z.div_le_lower_bound; [apply Z.pow_pos_nonneg; lia|].
  rewrite E. exact Hlo.
Qed.

Lemma compare_cont_Eq (p q : positive) : Pos.compare_cont Eq p q = (p ?= q)%positive.
Proof. reflexivity. Qed.

Lemma SFleb_one_finite (m : positive) (e : Z) :
  at_least_one (Zpos m) e -> SFleb SF_one (S754_finite false m e) = true.
Proof.
  intros (_ & He & Hm). unfold SFleb, SF_one, SFcompare.
  destruct (Z.compare_spec (-52) e) as [Heq|Hlt|Hgt]; [|reflexivity|lia].
  specialize (Hm (eq_sym Heq)).
  rewrite compare_cont_Eq.
  destruct (Pos.compare_spec 4503599627370496 m) as [H|H|H]; try reflexivity.
  change (2 ^ 52) with 4503599627370496 in Hm.
  exfalso. apply (Z.lt_irrefl (Zpos m)).
  eapply Z.lt_le_trans; [apply Pos2Z.pos_lt_pos; exact H|exact Hm].
Qed.

(** One canonical right shift keeps a mantissa that is at least one so. *)
Lemma shr_fexp_at_least_one (m : positive) (e : Z) (l : location) :
  at_least_one (Zpos m) e \/ (53 < Zpos (digits2_pos m) /\ -52 <= Zpos (digits2_pos m) + e - 53) ->
  at_least_one (shr_m (fst (shr_fexp prec emax (Zpos m) e l)))
               (snd (shr_fexp prec emax (Zpos m) e l)).
Proof.
  intros H.
  destruct (shr_fexp_spec (Zpos m) e l) as [Hm He]; [lia|].
  rewrite Hm, He. clear Hm He. cbn [Zdigits2].
  set (d := Zpos (digits2_pos m)) in *.
  pose proof (digits2_pos_bounds m) as [Hlo Hhi]. fold d in Hlo, Hhi.
  assert (Hde : -52 <= d + e - 53 \/ d <= 53).
  { destruct H as [(_ & He & _)|[_ H]]; lia. }
  destruct (Z_le_gt_dec d 53) as [Hsmall|Hbig].
  - (* no more than 53 digits: nothing is shifted out *)
    destruct H as [H|[H _]]; [|lia].
    destruct H as (Hpos & He & Hm).
    assert (Hn : fexp prec emax (d + e) - e <= 0).
    { unfold fexp, SpecFloat.emin, prec, emax. lia. }
    destruct (0 <? fexp prec emax (d + e) - e) eqn:E; [apply Z.ltb_lt in E; lia|].
    repeat split; assumption.
  - rewrite fexp_normal by (destruct H as [(_ & He & _)|[_ H]]; lia).
    replace (d + e - 53 - e) with (d - 53) by lia.
    destruct (0 <? d - 53) eqn:E; [|apply Z.ltb_ge in E; lia].
    pose proof (shift_to_53 m) as Hs. fold d in Hs. specialize (Hs ltac:(lia)).
    assert (0 < 2 ^ 52) by reflexivity.
    repeat split; lia.
Qed.

(** Rounding a mantissa and exponent that stand for at least one gives a
    float that is at least 1.0. *)
Lemma binary_round_aux_ge_one (m : positive) (e : Z) (l : location) :
  at_least_one (Zpos m) e \/ (53 < Zpos (digits2_pos m) /\ -52 <= Zpos (digits2_pos m) + e - 53) ->
  SFleb SF_one (binary_round_aux prec emax false (Zpos m) e l) = true.
Proof.
  intros H. unfold binary_round_aux.
  pose proof (shr_fexp_at_least_one m e l H) as H1.
  destruct (shr_fexp prec emax (Zpos m) e l) as [r1 e1]. cbn [fst snd] in H1.
  set (m2 := round_nearest_even (shr_m r1) (loc_of_shr_record r1)).
  assert (H2 : at_least_one m2 e1).
  { pose proof (round_nearest_even_bounds (shr_m r1) (loc_of_shr_record r1)).
    destruct H1 as (Hpos & He & Hm). repeat split; lia. }
  destruct m2 as [|p2|p2] eqn:Em2; [destruct H2; lia| |destruct H2; lia].
  pose proof (shr_fexp_at_least_one p2 e1 loc_Exact (or_introl H2)) as H3.
  destruct (shr_fexp prec emax (Zpos p2) e1 loc_Exact) as [r3 e3]. cbn [fst snd] in H3.
  destruct (shr_m r3) as [|p3|p3] eqn:Em3; [destruct H3; lia| |destruct H3; lia].
  destruct (e3 <=? emax - prec); [|reflexivity].
  now apply SFleb_one_finite.
Qed.

Lemma value_at_least_one (m : positive) (e : Z) :
  (e < 0 -> 2 ^ (- e) <= Zpos m) ->
  at_least_one (Zpos m) e
  \/ (53 < Zpos (digits2_pos m) /\ -52 <= Zpos (digits2_pos m) + e - 53).
Proof.
  intros H. pose proof (digits2_pos_bounds m) as [Hlo Hhi].
  set (d := Zpos (digits2_pos m)) in *.
  assert (Hd : 1 <= d) by (subst d; lia).
  assert (Hde : 1 <= d + e).
  { destruct (Z_lt_le_dec e 0) as [Hneg|Hpos]; [|lia].
    specialize (H Hneg).
    assert (- e < d) by (apply pow2_lt_exponent; lia). lia. }
  destruct (Z_le_gt_dec d 53) as [Hsmall|Hbig]; [left|right; lia].
  repeat split; try lia.
  intros E. assert (d = 53) by lia.
  replace (d - 1) with 52 in Hlo by lia. exact Hlo.
Qed.

Lemma binary_round_aux_nonneg (m e : Z) (l : location) :
  0 <= m -> nonneg_sf (binary_round_aux prec emax false m e l).
Proof.
  intros Hm. unfold binary_round_aux.
  assert (Hshift : forall m e l, 0 <= m ->
            0 <= shr_m (fst (shr_fexp prec emax m e l))).
  { intros m' e' l' Hm'. destruct (shr_fexp_spec m' e' l' Hm') as [-> _].
    destruct (0 <? _) eqn:E; [|exact Hm'].
    apply Z.ltb_lt in E. apply Z.div_pos; [lia|apply Z.pow_pos_nonneg; lia]. }
  pose proof (Hshift m e l Hm) as H1.
  destruct (shr_fexp prec emax m e l) as [r1 e1]. cbn [fst] in H1.
  pose proof (round_nearest_even_bounds (shr_m r1) (loc_of_shr_record r1)) as Hr.
  pose proof (Hshift (round_nearest_even (shr_m r1) (loc_of_shr_record r1)) e1
                loc_Exact ltac:(lia)) as H3.
  destruct (shr_fexp prec emax _ e1 loc_Exact) as [r3 e3]. cbn [fst] in H3.
  destruct (shr_m r3); [exact I| |lia].
  destruct (e3 <=? emax - prec); exact I.
Qed.

Lemma iter_xO (m d : positive) : Zpos (Pos.iter xO m d) = Zpos m * 2 ^ Zpos d.
Proof.
  induction d as [|d IH] using Pos.peano_ind.
  - cbn [Pos.iter]. rewrite (Pos2Z.inj_xO m). change (2 ^ 1) with 2. lia.
  - rewrite Pos.iter_succ, (Pos2Z.inj_xO (Pos.iter xO m d)), IH.
    rewrite Pos2Z.inj_succ, Z.pow_succ_r by lia. lia.
Qed.

(** Aligning to a lower exponent keeps the value. *)
Lemma shl_align_spec (m : positive) (e e' : Z) :
  let r := shl_align m e e' in
  snd r <= e
  /\ (e' <= e -> snd r = e')
  /\ Zpos (fst r) = Zpos m * 2 ^ (e - snd r).
Proof.
  unfold shl_align. destruct (e' - e) as [|d|d] eqn:E; cbn [fst snd].
  - rewrite Z.sub_diag. change (2 ^ 0) with 1. lia.
  - rewrite Z.sub_diag. change (2 ^ 0) with 1. lia.
  - rewrite iter_xO. replace (e - e') with (Zpos d) by lia. lia.
Qed.

Lemma pow2_le_exponent (a b : Z) : 0 <= a <= b -> 2 ^ a <= 2 ^ b.
Proof. intros H. apply Z.pow_le_mono_r; lia. Qed.

Lemma binary_round_ge_one (m : positive) (e : Z) :
  (e < 0 -> 2 ^ (- e) <= Zpos m) ->
  SFleb SF_one (binary_round prec emax false m e) = true.
Proof.
  intros H. unfold binary_round.
  destruct (shl_align_spec m e (fexp prec emax (Zpos (digits2_pos m) + e)))
    as (Hle & _ & Hval).
  destruct (shl_align m e _) as [mz ez]. cbn [fst snd] in Hle, Hval.
  apply binary_round_aux_ge_one, value_at_least_one.
  intros Hez. rewrite Hval.
  assert (Hp : 0 < 2 ^ (e - ez)) by (apply Z.pow_pos_nonneg; lia).
  destruct (Z_lt_le_dec e 0) as [Hneg|Hpos].
  - specialize (H Hneg).
    replace (- ez) with (- e + (e - ez)) by lia.
    rewrite Z.pow_add_r by lia. nia.
  - assert (2 ^ (- ez) <= 2 ^ (e - ez)) by (apply pow2_le_exponent; lia).
    nia.
Qed.

Lemma binary_round_nonneg (m : positive) (e : Z) :
  nonneg_sf (binary_round prec emax false m e).
Proof.
  unfold binary_round. destruct (shl_align m e _) as [mz ez].
  apply binary_round_aux_nonneg. lia.
Qed.

(** ** Sums that stay at least 1.0 *)

Lemma ge_one_sf_leb (x : spec_float) : ge_one_sf x -> SFleb SF_one x = true.
Proof.
  destruct x as [s|[]| |[] m e]; cbn [ge_one_sf]; try contradiction; [reflexivity|].
  intros [He Hm]. apply SFleb_one_finite. repeat split; lia.
Qed.

Lemma leb_ge_one_sf (x : spec_float) :
  valid_binary x = true -> SFleb SF_one x = true -> ge_one_sf x.
Proof.
  destruct x as [s|[]| |[] m e]; cbn [ge_one_sf valid_binary]; try discriminate; [trivial|].
  unfold SpecFloat.bounded, canonical_mantissa, SFleb, SF_one, SFcompare.
  intros Hvalid Hleb. apply andb_true_iff in Hvalid as [Hcanon _].
  apply Z.eqb_eq in Hcanon.
  destruct (Z.compare_spec (-52) e) as [Heq|Hlt|Hgt]; [| |discriminate].
  - split; [lia|]. subst e.
    rewrite compare_cont_Eq in Hleb.
    change (2 ^ 52) with (Zpos 4503599627370496).
    destruct (Pos.compare_spec 4503599627370496 m) as [H|H|H]; try discriminate.
    + subst m. apply Z.le_refl.
    + apply Z.lt_le_incl, Pos2Z.pos_lt_pos, H.
  - split; [lia|].
    assert (Hd : Zpos (digits2_pos m) = 53).
    { unfold fexp, SpecFloat.emin, prec, emax in Hcanon. lia. }
    pose proof (digits2_pos_bounds m) as [Hlo _]. rewrite Hd in Hlo. exact Hlo.
Qed.

(** The aligned mantissa of a float that is at least one is large enough
    for the sum to be at least one too. *)
Lemma aligned_ge_one (m : positive) (e ez : Z) (other : positive) :
  -52 <= e -> 2 ^ 52 <= Zpos m -> ez <= e ->
  ez < 0 -> 2 ^ (- ez) <= Zpos m * 2 ^ (e - ez) + Zpos other.
Proof.
  intros He Hm Hez Hneg.
  assert (Hp : 0 < 2 ^ (e - ez)) by (apply Z.pow_pos_nonneg; lia).
  assert (H1 : 2 ^ (- ez) <= 2 ^ (52 + (e - ez))) by (apply pow2_le_exponent; lia).
  rewrite Z.pow_add_r in H1 by lia. nia.
Qed.

Lemma SFadd_finite (mx my : positive) (ex ey : Z) :
  SFadd prec emax (S754_finite false mx ex) (S754_finite false my ey)
  = binary_round prec emax false
      (fst (shl_align mx ex (Z.min ex ey)) + fst (shl_align my ey (Z.min ex ey)))
      (Z.min ex ey).
Proof. reflexivity. Qed.

Lemma SFadd_ge_one_l (x y : spec_float) :
  ge_one_sf x -> nonneg_sf y -> SFleb SF_one (SFadd prec emax x y) = true.
Proof.
  intros Hx Hy.
  destruct x as [sx|[]| |[] mx ex]; cbn [ge_one_sf] in Hx; try contradiction.
  - destruct y as [sy|[]| |[] my ey]; cbn [nonneg_sf] in Hy; try contradiction;
      reflexivity.
  - destruct Hx as [He Hm].
    destruct y as [sy|[]| |[] my ey]; cbn [nonneg_sf] in Hy; try contradiction.
    + cbn [SFadd]. apply SFleb_one_finite. repeat split; lia.
    + reflexivity.
    + rewrite SFadd_finite. apply binary_round_ge_one. intros Hneg.
      destruct (shl_align_spec mx ex (Z.min ex ey)) as (_ & Hs & Hv).
      rewrite Pos2Z.inj_add, Hv, Hs by lia.
      apply aligned_ge_one; lia.
Qed.

Lemma SFadd_ge_one_r (x y : spec_float) :
  nonneg_sf x -> ge_one_sf y -> SFleb SF_one (SFadd prec emax x y) = true.
Proof.
  intros Hx Hy.
  destruct y as [sy|[]| |[] my ey]; cbn [ge_one_sf] in Hy; try contradiction.
  - destruct x as [sx|[]| |[] mx ex]; cbn [nonneg_sf] in Hx; try contradiction;
      reflexivity.
  - destruct Hy as [He Hm].
    destruct x as [sx|[]| |[] mx ex]; cbn [nonneg_sf] in Hx; try contradiction.
    + cbn [SFadd]. apply SFleb_one_finite. repeat split; lia.
    + reflexivity.
    + rewrite SFadd_finite. apply binary_round_ge_one. intros Hneg.
      destruct (shl_align_spec my ey (Z.min ex ey)) as (_ & Hs & Hv).
      rewrite Pos2Z.inj_add, Hv, Hs, Z.add_comm by lia.
      apply aligned_ge_one; lia.
Qed.

(** ** The same on primitive floats *)

Lemma one_le_ge_one_sf (x : float) : (1 <=? x)%float = true -> ge_one_sf (Prim2SF x).
Proof.
  rewrite FloatAxioms.leb_spec, Prim2SF_one. apply leb_ge_one_sf, Prim2SF_valid.
Qed.

Lemma one_le_nonneg (x : float) : (1 <=? x)%float = true -> nonneg x.
Proof.
  intros H. apply one_le_ge_one_sf in H. unfold nonneg.
  destruct (Prim2SF x) as [s|[]| |[] m e]; cbn in *; tauto.
Qed.

Lemma add_ge_one_l (x y : float) :
  (1 <=? x)%float = true -> nonneg y -> (1 <=? x + y)%float = true.
Proof.
  intros Hx Hy. rewrite FloatAxioms.leb_spec, FloatAxioms.add_spec, Prim2SF_one.
  apply SFadd_ge_one_l; [now apply one_le_ge_one_sf|exact Hy].
Qed.

Lemma add_ge_one_r (x y : float) :
  nonneg x -> (1 <=? y)%float = true -> (1 <=? x + y)%float = true.
Proof.
  intros Hx Hy. rewrite FloatAxioms.leb_spec, FloatAxioms.add_spec, Prim2SF_one.
  apply SFadd_ge_one_r; [exact Hx|now apply one_le_ge_one_sf].
Qed.

Lemma ge_one_not_below (x : float) : (1 <=? x)%float = true -> (x <? 1)%float = false.
Proof.
  intros H. apply one_le_ge_one_sf in H.
  rewrite FloatAxioms.ltb_spec, Prim2SF_one.
  destruct (Prim2SF x) as [s|[]| |[] m e]; cbn [ge_one_sf] in H; try contradiction;
    [reflexivity|].
  destruct H as [He Hm]. unfold SFltb, SF_one, SFcompare.
  destruct (Z.compare_spec e (-52)) as [Heq|Hlt|Hgt]; [|lia|reflexivity].
  rewrite compare_cont_Eq.
  destruct (Pos.compare_spec m 4503599627370496) as [H|H|H]; try reflexivity.
  exfalso. apply (Z.lt_irrefl (Zpos m)).
  eapply Z.lt_le_trans; [apply Pos2Z.pos_lt_pos; exact H|exact Hm].
Qed.

(** A non-negative float clamped from below by 1.0 is at least 1.0. *)
Lemma py_max_ge_one (g : float) : nonneg g -> (1 <=? py_max g 1)%float = true.
Proof.
  unfold nonneg, py_max. intros Hg.
  destruct (g <? 1)%float eqn:E; [reflexivity|].
  rewrite FloatAxioms.ltb_spec, Prim2SF_one in E.
  rewrite FloatAxioms.leb_spec, Prim2SF_one.
  destruct (Prim2SF g) as [s|[]| |[] m e]; cbn [nonneg_sf] in Hg; try contradiction;
    try discriminate; [reflexivity|].
  unfold SFltb, SFleb, SF_one, SFcompare in *.
  rewrite (Z.compare_antisym e (-52)).
  destruct (e ?= -52); cbn [CompOpp] in *; try discriminate; [|reflexivity].
  rewrite compare_cont_Eq.
  rewrite compare_cont_Eq in E.
  rewrite (Pos.compare_antisym m 4503599627370496).
  destruct (m ?= 4503599627370496)%positive; cbn [CompOpp]; try discriminate; reflexivity.
Qed.

Lemma py_max_of_ge_one (g : float) : (1 <=? g)%float = true -> py_max g 1 = g.
Proof. intros H. unfold py_max. now rewrite (ge_one_not_below g H). Qed.

(** The reciprocal of a float that is at least 1.0 is defined and not below
    zero. *)
Lemma reciprocal_nonneg (c : float) :
  (1 <=? c)%float = true -> py_div 1 c = Some (1 / c)%float /\ nonneg (1 / c).
Proof.
  intros H. apply one_le_ge_one_sf in H. unfold py_div, nonneg.
  rewrite FloatAxioms.eqb_spec, FloatAxioms.div_spec, Prim2SF_one.
  change (Prim2SF 0) with (S754_zero false).
  destruct (Prim2SF c) as [s|[]| |[] m e]; cbn [ge_one_sf] in H; try contradiction.
  - split; [reflexivity|exact I].
  - split; [reflexivity|].
    unfold SF64div, SFdiv, SF_one, SFdiv_core_binary. cbn [xorb].
    set (m' := match _ with Zpos _ => _ | Z0 => _ | Zneg _ => _ end).
    assert (Hm' : 0 <= m').
    { subst m'. destruct (_ - _); [lia| |lia]. apply Z.shiftl_nonneg. lia. }
    pose proof (Z_div_mod m' (Zpos m) ltac:(lia)) as Hdiv.
    destruct (Z.div_eucl m' (Zpos m)) as [q r].
    apply binary_round_aux_nonneg. nia.
Qed.

Lemma binary_normalize_nonneg (v : Z) :
  0 <= v -> nonneg_sf (binary_normalize prec emax v 0 false).
Proof.
  destruct v as [|p|p]; cbn [binary_normalize]; [intros _; exact I| |lia].
  intros _. apply binary_round_nonneg.
Qed.

Lemma of_uint63_nonneg (k : int) : nonneg (PrimFloat.of_uint63 k).
Proof.
  unfold nonneg. rewrite of_uint63_spec.
  apply binary_normalize_nonneg. apply Uint63.to_Z_bounded.
Qed.

(** [float(n)] of a natural number is not below zero. *)
Lemma float_of_int_nonneg (n : Z) (f : float) :
  0 <= n -> float_of_int n = Some f -> nonneg f.
Proof.
  intros Hn. unfold float_of_int.
  destruct ((0 <=? n) && (n <? 2 ^ 63)) eqn:E1.
  { intros [= <-]. apply of_uint63_nonneg. }
  destruct ((- 2 ^ 63 <? n) && (n <? 0)) eqn:E2.
  { apply andb_true_iff in E2 as [_ E2]. apply Z.ltb_lt in E2. lia. }
  destruct (PrimFloat.is_infinity _); [discriminate|].
  intros [= <-]. unfold nonneg.
  pose proof (binary_normalize_nonneg n Hn) as Hr.
  destruct (binary_normalize prec emax n 0 false) as [s|[]| |[] m e];
    cbn [nonneg_sf] in Hr; try contradiction.
  - destruct s; exact I.
  - exact I.
  - cbn [SF2Prim]. rewrite Z_ldexp_spec.
    pose proof (of_uint63_nonneg (Uint63.of_Z (Zpos m))) as Hk. unfold nonneg in Hk.
    destruct (Prim2SF (PrimFloat.of_uint63 (Uint63.of_Z (Zpos m)))) as [s'|[]| |[] m' e'];
      cbn [nonneg_sf] in Hk; try contradiction; cbn [SFldexp]; try exact I.
    apply binary_round_nonneg.
Qed.

(** ** Finite floats and their integer parts *)

Lemma is_finite_cases (x : float) :
  PrimFloat.is_finite x = true ->
  match Prim2SF x with
  | S754_zero _ | S754_finite _ _ _ => True
  | _ => False
  end.
Proof.
  unfold PrimFloat.is_finite, PrimFloat.is_nan, PrimFloat.is_infinity.
  rewrite !FloatAxioms.eqb_spec, FloatAxioms.abs_spec.
  change (Prim2SF infinity) with (S754_infinity false).
  destruct (Prim2SF x) as [s|s| |s m e]; cbn; try discriminate; trivial.
  destruct s; discriminate.
Qed.

Lemma int_of_float_finite (x : float) :
  PrimFloat.is_finite x = true -> exists w, int_of_float x = Some w.
Proof.
  intros H. apply is_finite_cases in H. unfold int_of_float.
  destruct (Prim2SF x); try contradiction; eauto.
Qed.

(** [int(x // 2)] is the integer [h] with [2 h <= x < 2 h + 2]. *)
Lemma int_floordiv2_finite (x : float) :
  PrimFloat.is_finite x = true ->
  exists h, int_floordiv2 x = Some h
            /\ float_lt_int x (2 * h) = false
            /\ float_lt_int x (2 * h + 2) = true.
Proof.
  intros H. apply is_finite_cases in H. unfold int_floordiv2, float_lt_int.
  destruct (Prim2SF x) as [s|s| |s m e]; try contradiction.
  - exists 0. repeat split.
  - eexists. split; [reflexivity|].
    generalize (signed s m). intros v.
    destruct (0 <=? e) eqn:E.
    + generalize (v * 2 ^ e). intros a.
      pose proof (Z.div_mod a 2 ltac:(lia)). pose proof (Z.mod_pos_bound a 2 ltac:(lia)).
      split; [apply Z.ltb_ge|apply Z.ltb_lt]; lia.
    + apply Z.leb_gt in E.
      assert (Hp : 0 < 2 ^ (- e)) by (apply Z.pow_pos_nonneg; lia).
      assert (Hd : 2 ^ (1 - e) = 2 * 2 ^ (- e)).
      { replace (1 - e) with (Z.succ (- e)) by lia. apply Z.pow_succ_r. lia. }
      rewrite Hd. generalize dependent (2 ^ (- e)). intros p _ Hp.
      pose proof (Z.div_mod v (2 * p) ltac:(lia)).
      pose proof (Z.mod_pos_bound v (2 * p) ltac:(lia)).
      split; [apply Z.ltb_ge|apply Z.ltb_lt]; nia.
Qed.

Lemma congestion_ok_frame (s s' : sender) :
  congestion s' = congestion s -> congestion_ok s -> congestion_ok s'.
Proof.
  intros H. apply congestion_eq in H as (Hc & Hs & _).
  unfold congestion_ok. now rewrite Hc, Hs.
Qed.

(** ** The congestion invariant *)

Section Invariant.

Variable transfers : list (Z * list byte).
Variable alg : summation.
Variable time : nat -> float.
Context {h : host}.

(** A retransmission changes the trace, the send time of the segment at
    [base] and the clock, nothing else. *)
Lemma retransmit_base_frame (s s' : sender) :
  retransmit_base transfers time s = Some s' ->
  exists seq_id payload pkt,
    transfers !! base s = Some (seq_id, payload)
    /\ make_packet seq_id payload = Some pkt
    /\ sent s' = sent s ++ [pkt]
    /\ packet_start_times s' = <[seq_id := time (clock s)]> (packet_start_times s)
    /\ congestion s' = congestion s
    /\ base s' = base s
    /\ next_seq_num s' = next_seq_num s
    /\ packet_delays s' = packet_delays s.
Proof.
  unfold retransmit_base.
  destruct (transfers !! base s) as [[seq_id payload]|]; [|discriminate].
  cbn. destruct (make_packet seq_id payload) as [pkt|] eqn:Hm; [|discriminate].
  cbn. intros [= <-]. exists seq_id, payload, pkt. cbn. repeat split. exact Hm.
Qed.

Lemma on_timeout_ok (s s' : sender) :
  on_timeout transfers time s = Some s' -> congestion_ok s'.
Proof.
  unfold on_timeout. destruct (int_floordiv2 (cwnd s)) as [half|]; [|discriminate].
  cbn. intros H. apply retransmit_base_frame in H as (_ & _ & _ & _ & _ & _ & _ & Hc & _).
  apply congestion_eq in Hc as (Hw & Hs & _). cbn in Hw, Hs.
  unfold congestion_ok. rewrite Hw, Hs. split; [reflexivity|lia].
Qed.

Lemma new_ack_ok (s s' : sender) (ack_id : Z) :
  congestion_ok s -> new_ack s ack_id = Some s' -> congestion_ok s'.
Proof.
  intros [Hw Hs]. unfold new_ack.
  destruct (in_fast_recovery s).
  - destruct (float_of_int (ssthresh s)) as [f|] eqn:Ef; [|discriminate].
    cbn. intros [= <-]. split; cbn; [|exact Hs].
    apply py_max_ge_one. eapply float_of_int_nonneg; [|exact Ef]. lia.
  - destruct (float_lt_int (cwnd s) (ssthresh s)).
    + cbn. intros [= <-]. split; cbn; [|exact Hs].
      apply py_max_ge_one, one_le_nonneg, add_ge_one_l; [exact Hw|exact I].
    + destruct (reciprocal_nonneg (cwnd s) Hw) as [-> Hinc].
      cbn. intros [= <-]. split; cbn; [|exact Hs].
      apply py_max_ge_one, one_le_nonneg, add_ge_one_l; assumption.
Qed.

Lemma inflate_ok (s s' : sender) :
  congestion_ok s -> inflate transfers time s = Some s' -> congestion_ok s'.
Proof.
  intros [Hw Hs]. unfold inflate. cbn.
  destruct (int_of_float (cwnd s + 1)) as [w|]; [|discriminate]. cbn.
  assert (Hok : (1 <=? cwnd s + 1)%float = true) by (apply add_ge_one_l; [exact Hw|exact I]).
  destruct (_ && _).
  - intros H. apply send_next_frame in H as (_ & Hc & _).
    eapply congestion_ok_frame; [exact Hc|]. split; [exact Hok|exact Hs].
  - intros [= <-]. split; [exact Hok|exact Hs].
Qed.

Lemma fast_retransmit_ok (s s' : sender) :
  fast_retransmit transfers time s = Some s' -> congestion_ok s'.
Proof.
  unfold fast_retransmit.
  destruct (int_floordiv2 (cwnd s)) as [half|]; [|discriminate]. cbn.
  destruct (float_of_int (Z.max half 1)) as [f|] eqn:Ef; [|discriminate]. cbn.
  intros H. apply retransmit_base_frame in H as (_ & _ & _ & _ & _ & _ & _ & Hc & _).
  eapply congestion_ok_frame; [exact Hc|]. split; cbn; [|lia].
  apply add_ge_one_r; [|reflexivity].
  eapply float_of_int_nonneg; [|exact Ef]. lia.
Qed.

Lemma dup_ack_ok (s s' : sender) :
  congestion_ok s -> dup_ack transfers time s = Some s' -> congestion_ok s'.
Proof.
  intros Hok. unfold dup_ack.
  destruct (in_fast_recovery s); [now apply inflate_ok|].
  destruct (dup_acks s + 1 =? 3); [apply fast_retransmit_ok|].
  intros [= <-]. exact Hok.
Qed.

Lemma on_ack_ok (s s' : sender) (ack_id : Z) :
  congestion_ok s -> on_ack transfers time s ack_id = Some s' -> congestion_ok s'.
Proof.
  intros Hok. unfold on_ack.
  destruct (transfers !! base s) as [[o p]|]; [|discriminate]. cbn.
  set (s1 := if o <? ack_id then _ else s).
  assert (Hok1 : congestion_ok s1).
  { subst s1. destruct (o <? ack_id); [|exact Hok].
    destruct (advance_base_frame transfers time (length transfers) ack_id s) as (Hc & _).
    eapply congestion_ok_frame; [exact Hc|exact Hok]. }
  destruct (prev_ack_id s1) as [prev|].
  - destruct (prev <? ack_id); [now apply new_ack_ok|].
    destruct (ack_id =? prev); [now apply dup_ack_ok|].
    intros [= <-]. exact Hok1.
  - now apply new_ack_ok.
Qed.

Lemma iteration_ok (s : sender) (ev : event) (o : outcome) :
  congestion_ok s -> iteration transfers alg time s ev = Some o ->
  congestion_ok (state_of o).
Proof.
  intros Hok. unfold iteration.
  destruct (fill_window transfers time s) as [f|] eqn:Ef; [|discriminate]. cbn.
  destruct (fill_window_frame transfers time s f Ef) as (_ & Hc & _).
  assert (Hokf : congestion_ok f) by (eapply congestion_ok_frame; eassumption).
  destruct ev as [ack_pkt|].
  - destruct (parse_ack ack_pkt) as [[ack_id msg]|]; cbn -[startswith FIN];
      [|discriminate].
    destruct (startswith msg _).
    + unfold on_fin. destruct (make_packet ack_id FIN_ACK); [|discriminate].
      cbn -[print_metrics].
      destruct (print_metrics _ _ _ _); [|discriminate]. cbn -[verify_transfer].
      destruct (verify_transfer _ _ _); [|discriminate]. cbn.
      intros [= <-]. exact Hokf.
    + destruct (on_ack transfers time f ack_id) as [s2|] eqn:E2; [|discriminate].
      cbn. intros [= <-]. eapply on_ack_ok; eassumption.
  - destruct (on_timeout transfers time f) as [s2|] eqn:E2; [|discriminate].
    cbn. intros [= <-]. eapply on_timeout_ok; eassumption.
Qed.

Lemma run_ok (evs : list event) :
  forall s o, congestion_ok s -> run transfers alg time evs s = Some o ->
              congestion_ok (state_of o).
Proof.
  induction evs as [|ev evs IH]; intros s o Hok; cbn [run].
  - destruct (base s <? length transfers)%nat; intros [= <-]; exact Hok.
  - destruct (base s <? length transfers)%nat; [|intros [= <-]; exact Hok].
    destruct (iteration transfers alg time s ev) as [o1|] eqn:E1; [|discriminate].
    cbn. pose proof (iteration_ok s ev o1 Hok E1) as Hok1.
    destruct o1 as [s1|s1 m|s1]; [apply IH; exact Hok1|intros [= <-]; exact Hok1..].
Qed.

(** C3.  From the initial state, whatever the socket delivers, the
    congestion window is at least 1.0 and the threshold at least 1 in every
    state the loop reaches. *)
Theorem congestion_invariant (evs : list event) (o : outcome) :
  run transfers alg time evs initial = Some o ->
  (1 <=? cwnd (state_of o))%float = true /\ 1 <= ssthresh (state_of o).
Proof.
  apply run_ok. split; [reflexivity|]. cbn. lia.
Qed.

End Invariant.

(** ** Timeout and fast retransmit *)

Section Transitions.

Variable transfers : list (Z * list byte).
Variable alg : summation.
Variable time : nat -> float.
Context {h : host}.

(** C2.  For any finite congestion window, with the planned offsets
    encodable and a segment left at [base], the iteration in which the
    receive times out fills the window and then: sets [ssthresh] to
    [max(h, 1)] where [h] is the integer with [2 h <= cwnd < 2 h + 2] (10 for
    a window of 20), sets [cwnd] to 1.0, clears the duplicate count and the
    recovery flag, moves [next_seq_num] back to [base] and sends the segment
    at [base] again. *)
Theorem timeout_transition (s : sender) :
  encodable transfers ->
  (base s < length transfers)%nat ->
  PrimFloat.is_finite (cwnd s) = true ->
  exists f s' half seq_id payload pkt,
    fill_window transfers time s = Some f
    /\ on_timeout transfers time f = Some s'
    /\ iteration transfers alg time s RecvTimeout = Some (Running s')
    /\ int_floordiv2 (cwnd s) = Some half
    /\ float_lt_int (cwnd s) (2 * half) = false
    /\ float_lt_int (cwnd s) (2 * half + 2) = true
    /\ ssthresh s' = Z.max half 1
    /\ cwnd s' = 1%float
    /\ dup_acks s' = 0
    /\ in_fast_recovery s' = false
    /\ base s' = base s
    /\ next_seq_num s' = base s
    /\ transfers !! base s = Some (seq_id, payload)
    /\ make_packet seq_id payload = Some pkt
    /\ sent s' = sent f ++ [pkt]
    /\ (cwnd s = 20%float -> ssthresh s' = 10).
Proof.
  intros Henc Hbase Hfin.
  destruct (int_of_float_finite _ Hfin) as [w Hw].
  destruct (fill_window_some transfers time s w Henc Hw) as [f Hf].
  destruct (fill_window_frame transfers time s f Hf) as (Hb & Hc & _).
  apply congestion_eq in Hc as (Hcw & _).
  destruct (int_floordiv2_finite _ Hfin) as (half & Hhalf & Hlo & Hhi).
  destruct (lookup_lt_is_Some_2 transfers _ Hbase) as [[seq_id payload] Hseg].
  destruct (make_packet_encodable transfers _ _ _ Henc Hseg) as [pkt Hpkt].
  assert (Hto : on_timeout transfers time f
                = Some {| base := base f; next_seq_num := base f;
                          packet_start_times :=
                            <[seq_id := time (clock f)]> (packet_start_times f);
                          packet_delays := packet_delays f;
                          cwnd := 1; ssthresh := Z.max half 1; dup_acks := 0;
                          prev_ack_id := prev_ack_id f; in_fast_recovery := false;
                          sent := sent f ++ [pkt]; clock := S (clock f) |}).
  { unfold on_timeout, retransmit_base. rewrite Hcw, Hhalf. cbn.
    rewrite Hb, Hseg. cbn. rewrite Hpkt. reflexivity. }
  eexists f, _, half, seq_id, payload, pkt.
  split; [exact Hf|]. split; [exact Hto|].
  split; [unfold iteration; rewrite Hf; cbn; rewrite Hto; reflexivity|].
  cbn. repeat split; try assumption.
  intros H20. rewrite H20 in Hhalf. vm_compute in Hhalf.
  injection Hhalf as <-. reflexivity.
Qed.

(** A duplicate acknowledgment: the iteration fills the window and then
    takes the duplicate branch on the state the filling left. *)
Lemma duplicate_iteration (s f : sender) (ack_pkt : list byte) (a o : Z)
    (msg : list Z) (payload : list byte) :
  fill_window transfers time s = Some f ->
  parse_ack ack_pkt = Some (a, msg) ->
  startswith msg FIN = false ->
  prev_ack_id s = Some a ->
  transfers !! base s = Some (o, payload) ->
  a <= o ->
  on_ack transfers time f a = dup_ack transfers time f
  /\ iteration transfers alg time s (Recv ack_pkt)
     = s2 ← dup_ack transfers time f; Some (Running s2).
Proof.
  intros Hf Hparse Hfin Hprev Hseg Hle.
  destruct (fill_window_frame transfers time s f Hf) as (Hb & Hc & _).
  apply congestion_eq in Hc as (_ & _ & _ & Hp & _).
  assert (Hack : on_ack transfers time f a = dup_ack transfers time f).
  { apply on_ack_duplicate with o payload; congruence. }
  split; [exact Hack|].
  unfold iteration. rewrite Hf. cbn -[startswith FIN].
  rewrite Hparse. cbn -[startswith FIN]. rewrite Hfin, Hack. reflexivity.
Qed.

(** A duplicate acknowledgment short of the third, outside fast recovery,
    only counts. *)
Lemma dup_ack_counted (s : sender) :
  in_fast_recovery s = false -> dup_acks s + 1 <> 3 ->
  exists s', dup_ack transfers time s = Some s'
    /\ cwnd s' = cwnd s /\ ssthresh s' = ssthresh s
    /\ dup_acks s' = dup_acks s + 1 /\ prev_ack_id s' = prev_ack_id s
    /\ in_fast_recovery s' = false
    /\ base s' = base s
    /\ sent s' = sent s.
Proof.
  intros Hfr Hcount. unfold dup_ack. rewrite Hfr.
  destruct (dup_acks s + 1 =? 3) eqn:E; [apply Z.eqb_eq in E; contradiction|].
  eexists. split; [reflexivity|]. repeat split.
Qed.

(** The third duplicate acknowledgment outside fast recovery. *)
Lemma dup_ack_third (s : sender) (half : Z) (f : float) (o : Z)
    (payload pkt : list byte) :
  in_fast_recovery s = false -> dup_acks s + 1 = 3 ->
  int_floordiv2 (cwnd s) = Some half ->
  float_of_int (Z.max half 1) = Some f ->
  transfers !! base s = Some (o, payload) ->
  make_packet o payload = Some pkt ->
  exists s', dup_ack transfers time s = Some s'
    /\ cwnd s' = (f + 3)%float /\ ssthresh s' = Z.max half 1
    /\ dup_acks s' = 0 /\ prev_ack_id s' = prev_ack_id s
    /\ in_fast_recovery s' = true
    /\ base s' = base s
    /\ sent s' = sent s ++ [pkt]
    /\ packet_start_times s' !! o = Some (time (clock s)).
Proof.
  intros Hfr Hcount Hhalf Hf Hseg Hpkt.
  unfold dup_ack, fast_retransmit, retransmit_base. rewrite Hfr, Hcount, Hhalf.
  cbn. rewrite Hf. cbn. rewrite Hseg. cbn. rewrite Hpkt. cbn.
  eexists. split; [reflexivity|]. cbn. repeat split.
  apply lookup_insert_eq.
Qed.

(** C1.  From a window of 10 and a threshold of 64, outside fast recovery
    and with no duplicate counted, three iterations that each receive an
    acknowledgment at the recorded offset end with [ssthresh = 5],
    [cwnd = 8.0], no duplicate counted and fast recovery entered.  The first
    two acknowledgments send nothing; the third sends exactly one datagram,
    the segment at [base], and stamps it with the current time. *)
Theorem triple_duplicate_ack (s : sender) (a o : Z) (payload : list byte)
    (ack_pkt : list byte) (msg : list Z) :
  encodable transfers ->
  cwnd s = 10%float -> ssthresh s = 64 -> dup_acks s = 0 ->
  in_fast_recovery s = false -> prev_ack_id s = Some a ->
  transfers !! base s = Some (o, payload) -> a <= o ->
  parse_ack ack_pkt = Some (a, msg) -> startswith msg FIN = false ->
  exists pkt f1 s1 f2 s2 f3 s3,
    make_packet o payload = Some pkt
    /\ fill_window transfers time s = Some f1
    /\ on_ack transfers time f1 a = Some s1 /\ sent s1 = sent f1
    /\ fill_window transfers time s1 = Some f2
    /\ on_ack transfers time f2 a = Some s2 /\ sent s2 = sent f2
    /\ fill_window transfers time s2 = Some f3
    /\ on_ack transfers time f3 a = Some s3 /\ sent s3 = sent f3 ++ [pkt]
    /\ run transfers alg time [Recv ack_pkt; Recv ack_pkt; Recv ack_pkt] s
       = Some (Running s3)
    /\ ssthresh s3 = 5 /\ cwnd s3 = 8%float /\ dup_acks s3 = 0
    /\ in_fast_recovery s3 = true
    /\ base s3 = base s
    /\ packet_start_times s3 !! o = Some (time (clock f3)).
Proof.
  intros Henc Hcw Hss Hdup Hfr Hprev Hseg Hle Hparse Hfin.
  destruct (make_packet_encodable transfers _ _ _ Henc Hseg) as [pkt Hpkt].
  assert (Hint : int_of_float 10 = Some 10) by reflexivity.
  assert (Hlt : (base s <? length transfers)%nat = true)
    by (apply Nat.ltb_lt; eapply lookup_lt_Some; exact Hseg).
  (* first duplicate *)
  destruct (fill_window_some transfers time s 10 Henc) as [f1 Hf1];
    [now rewrite Hcw|].
  destruct (fill_window_frame transfers time s f1 Hf1) as (Hb1 & Hc1 & _).
  apply congestion_eq in Hc1 as (Hcw1 & Hss1 & Hdup1 & Hprev1 & Hfr1).
  destruct (duplicate_iteration s f1 ack_pkt a o msg payload) as [Hack1 Hit1];
    try assumption.
  destruct (dup_ack_counted f1) as (s1 & Hd1 & Hcw1' & Hss1' & Hdup1' & Hprev1' & Hfr1' & Hbs1 & Hsent1);
    [congruence|rewrite Hdup1, Hdup; discriminate|].
  (* second duplicate *)
  destruct (fill_window_some transfers time s1 10 Henc) as [f2 Hf2];
    [congruence|].
  destruct (fill_window_frame transfers time s1 f2 Hf2) as (Hb2 & Hc2 & _).
  apply congestion_eq in Hc2 as (Hcw2 & Hss2 & Hdup2 & Hprev2 & Hfr2).
  destruct (duplicate_iteration s1 f2 ack_pkt a o msg payload) as [Hack2 Hit2];
    try assumption; try congruence.
  destruct (dup_ack_counted f2) as (s2 & Hd2 & Hcw2' & Hss2' & Hdup2' & Hprev2' & Hfr2' & Hbs2 & Hsent2);
    [congruence|rewrite Hdup2, Hdup1', Hdup1, Hdup; discriminate|].
  (* third duplicate *)
  destruct (fill_window_some transfers time s2 10 Henc) as [f3 Hf3];
    [congruence|].
  destruct (fill_window_frame transfers time s2 f3 Hf3) as (Hb3 & Hc3 & _).
  apply congestion_eq in Hc3 as (Hcw3 & Hss3 & Hdup3 & Hprev3 & Hfr3).
  destruct (duplicate_iteration s2 f3 ack_pkt a o msg payload) as [Hack3 Hit3];
    try assumption; try congruence.
  destruct (dup_ack_third f3 5 5%float o payload pkt) as (s3 & Hd3 & Hcw3' & Hss3' & Hdup3' & Hprev3' & Hfr3' & Hbs3 & Hsent3 & Hst3);
    try congruence.
  { rewrite Hdup3, Hdup2', Hdup2, Hdup1', Hdup1, Hdup. reflexivity. }
  { replace (cwnd f3) with 10%float by congruence. reflexivity. }
  { reflexivity. }
  exists pkt, f1, s1, f2, s2, f3, s3.
  split; [exact Hpkt|]. split; [exact Hf1|].
  split; [congruence|]. split; [exact Hsent1|]. split; [exact Hf2|].
  split; [congruence|]. split; [exact Hsent2|]. split; [exact Hf3|].
  split; [congruence|]. split; [exact Hsent3|].
  split.
  { cbn [run]. rewrite Hlt, Hit1, Hd1. cbn [mbind option_bind].
    replace (base s1 <? length transfers)%nat with true by (rewrite <- Hlt; f_equal; congruence).
    rewrite Hit2, Hd2. cbn [mbind option_bind].
    replace (base s2 <? length transfers)%nat with true by (rewrite <- Hlt; f_equal; congruence).
    rewrite Hit3, Hd3. cbn [mbind option_bind].
    replace (base s3 <? length transfers)%nat with true by (rewrite <- Hlt; f_equal; congruence).
    reflexivity. }
  repeat split; try assumption; try congruence.
Qed.

End Transitions.

(** ** Send times and delay samples *)

Section SendTimes.

Variable transfers : list (Z * list byte).
Variable alg : summation.
Variable time : nat -> float.
Context {h : host}.

Lemma new_ack_frame (s s' : sender) (ack_id : Z) :
  new_ack s ack_id = Some s' ->
  base s' = base s /\ packet_delays s' = packet_delays s
  /\ packet_start_times s' = packet_start_times s /\ sent s' = sent s.
Proof.
  unfold new_ack. destruct (if in_fast_recovery s then _ else _); [|discriminate].
  cbn. intros [= <-]. repeat split.
Qed.

(** An inflation step keeps [base], the delays and every recorded send time. *)
Lemma inflate_frame (s s' : sender) :
  inflate transfers time s = Some s' ->
  base s' = base s /\ packet_delays s' = packet_delays s
  /\ (forall o t, packet_start_times s !! o = Some t ->
                  packet_start_times s' !! o = Some t).
Proof.
  unfold inflate. cbn.
  destruct (int_of_float (cwnd s + 1)) as [w|]; [|discriminate]. cbn.
  destruct (_ && _).
  - intros H. apply send_next_frame in H as (Hb & _ & Hd & _ & _ & Ht).
    cbn in *. repeat split; assumption.
  - intros [= <-]. cbn. repeat split; trivial.
Qed.

Lemma on_timeout_frame (s s' : sender) :
  on_timeout transfers time s = Some s' ->
  exists seq_id payload,
    transfers !! base s = Some (seq_id, payload)
    /\ packet_start_times s' = <[seq_id := time (clock s)]> (packet_start_times s)
    /\ base s' = base s /\ packet_delays s' = packet_delays s.
Proof.
  unfold on_timeout. destruct (int_floordiv2 (cwnd s)) as [half|]; [|discriminate].
  cbn. intros H.
  apply retransmit_base_frame in H
    as (seq_id & payload & pkt & Hseg & _ & _ & Ht & _ & Hb & _ & Hd).
  exists seq_id, payload. cbn in *. repeat split; assumption.
Qed.

Lemma fast_retransmit_frame (s s' : sender) :
  fast_retransmit transfers time s = Some s' ->
  exists seq_id payload,
    transfers !! base s = Some (seq_id, payload)
    /\ packet_start_times s' = <[seq_id := time (clock s)]> (packet_start_times s)
    /\ base s' = base s /\ packet_delays s' = packet_delays s.
Proof.
  unfold fast_retransmit.
  destruct (int_floordiv2 (cwnd s)) as [half|]; [|discriminate]. cbn.
  destruct (float_of_int (Z.max half 1)) as [f|]; [|discriminate]. cbn.
  intros H.
  apply retransmit_base_frame in H
    as (seq_id & payload & pkt & Hseg & _ & _ & Ht & _ & Hb & _ & Hd).
  exists seq_id, payload. cbn in *. repeat split; assumption.
Qed.

Lemma dup_ack_frame (s s' : sender) :
  dup_ack transfers time s = Some s' ->
  base s' = base s /\ packet_delays s' = packet_delays s.
Proof.
  unfold dup_ack. destruct (in_fast_recovery s).
  - intros H. apply inflate_frame in H as (Hb & Hd & _). now split.
  - destruct (dup_acks s + 1 =? 3).
    + intros H. apply fast_retransmit_frame in H as (_ & _ & _ & _ & Hb & Hd).
      now split.
    + intros [= <-]. now split.
Qed.












End SendTimes.

(** The value a computation returns on a concrete input, as the witness of
    an existential. *)
Ltac result_of t :=
  let v := eval vm_compute in t in
  lazymatch v with
  | Some (Running ?r) => exists r
  | Some (Finished ?r ?m) => exists r, m
  | Some ?r => exists r
  end.



(** ** Slow start and congestion avoidance *)

Lemma slow_start_table :
  forallb slow_start_row (map Z.of_nat (seq 1 63)) = true.
Proof. vm_compute. reflexivity. Qed.

Lemma slow_start_row_spec (k : Z) :
  1 <= k <= 63 ->
  exists c c', float_of_int k = Some c /\ float_of_int (k + 1) = Some c'
    /\ float_lt_int c 64 = true /\ py_max (c + 1) 1 = c'
    /\ PrimFloat.is_finite c = true /\ (1 <=? c)%float = true.
Proof.
  intros Hk. pose proof slow_start_table as Htable.
  rewrite forallb_forall in Htable.
  assert (Hrow : slow_start_row k = true).
  { apply Htable. apply in_map_iff. exists (Z.to_nat k). split; [lia|].
    apply in_seq. lia. }
  unfold slow_start_row in Hrow.
  destruct (float_of_int k) as [c|]; [|discriminate].
  destruct (float_of_int (k + 1)) as [c'|]; [|discriminate].
  apply andb_true_iff in Hrow as [Hrow Hone].
  apply andb_true_iff in Hrow as [Hrow Hfin].
  apply andb_true_iff in Hrow as [Hlt Heq].
  apply FloatAxioms.Leibniz.eqb_spec in Heq.
  exists c, c'. repeat split; assumption.
Qed.

Section SlowStart.

Variable transfers : list (Z * list byte).
Variable alg : summation.
Variable time : nat -> float.
Context {h : host}.

(** What an iteration does with an acknowledgment above the recorded one:
    after the window is filled and [base] has slid, the congestion variables
    are still those the iteration started with, and [new_ack] sets them. *)
Lemma new_ack_received (s u : sender) (ack_pkt : list byte) (ack_id : Z)
    (msg : list Z) :
  parse_ack ack_pkt = Some (ack_id, msg) ->
  startswith msg FIN = false ->
  (forall prev, prev_ack_id s = Some prev -> prev < ack_id) ->
  iteration transfers alg time s (Recv ack_pkt) = Some (Running u) ->
  exists s1, congestion s1 = congestion s /\ new_ack s1 ack_id = Some u.
Proof.
  intros Hparse Hfin Hnew. unfold iteration.
  destruct (fill_window transfers time s) as [f|] eqn:Ef; [|discriminate].
  cbn -[startswith FIN]. rewrite Hparse. cbn -[startswith FIN]. rewrite Hfin.
  destruct (fill_window_frame transfers time s f Ef) as (_ & Hc & _).
  destruct (on_ack transfers time f ack_id) as [s2|] eqn:E2; [|discriminate].
  cbn. intros [= <-]. revert E2. unfold on_ack.
  destruct (transfers !! base f) as [[o p]|]; [|discriminate]. cbn.
  set (s1 := if o <? ack_id then _ else f).
  assert (Hc1 : congestion s1 = congestion s).
  { subst s1. destruct (o <? ack_id); [|exact Hc].
    destruct (advance_base_frame transfers time (length transfers) ack_id f)
      as (Hc' & _).
    congruence. }
  destruct (congestion_eq _ _ Hc1) as (_ & _ & _ & Hp & _).
  destruct (prev_ack_id s1) as [prev|] eqn:Eprev.
  - assert (Hlt : prev < ack_id) by (apply Hnew; congruence).
    apply Z.ltb_lt in Hlt. rewrite Hlt. intros H. exists s1. now split.
  - intros H. exists s1. now split.
Qed.

(** Such an iteration goes through when the offsets fit the header, [base]
    is inside the plan and the window is a finite number that is below the
    threshold or at least 1.0. *)
Lemma new_ack_received_some (s : sender) (ack_pkt : list byte) (ack_id : Z)
    (msg : list Z) :
  encodable transfers ->
  (base s < length transfers)%nat ->
  PrimFloat.is_finite (cwnd s) = true ->
  in_fast_recovery s = false ->
  float_lt_int (cwnd s) (ssthresh s) = true \/ (1 <=? cwnd s)%float = true ->
  parse_ack ack_pkt = Some (ack_id, msg) ->
  startswith msg FIN = false ->
  (forall prev, prev_ack_id s = Some prev -> prev < ack_id) ->
  exists u, iteration transfers alg time s (Recv ack_pkt) = Some (Running u).
Proof.
  intros Henc Hb Hfinite Hfr Hcw Hparse Hfin Hnew.
  destruct (int_of_float_finite _ Hfinite) as [w Hw].
  destruct (fill_window_some transfers time s w Henc Hw) as [f Hf].
  destruct (fill_window_frame transfers time s f Hf) as (Hbf & Hc & _).
  assert (Hbf' : (base f < length transfers)%nat) by lia.
  destruct (lookup_lt_is_Some_2 transfers _ Hbf') as [[o p] Ho].
  set (s1 := if o <? ack_id
             then advance_base transfers time (length transfers) ack_id f else f).
  assert (Hc1 : congestion s1 = congestion s).
  { subst s1. destruct (o <? ack_id); [|exact Hc].
    destruct (advance_base_frame transfers time (length transfers) ack_id f)
      as (Hc' & _).
    congruence. }
  destruct (congestion_eq _ _ Hc1) as (Hcw1 & Hss1 & _ & Hp1 & Hfr1).
  assert (Hsome : exists u, new_ack s1 ack_id = Some u).
  { unfold new_ack. rewrite Hfr1, Hfr, Hcw1, Hss1.
    destruct (float_lt_int (cwnd s) (ssthresh s)); [cbn; eauto|].
    destruct Hcw as [Hcw|Hcw]; [discriminate|].
    destruct (reciprocal_nonneg _ Hcw) as [-> _]. cbn. eauto. }
  destruct Hsome as [u Hu]. exists u.
  unfold iteration. rewrite Hf. cbn -[startswith FIN].
  rewrite Hparse. cbn -[startswith FIN]. rewrite Hfin.
  unfold on_ack. rewrite Ho. cbn. fold s1.
  destruct (prev_ack_id s1) as [prev|] eqn:Eprev.
  - assert (Hlt : prev < ack_id) by (apply Hnew; congruence).
    apply Z.ltb_lt in Hlt. rewrite Hlt, Hu. reflexivity.
  - rewrite Hu. reflexivity.
Qed.

(** A new acknowledgment below the threshold adds 1.0 to the window. *)
Lemma new_ack_slow_start (s u : sender) (ack_id : Z) :
  in_fast_recovery s = false ->
  float_lt_int (cwnd s) (ssthresh s) = true ->
  new_ack s ack_id = Some u ->
  cwnd u = py_max (cwnd s + 1) 1 /\ ssthresh u = ssthresh s
  /\ in_fast_recovery u = false.
Proof.
  intros Hfr Hlt. unfold new_ack. rewrite Hfr, Hlt. cbn.
  intros [= <-]. repeat split.
Qed.

(** A new acknowledgment at or above the threshold adds the reciprocal. *)
Lemma new_ack_avoidance (s u : sender) (ack_id : Z) :
  in_fast_recovery s = false ->
  (1 <=? cwnd s)%float = true ->
  float_lt_int (cwnd s) (ssthresh s) = false ->
  new_ack s ack_id = Some u ->
  cwnd u = (cwnd s + 1 / cwnd s)%float /\ ssthresh u = ssthresh s
  /\ in_fast_recovery u = false.
Proof.
  intros Hfr Hone Hlt. unfold new_ack. rewrite Hfr, Hlt.
  destruct (reciprocal_nonneg _ Hone) as [-> Hinc]. cbn.
  intros [= <-]. cbn. repeat split.
  apply py_max_of_ge_one, add_ge_one_l; assumption.
Qed.

(** The window after [n <= 63] new acknowledgments from 1.0 under a
    threshold of 64. *)
Lemma slow_start_window (s t : sender) (n : nat) :
  cwnd s = 1%float -> ssthresh s = 64 -> in_fast_recovery s = false ->
  new_acks transfers alg time n s t -> (n <= 63)%nat ->
  float_of_int (1 + Z.of_nat n) = Some (cwnd t)
  /\ ssthresh t = 64 /\ in_fast_recovery t = false.
Proof.
  intros Hcw Hss Hfr Hacks. induction Hacks as [s|n s t u ack_pkt ack_id msg _ IH Hparse Hfin Hnew Hit];
    intros Hn.
  - rewrite Hcw. repeat split; assumption.
  - destruct IH as (Hwin & Hss' & Hfr'); [assumption..|lia|].
    destruct (slow_start_row_spec (1 + Z.of_nat n)) as (c & c' & Hc & Hc' & Hlt & Hmax & _ & _);
      [lia|].
    rewrite Hwin in Hc. injection Hc as <-.
    destruct (new_ack_received t u ack_pkt ack_id msg Hparse Hfin Hnew Hit)
      as (s1 & Hc1 & Hu).
    destruct (congestion_eq _ _ Hc1) as (Hcw1 & Hss1 & _ & _ & Hfr1).
    apply new_ack_slow_start in Hu as (Hwu & Hsu & Hfu);
      [|congruence|rewrite Hcw1, Hss1, Hss'; exact Hlt].
    replace (1 + Z.of_nat (S n)) with (1 + Z.of_nat n + 1) by lia.
    rewrite Hc', Hwu, Hcw1, Hmax. repeat split; congruence.
Qed.

Lemma new_acks_one (v w : sender) :
  new_acks transfers alg time 1 v w ->
  exists ack_pkt ack_id msg,
    parse_ack ack_pkt = Some (ack_id, msg)
    /\ startswith msg FIN = false
    /\ (forall prev, prev_ack_id v = Some prev -> prev < ack_id)
    /\ iteration transfers alg time v (Recv ack_pkt) = Some (Running w).
Proof.
  intros Hstep.
  inversion Hstep as [|n0 s0 t0 u0 ack_pkt ack_id msg Hzero Hparse Hfin Hnew Hit].
  inversion Hzero. subst. exists ack_pkt, ack_id, msg. repeat split; assumption.
Qed.

(** C4.  From a window of 1.0 and a threshold of 64, outside fast recovery,
    [n <= 63] iterations that each receive a new cumulative acknowledgment
    leave the window at [float(1 + n)], the threshold at 64 and fast recovery
    off; the window is below the threshold exactly while [n < 63], and the
    next such iteration goes through.  In any state outside fast recovery
    whose window is at least 1.0 and not below the threshold, an iteration
    receiving a new cumulative acknowledgment adds [1.0 / cwnd] to the
    window. *)
Theorem slow_start_linear (s t : sender) (n : nat) :
  cwnd s = 1%float -> ssthresh s = 64 -> in_fast_recovery s = false ->
  new_acks transfers alg time n s t -> (n <= 63)%nat ->
  float_of_int (1 + Z.of_nat n) = Some (cwnd t)
  /\ ssthresh t = 64 /\ in_fast_recovery t = false
  /\ float_lt_int (cwnd t) (ssthresh t) = (n <? 63)%nat
  /\ (forall ack_pkt ack_id msg,
        encodable transfers -> (base t < length transfers)%nat ->
        parse_ack ack_pkt = Some (ack_id, msg) ->
        startswith msg FIN = false ->
        (forall prev, prev_ack_id t = Some prev -> prev < ack_id) ->
        exists u,
          iteration transfers alg time t (Recv ack_pkt) = Some (Running u)
          /\ new_acks transfers alg time (S n) s u
          /\ cwnd u = if (n <? 63)%nat then (cwnd t + 1)%float
                      else (cwnd t + 1 / cwnd t)%float)
  /\ (forall v w,
        in_fast_recovery v = false -> (1 <=? cwnd v)%float = true ->
        float_lt_int (cwnd v) (ssthresh v) = false ->
        new_acks transfers alg time 1 v w ->
        cwnd w = (cwnd v + 1 / cwnd v)%float).
Proof.
  intros Hcw Hss Hfr Hacks Hn.
  destruct (slow_start_window s t n Hcw Hss Hfr Hacks Hn) as (Hwin & Hss' & Hfr').
  assert (Hstate : PrimFloat.is_finite (cwnd t) = true
                   /\ (1 <=? cwnd t)%float = true
                   /\ float_lt_int (cwnd t) 64 = (n <? 63)%nat
                   /\ ((n <? 63)%nat = true -> py_max (cwnd t + 1) 1 = (cwnd t + 1)%float)).
  { destruct (Nat.ltb_spec n 63) as [Hlt|Hge].
    - destruct (slow_start_row_spec (1 + Z.of_nat n))
        as (c & c' & Hc & Hc' & Hlt' & Hmax & Hfinite & Hone); [lia|].
      rewrite Hwin in Hc. injection Hc as <-.
      repeat split; try assumption. intros _.
      apply py_max_of_ge_one, add_ge_one_l; [exact Hone|exact I].
    - assert (n = 63%nat) as -> by lia. cbn in Hwin.
      injection Hwin as <-. repeat split; reflexivity. }
  destruct Hstate as (Hfinite & Hone & Hlt & Hmax).
  split; [exact Hwin|]. split; [exact Hss'|]. split; [exact Hfr'|].
  split; [now rewrite Hss'|]. split.
  - intros ack_pkt ack_id msg Henc Hb Hparse Hfin Hnew.
    destruct (new_ack_received_some t ack_pkt ack_id msg) as [u Hu];
      try assumption; [now right|].
    exists u. split; [exact Hu|]. split; [econstructor; eassumption|].
    destruct (new_ack_received t u ack_pkt ack_id msg Hparse Hfin Hnew Hu)
      as (s1 & Hc1 & Hu1).
    destruct (congestion_eq _ _ Hc1) as (Hcw1 & Hss1 & _ & _ & Hfr1).
    destruct (n <? 63)%nat.
    + apply new_ack_slow_start in Hu1 as (Hwu & _);
        [|congruence|rewrite Hcw1, Hss1, Hss'; exact Hlt].
      rewrite Hwu, Hcw1. now apply Hmax.
    + apply new_ack_avoidance in Hu1 as (Hwu & _);
        [|congruence|congruence|rewrite Hcw1, Hss1, Hss'; exact Hlt].
      now rewrite Hwu, Hcw1.
  - intros v w Hfrv Honev Hltv Hstep.
    destruct (new_acks_one v w Hstep)
      as (ack_pkt & ack_id & msg & Hparse & Hfin & Hnew & Hit).
    destruct (new_ack_received v w ack_pkt ack_id msg Hparse Hfin Hnew Hit)
      as (s1 & Hc1 & Hu1).
    destruct (congestion_eq _ _ Hc1) as (Hcw1 & Hss1 & _ & _ & Hfr1).
    apply new_ack_avoidance in Hu1 as (Hwu & _); try congruence.
Qed.

End SlowStart.

(** ** The transitions on a concrete transfer *)

(** Closed side conditions on [demo], by evaluation. *)
Ltac encodable_demo :=
  unfold encodable;
  let d := eval vm_compute in demo in change demo with d;
  repeat (apply List.Forall_cons; [cbn; lia|]); apply List.Forall_nil.

Ltac evaluate :=
  lazymatch goal with
  | |- encodable _ => encodable_demo
  | |- (_ < _)%nat => vm_compute; lia
  | |- _ <= _ => lia
  | |- _ < _ => lia
  | |- _ => vm_compute; reflexivity
  end.

(** The side conditions of one more iteration with a new acknowledgment. *)
Ltac new_ack_side :=
  lazymatch goal with
  | |- forall prev, _ -> _ =>
    intros prev Hprev; vm_compute in Hprev;
    first [ discriminate | injection Hprev as Hprev; lia ]
  | |- _ => vm_compute; reflexivity
  end.

(** Nine new acknowledgments on [demo] bring the window to 10.0; three
    acknowledgments of 9 then trigger the fast retransmit. *)
Lemma triple_duplicate_ack_witness :
  exists s3,
    run (h := demo_host) demo LeftToRight ticks (acks 1 9) initial
    = Some (Running (reached (acks 1 9)))
    /\ cwnd (reached (acks 1 9)) = 10%float
    /\ ssthresh (reached (acks 1 9)) = 64
    /\ prev_ack_id (reached (acks 1 9)) = Some 9
    /\ run (h := demo_host) demo LeftToRight ticks [Recv (ack 9); Recv (ack 9); Recv (ack 9)]
         (reached (acks 1 9)) = Some (Running s3)
    /\ ssthresh s3 = 5 /\ cwnd s3 = 8%float /\ dup_acks s3 = 0
    /\ in_fast_recovery s3 = true
    /\ base s3 = base (reached (acks 1 9))
    /\ length (sent s3) = S (length (sent (reached (acks 1 9))) + 2).
Proof.
  destruct (triple_duplicate_ack (h := demo_host) demo LeftToRight ticks (reached (acks 1 9))
              9 9 ["j"%byte] (ack 9) [97; 99; 107])
    as (pkt & f1 & s1 & f2 & s2 & f3 & s3 & Hpkt & Hf1 & Ha1 & Hs1 & Hf2
        & Ha2 & Hs2 & Hf3 & Ha3 & Hs3 & Hrun & Hss & Hcw & Hdup & Hfr
        & Hb & Ht);
    [evaluate..|].
  exists s3.
  do 4 (split; [vm_compute; reflexivity|]).
  split; [exact Hrun|]. split; [exact Hss|]. split; [exact Hcw|].
  split; [exact Hdup|]. split; [exact Hfr|]. split; [exact Hb|].
  vm_compute in Hrun. injection Hrun as <-. vm_compute. reflexivity.
Defined.

(** Nineteen new acknowledgments on [demo] bring the window to 20.0; a
    timeout then halves the threshold to 10. *)
Lemma timeout_transition_witness :
  exists s',
    run (h := demo_host) demo LeftToRight ticks (acks 1 19) initial
    = Some (Running (reached (acks 1 19)))
    /\ cwnd (reached (acks 1 19)) = 20%float
    /\ iteration (h := demo_host) demo LeftToRight ticks (reached (acks 1 19)) RecvTimeout
       = Some (Running s')
    /\ ssthresh s' = 10 /\ cwnd s' = 1%float /\ dup_acks s' = 0
    /\ in_fast_recovery s' = false
    /\ base s' = base (reached (acks 1 19))
    /\ next_seq_num s' = base (reached (acks 1 19)).
Proof.
  destruct (timeout_transition (h := demo_host) demo LeftToRight ticks (reached (acks 1 19)))
    as (f & s' & half & seq_id & payload & pkt & Hf & Hto & Hit & Hhalf
        & Hlo & Hhi & Hss & Hcw & Hdup & Hfr & Hb & Hn & Hseg & Hpkt
        & Hsent & H20);
    [evaluate..|].
  exists s'.
  do 2 (split; [vm_compute; reflexivity|]).
  split; [exact Hit|]. split; [apply H20; vm_compute; reflexivity|].
  split; [exact Hcw|]. split; [exact Hdup|]. split; [exact Hfr|].
  split; [exact Hb|exact Hn].
Defined.

(** A run on [demo] with new acknowledgments, a fast retransmit, an
    inflation step, a timeout and a further acknowledgment. *)
Lemma congestion_invariant_witness :
  run (h := demo_host) demo LeftToRight ticks
    (acks 1 9 ++ [Recv (ack 9); Recv (ack 9); Recv (ack 9); Recv (ack 9);
                  RecvTimeout; Recv (ack 12)]) initial
  = Some (Running
            (reached (acks 1 9 ++ [Recv (ack 9); Recv (ack 9); Recv (ack 9);
                                   Recv (ack 9); RecvTimeout; Recv (ack 12)])))
  /\ (1 <=? cwnd (reached (acks 1 9 ++ [Recv (ack 9); Recv (ack 9);
                                        Recv (ack 9); Recv (ack 9);
                                        RecvTimeout; Recv (ack 12)])))%float
     = true
  /\ 1 <= ssthresh (reached (acks 1 9 ++ [Recv (ack 9); Recv (ack 9);
                                          Recv (ack 9); Recv (ack 9);
                                          RecvTimeout; Recv (ack 12)])).
Proof.
  split; [vm_compute; reflexivity|].
  apply (congestion_invariant (h := demo_host) demo LeftToRight ticks
           (acks 1 9 ++ [Recv (ack 9); Recv (ack 9); Recv (ack 9); Recv (ack 9);
                         RecvTimeout; Recv (ack 12)])
           (Running (reached (acks 1 9 ++ [Recv (ack 9); Recv (ack 9);
                                           Recv (ack 9); Recv (ack 9);
                                           RecvTimeout; Recv (ack 12)])))).
  vm_compute. reflexivity.
Defined.

(** Three new acknowledgments on [demo] from the initial state. *)
Lemma slow_start_linear_witness :
  new_acks (h := demo_host) demo LeftToRight ticks 3 initial (reached (acks 1 3))
  /\ float_of_int (1 + 3) = Some (cwnd (reached (acks 1 3)))
  /\ ssthresh (reached (acks 1 3)) = 64
  /\ in_fast_recovery (reached (acks 1 3)) = false
  /\ float_lt_int (cwnd (reached (acks 1 3))) (ssthresh (reached (acks 1 3)))
     = true.
Proof.
  assert (Hacks : new_acks (h := demo_host) demo LeftToRight ticks 3 initial (reached (acks 1 3))).
  { apply (new_acks_S (h := demo_host) demo LeftToRight ticks 2 initial (reached (acks 1 2)) _
             (ack 3) 3 [97; 99; 107]); [|new_ack_side..].
    apply (new_acks_S (h := demo_host) demo LeftToRight ticks 1 initial (reached (acks 1 1)) _
             (ack 2) 2 [97; 99; 107]); [|new_ack_side..].
    apply (new_acks_S (h := demo_host) demo LeftToRight ticks 0 initial initial _
             (ack 1) 1 [97; 99; 107]); [|new_ack_side..].
    apply new_acks_O. }
  destruct (slow_start_linear (h := demo_host) demo LeftToRight ticks initial
              (reached (acks 1 3)) 3)
    as (Hwin & Hss & Hfr & Hlt & _);
    [reflexivity|reflexivity|reflexivity|exact Hacks|lia|].
  split; [exact Hacks|]. split; [exact Hwin|]. split; [exact Hss|].
  split; [exact Hfr|exact Hlt].
Defined.

(** After the acknowledgments of 1, 2 and 3 on [demo], one of 2 arrives. *)
Lemma stale_ack_noop_witness :
  exists f s',
    run (h := demo_host) demo LeftToRight ticks (acks 1 3) initial
    = Some (Running (reached (acks 1 3)))
    /\ fill_window demo ticks (reached (acks 1 3)) = Some f
    /\ prev_ack_id (reached (acks 1 3)) = Some 3
    /\ iteration (h := demo_host) demo LeftToRight ticks (reached (acks 1 3)) (Recv (ack 2))
       = Some (Running s')
    /\ on_ack demo ticks f 2 = Some s'
    /\ congestion s' = congestion (reached (acks 1 3))
    /\ sent s' = sent f.
Proof.
  result_of (fill_window demo ticks (reached (acks 1 3))).
  lazymatch goal with
  | |- exists s', _ /\ fill_window _ _ _ = Some ?f /\ _ =>
    destruct (stale_ack_noop (h := demo_host) demo LeftToRight ticks (reached (acks 1 3)) f
                (ack 2) 2 3 [97; 99; 107])
      as (s' & Hit & Hack & Hc & Hsent);
      [evaluate..|]
  end.
  exists s'.
  do 3 (split; [vm_compute; reflexivity|]).
  split; [exact Hit|]. split; [exact Hack|]. split; [exact Hc|exact Hsent].
Defined.

(** * Further properties *)

(** ** More on the codec *)

Lemma byte_of_Z_of_byte (b : byte) : byte_of_Z (Z_of_byte b) = b.
Proof.
  unfold byte_of_Z, Z_of_byte.
  pose proof (Byte.to_N_bounded b) as Hb.
  rewrite Z.mod_small by lia. rewrite N2Z.id, Byte.of_to_N. reflexivity.
Qed.

Lemma be_value_bound (bs : list byte) :
  0 <= be_value bs < 256 ^ Z.of_nat (length bs).
Proof.
  induction bs as [|b bs IH] using rev_ind.
  - cbn. lia.
  - rewrite be_value_snoc, length_app. cbn [length].
    replace (Z.of_nat (length bs + 1)) with (Z.succ (Z.of_nat (length bs))) by lia.
    rewrite Z.pow_succ_r by lia.
    pose proof (Z_of_byte_range b). nia.
Qed.

Lemma be_bytes_be_value (bs : list byte) :
  be_bytes (length bs) (be_value bs) = bs.
Proof.
  induction bs as [|b bs IH] using rev_ind; [reflexivity|].
  rewrite be_value_snoc, length_app. cbn [length].
  replace (length bs + 1)%nat with (S (length bs)) by lia.
  cbn [be_bytes]. pose proof (Z_of_byte_range b) as Hb.
  replace ((be_value bs * 256 + Z_of_byte b) / 256) with (be_value bs)
    by (apply Z.div_unique with (Z_of_byte b); lia).
  replace ((be_value bs * 256 + Z_of_byte b) mod 256) with (Z_of_byte b)
    by (apply Z.mod_unique with (be_value bs); lia).
  now rewrite IH, byte_of_Z_of_byte.
Qed.

(** The signed value of [n > 0] bytes fits [n] bytes, and writing it on [n]
    bytes gives the bytes back. *)
Lemma int_to_bytes_from_bytes (bs : list byte) :
  (0 < length bs)%nat ->
  int_to_bytes (int_from_bytes bs) (length bs) = Some bs.
Proof.
  intros Hlen. pose proof (be_value_bound bs) as Hu.
  rewrite pow_256_bits in Hu.
  unfold int_to_bytes, int_from_bytes.
  set (bits := 8 * Z.of_nat (length bs)) in *.
  assert (Hbits : 0 < bits) by (subst bits; lia).
  assert (Hpow : 2 ^ bits = 2 * 2 ^ (bits - 1)).
  { replace bits with (Z.succ (bits - 1)) at 1 by lia.
    apply Z.pow_succ_r. lia. }
  assert (Hpos : 0 < 2 ^ (bits - 1)) by (apply Z.pow_pos_nonneg; lia).
  apply Z.ltb_lt in Hbits as Hb. rewrite Hb. cbn [andb].
  destruct (2 ^ (bits - 1) <=? be_value bs) eqn:E.
  - apply Z.leb_le in E.
    assert (Hr : (- 2 ^ (bits - 1) <=? be_value bs - 2 ^ bits)
                 && (be_value bs - 2 ^ bits <? 2 ^ (bits - 1)) = true).
    { apply andb_true_iff. split; [apply Z.leb_le|apply Z.ltb_lt]; lia. }
    rewrite Hr. f_equal.
    replace ((be_value bs - 2 ^ bits) mod 2 ^ bits) with (be_value bs).
    + apply be_bytes_be_value.
    + apply Z.mod_unique with (-1); lia.
  - apply Z.leb_gt in E.
    assert (Hr : (- 2 ^ (bits - 1) <=? be_value bs)
                 && (be_value bs <? 2 ^ (bits - 1)) = true).
    { apply andb_true_iff. split; [apply Z.leb_le|apply Z.ltb_lt]; lia. }
    rewrite Hr. f_equal. rewrite Z.mod_small by lia. apply be_bytes_be_value.
Qed.

(** The signed value of at most four bytes fits four signed bytes. *)
Lemma int_from_bytes_range (bs : list byte) :
  (length bs <= 4)%nat -> - 2 ^ 31 <= int_from_bytes bs < 2 ^ 31.
Proof.
  intros Hlen. pose proof (be_value_bound bs) as Hu.
  rewrite pow_256_bits in Hu.
  unfold int_from_bytes.
  set (bits := 8 * Z.of_nat (length bs)) in *.
  assert (Hle : 2 ^ bits <= 2 ^ 32) by (apply Z.pow_le_mono_r; subst bits; lia).
  destruct (0 <? bits) eqn:Hb; cbn [andb].
  - apply Z.ltb_lt in Hb.
    assert (Hpow : 2 ^ bits = 2 * 2 ^ (bits - 1)).
    { replace bits with (Z.succ (bits - 1)) at 1 by lia.
      apply Z.pow_succ_r. lia. }
    change (2 ^ 32) with (2 * 2 ^ 31) in Hle.
    destruct (2 ^ (bits - 1) <=? be_value bs) eqn:E;
      [apply Z.leb_le in E|apply Z.leb_gt in E]; lia.
  - apply Z.ltb_ge in Hb. assert (bits = 0) as Hz by (subst bits; lia).
    rewrite Hz in Hu. cbn in Hu. lia.
Qed.

Lemma decode_ascii_cons (h : errors) (b : byte) (s : list byte) :
  Z_of_byte b < 0x80 ->
  decode h (b :: s) = option_map (cons (Z_of_byte b)) (decode h s).
Proof.
  intros Hb. rewrite decode_cons. cbv zeta.
  apply Z.ltb_lt in Hb. now rewrite Hb.
Qed.

(** X1.  A datagram of at least four bytes is rebuilt from what [parse_ack]
    reads of it: [make_packet] on the signed value of its first four bytes
    and on the bytes that follow gives the datagram back. *)
Theorem parse_then_make (packet : list byte) :
  (SEQ_ID_SIZE <= length packet)%nat ->
  make_packet (int_from_bytes (firstn SEQ_ID_SIZE packet))
              (skipn SEQ_ID_SIZE packet) = Some packet.
Proof.
  intros Hlen. unfold make_packet.
  assert (Hh : length (firstn SEQ_ID_SIZE packet) = SEQ_ID_SIZE)
    by (rewrite length_firstn; lia).
  pose proof (int_to_bytes_from_bytes (firstn SEQ_ID_SIZE packet)) as Hrt.
  rewrite Hh in Hrt. rewrite Hrt by (unfold SEQ_ID_SIZE; lia).
  cbn [option_map]. now rewrite firstn_skipn.
Qed.

Lemma parse_then_make_witness :
  make_packet (int_from_bytes (firstn SEQ_ID_SIZE (ack (-7))))
              (skipn SEQ_ID_SIZE (ack (-7))) = Some (ack (-7)).
Proof. apply (parse_then_make (ack (-7))). vm_compute. lia. Defined.

(** X2.  Whatever bytes arrive, also fewer than four, the identifier
    [parse_ack] returns fits four signed bytes (it is 0 for an empty
    datagram), so [make_packet] on it never overflows, whatever the
    payload. *)
Theorem parse_ack_id_fits (packet : list byte) :
  exists ack_id msg,
    parse_ack packet = Some (ack_id, msg)
    /\ - 2 ^ 31 <= ack_id < 2 ^ 31
    /\ (length packet = 0%nat -> ack_id = 0)
    /\ forall payload, exists reply,
         make_packet ack_id payload = Some reply.
Proof.
  destruct (decode_ignore_total (skipn SEQ_ID_SIZE packet)) as [msg Hmsg].
  exists (int_from_bytes (firstn SEQ_ID_SIZE packet)), msg.
  assert (Hr : - 2 ^ 31 <= int_from_bytes (firstn SEQ_ID_SIZE packet) < 2 ^ 31).
  { apply int_from_bytes_range. rewrite length_firstn. unfold SEQ_ID_SIZE. lia. }
  split; [unfold parse_ack; now rewrite Hmsg|]. split; [exact Hr|]. split.
  - intros Hz. destruct packet; [reflexivity|discriminate].
  - intros payload. destruct (int_to_bytes_in_range _ Hr) as [header Hh].
    unfold make_packet. rewrite Hh. eauto.
Qed.

(** X3.  [make_packet] fails (the [OverflowError] of [int.to_bytes])
    exactly when the offset is outside [-2^31, 2^31); when it succeeds the
    datagram is the payload behind four more bytes. *)
Theorem make_packet_fits (seq_id : Z) (payload : list byte) :
  (make_packet seq_id payload = None <-> seq_id < - 2 ^ 31 \/ 2 ^ 31 <= seq_id)
  /\ (forall pkt, make_packet seq_id payload = Some pkt ->
        length pkt = (SEQ_ID_SIZE + length payload)%nat
        /\ skipn SEQ_ID_SIZE pkt = payload).
Proof.
  unfold make_packet, int_to_bytes.
  change (2 ^ (8 * Z.of_nat SEQ_ID_SIZE - 1)) with (2 ^ 31).
  change (2 ^ (8 * Z.of_nat SEQ_ID_SIZE)) with (2 ^ 32).
  cbv zeta.
  destruct (- 2 ^ 31 <=? seq_id) eqn:E1; destruct (seq_id <? 2 ^ 31) eqn:E2;
    cbn [andb option_map];
    try apply Z.leb_le in E1; try apply Z.leb_gt in E1;
    try apply Z.ltb_lt in E2; try apply Z.ltb_ge in E2.
  - split; [split; [discriminate|lia]|].
    intros pkt [= <-]. split; reflexivity.
  - split; [split; [right; lia|reflexivity]|discriminate].
  - split; [split; [left; lia|reflexivity]|discriminate].
  - split; [split; [left; lia|reflexivity]|discriminate].
Qed.

(** X4.  An acknowledgment whose payload begins with the three bytes [fin]
    is read as a fin whatever follows them, undecodable bytes included. *)
Theorem fin_recognised (header rest : list byte) :
  length header = SEQ_ID_SIZE ->
  exists msg,
    parse_ack (header ++ ["f"; "i"; "n"]%byte ++ rest)
    = Some (int_from_bytes header, msg)
    /\ startswith msg FIN = true.
Proof.
  intros Hlen. destruct (decode_ignore_total rest) as [tail Htail].
  exists (FIN ++ tail). unfold parse_ack.
  rewrite firstn_app, Hlen, Nat.sub_diag, firstn_all2 by lia.
  cbn [firstn]. rewrite app_nil_r.
  rewrite skipn_app, Hlen, Nat.sub_diag, skipn_all2 by lia.
  cbn [skipn app].
  rewrite !decode_ascii_cons by (vm_compute; reflexivity).
  rewrite Htail. split; [reflexivity|]. destruct tail; vm_compute; reflexivity.
Qed.

Lemma fin_recognised_witness :
  exists msg,
    parse_ack ([x00; x00; x00; x18] ++ ["f"; "i"; "n"]%byte ++ [xff; xfe])
    = Some (int_from_bytes [x00; x00; x00; x18], msg)
    /\ startswith msg FIN = true.
Proof. apply (fin_recognised [x00; x00; x00; x18] [xff; xfe]). reflexivity. Defined.

(** ** More on planning *)

Lemma range_from_lookup (stop step : nat) :
  forall fuel i k j,
    range_from fuel i stop step !! k = Some j ->
    j = (i + k * step)%nat /\ (j < stop)%nat.
Proof.
  induction fuel as [|fuel IH]; intros i k j; cbn [range_from]; [discriminate|].
  destruct (i <? stop)%nat eqn:E; [|discriminate].
  apply Nat.ltb_lt in E. destruct k as [|k]; cbn.
  - intros [= <-]. lia.
  - intros H. apply IH in H. lia.
Qed.

Lemma chunks_of_lookup (mss : nat) (data : list byte) (cs : list (list byte))
    (i : nat) (c : list byte) :
  chunks_of mss data = Some cs -> cs !! i = Some c ->
  c = slice data (i * mss) (i * mss + mss) /\ (i * mss < length data)%nat.
Proof.
  unfold chunks_of, py_range. destruct (mss =? 0)%nat; [discriminate|].
  cbn. intros [= <-]. rewrite list_lookup_fmap.
  destruct (range_from (length data) 0 (length data) mss !! i) as [j|] eqn:E;
    [|discriminate].
  cbn. intros [= <-]. apply range_from_lookup in E as [-> Hlt].
  cbn in *. split; [reflexivity|exact Hlt].
Qed.

Lemma chunks_of_positive (mss : nat) (data : list byte) (cs : list (list byte)) :
  chunks_of mss data = Some cs -> (0 < mss)%nat.
Proof.
  unfold chunks_of, py_range. destruct (mss =? 0)%nat eqn:E; [discriminate|].
  apply Nat.eqb_neq in E. lia.
Qed.

Lemma length_slice (data : list byte) (i j : nat) :
  length (slice data i j) = Nat.min (j - i) (length data - i).
Proof. unfold slice. now rewrite length_firstn, length_skipn. Qed.

Lemma number_from_lookup (cs : list (list byte)) :
  forall seq i o p,
    number_from seq cs !! i = Some (o, p) ->
    cs !! i = Some p /\ o = seq + Z.of_nat (length (concat (take i cs))).
Proof.
  induction cs as [|c cs IH]; intros seq i o p; [discriminate|].
  destruct i as [|i]; cbn.
  - intros [= <- <-]. split; [reflexivity|lia].
  - intros H. apply IH in H as [Hp ->]. split; [exact Hp|].
    rewrite length_app. lia.
Qed.

(** The chunks before the last are full, so chunk [i] starts [i * mss] bytes
    into the data. *)
Lemma chunks_prefix_length (mss : nat) (data : list byte) (cs : list (list byte)) :
  chunks_of mss data = Some cs ->
  forall i, (i < length cs)%nat ->
    length (concat (take i cs)) = (i * mss)%nat.
Proof.
  intros Hcs. induction i as [|i IH]; intros Hi; [reflexivity|].
  destruct (lookup_lt_is_Some_2 cs i) as [c Hc]; [lia|].
  destruct (lookup_lt_is_Some_2 cs (S i) Hi) as [c' Hc'].
  rewrite (take_S_r _ _ _ Hc), concat_app, length_app, IH by lia.
  cbn [concat]. rewrite app_nil_r.
  apply (chunks_of_lookup _ _ _ _ _ Hcs) in Hc as [-> _].
  apply (chunks_of_lookup _ _ _ _ _ Hcs) in Hc' as [_ Hlt].
  rewrite length_slice. cbn in Hlt. lia.
Qed.

Lemma total_bytes_fold (l : list (Z * list byte)) :
  forall acc,
    fold_left (fun acc '(_, payload) => acc + Z.of_nat (length payload)) l acc
    = acc + Z.of_nat (length (concat (map snd l))).
Proof.
  induction l as [|[o p] l IH]; intros acc; cbn; [lia|].
  rewrite IH, length_app. lia.
Qed.

Lemma total_bytes_of_fold (cs : list (list byte)) :
  forall acc,
    fold_left (fun acc chunk => acc + Z.of_nat (length chunk)) cs acc
    = acc + Z.of_nat (length (concat cs)).
Proof.
  induction cs as [|c cs IH]; intros acc; cbn; [lia|].
  rewrite IH, length_app. lia.
Qed.

(** What planning returns, chunk by chunk. *)
Lemma plan_inv (mss : nat) (data : list byte) (transfers : list (Z * list byte)) :
  plan mss data = Some transfers ->
  exists cs,
    chunks_of mss data = Some cs
    /\ concat cs = data
    /\ transfers = number_from 0 cs ++ [(Z.of_nat (length data), [])].
Proof.
  unfold plan. destruct (chunks_of mss data) as [cs|] eqn:Hcs; [|discriminate].
  cbn. intros [= <-]. exists cs.
  pose proof (chunks_of_positive _ _ _ Hcs) as Hpos.
  destruct (chunks_of_spec data mss Hpos) as (cs' & Hcs' & Hcat & _).
  rewrite Hcs in Hcs'. injection Hcs' as <-.
  split; [reflexivity|]. split; [exact Hcat|].
  rewrite plan_transfers_spec, Hcat. reflexivity.
Qed.

Lemma plan_lookup (mss : nat) (data : list byte)
    (transfers : list (Z * list byte)) (i : nat) (o : Z) (p : list byte) :
  plan mss data = Some transfers ->
  transfers !! i = Some (o, p) ->
  if (S i <? length transfers)%nat
  then o = Z.of_nat (i * mss)
       /\ p = slice data (i * mss) (i * mss + mss)
       /\ length p = Nat.min mss (length data - i * mss)
       /\ (0 < length p)%nat
  else o = Z.of_nat (length data) /\ p = [].
Proof.
  intros Hplan Hi. destruct (plan_inv _ _ _ Hplan) as (cs & Hcs & Hcat & ->).
  rewrite length_app, number_from_length. cbn [length].
  destruct (S i <? length cs + 1)%nat eqn:E.
  - apply Nat.ltb_lt in E.
    rewrite lookup_app_l in Hi by (rewrite number_from_length; lia).
    apply number_from_lookup in Hi as [Hp ->].
    rewrite (chunks_prefix_length _ _ _ Hcs) by lia.
    apply (chunks_of_lookup _ _ _ _ _ Hcs) in Hp as [-> Hlt].
    pose proof (chunks_of_positive _ _ _ Hcs) as Hpos.
    rewrite length_slice. repeat split; lia.
  - apply Nat.ltb_ge in E.
    apply lookup_lt_Some in Hi as Hlt.
    rewrite length_app, number_from_length in Hlt. cbn in Hlt.
    assert (i = length cs) as -> by lia.
    rewrite lookup_app_r, number_from_length, Nat.sub_diag in Hi
      by (rewrite number_from_length; lia).
    cbn in Hi. injection Hi as <- <-. now split.
Qed.

(** X5.  Segment [i] of a plan, when it is not the terminal marker, starts
    at offset [i * mss] and carries [data[i * mss : i * mss + mss]], which is
    [mss] bytes or, for the last chunk, what is left; the terminal marker is
    the empty payload at the length of the data. *)
Theorem plan_closed_form (mss : nat) (data : list byte)
    (transfers : list (Z * list byte)) (i : nat) (o : Z) (p : list byte) :
  plan mss data = Some transfers ->
  transfers !! i = Some (o, p) ->
  if (S i <? length transfers)%nat
  then o = Z.of_nat (i * mss)
       /\ p = slice data (i * mss) (i * mss + mss)
       /\ length p = Nat.min mss (length data - i * mss)
       /\ (0 < length p)%nat
  else o = Z.of_nat (length data) /\ p = [].
Proof. apply plan_lookup. Qed.

Lemma plan_closed_form_witness :
  if (S 5 <? length demo)%nat
  then 5 = Z.of_nat (5 * 1)
       /\ ["f"%byte] = slice demo_data (5 * 1) (5 * 1 + 1)
       /\ length ["f"%byte] = Nat.min 1 (length demo_data - 5 * 1)
       /\ (0 < length ["f"%byte])%nat
  else 5 = Z.of_nat (length demo_data) /\ ["f"%byte] = [].
Proof.
  apply (plan_closed_form 1 demo_data demo 5 5 ["f"%byte]); reflexivity.
Defined.

(** X6.  The offsets of a plan all fit the header exactly when the payload
    is shorter than [2^31] bytes: with a longer one the terminal marker, at
    the least, cannot be encoded. *)
Theorem plan_encodable (mss : nat) (data : list byte)
    (transfers : list (Z * list byte)) :
  plan mss data = Some transfers ->
  (encodable transfers <-> Z.of_nat (length data) < 2 ^ 31).
Proof.
  intros Hplan. destruct (plan_inv _ _ _ Hplan) as (cs & Hcs & Hcat & Ht).
  unfold encodable. split.
  - intros Henc. rewrite Ht in Henc. apply Forall_app in Henc as [_ Hlast].
    apply Forall_inv in Hlast. cbn in Hlast. lia.
  - intros Hlen. apply Forall_lookup. intros i [o p] Hi. cbn.
    pose proof (plan_lookup _ _ _ i o p Hplan Hi) as Hform.
    destruct (S i <? length transfers)%nat.
    + destruct Hform as (-> & _ & Hp & Hpos). lia.
    + destruct Hform as [-> _]. lia.
Qed.

Lemma plan_encodable_witness :
  encodable demo <-> Z.of_nat (length demo_data) < 2 ^ 31.
Proof. apply (plan_encodable 1 demo_data demo). reflexivity. Defined.

Lemma make_packet_length (seq_id : Z) (payload pkt : list byte) :
  make_packet seq_id payload = Some pkt ->
  length pkt = (SEQ_ID_SIZE + length payload)%nat.
Proof.
  unfold make_packet, int_to_bytes. destruct (_ && _); [|discriminate].
  cbn [option_map]. intros H.
  match type of H with Some ?l = _ => replace pkt with l by congruence end.
  now rewrite length_app, length_be_bytes.
Qed.

(** X7.  The datagram of a segment planned with [MSS] never exceeds
    [PACKET_SIZE] bytes. *)
Theorem datagram_size (data : list byte) (transfers : list (Z * list byte))
    (i : nat) (o : Z) (p pkt : list byte) :
  plan MSS data = Some transfers ->
  transfers !! i = Some (o, p) ->
  make_packet o p = Some pkt ->
  Z.of_nat (length pkt) <= PACKET_SIZE.
Proof.
  intros Hplan Hi Hpkt. apply make_packet_length in Hpkt. rewrite Hpkt.
  pose proof (plan_lookup _ _ _ i o p Hplan Hi) as Hform.
  assert (Hp : (length p <= MSS)%nat).
  { destruct (S i <? length transfers)%nat.
    - destruct Hform as (_ & _ & Hp & _). lia.
    - destruct Hform as [_ ->]. cbn. lia. }
  revert Hp. unfold MSS, PACKET_SIZE, SEQ_ID_SIZE. lia.
Qed.

Lemma datagram_size_witness :
  Z.of_nat (length ([x00; x00; x00; x00] ++ ["a"; "b"; "c"]%byte)) <= PACKET_SIZE.
Proof.
  apply (datagram_size ["a"; "b"; "c"]%byte
           [(0, ["a"; "b"; "c"]%byte); (3, [])] 0 0 ["a"; "b"; "c"]%byte);
    vm_compute; reflexivity.
Defined.

(** X8.  The byte count the throughput is computed from is the length of
    the payload: summing the chunk lengths, as [main] does, and summing the
    payload lengths of the planned segments both give it. *)
Theorem total_bytes_plan (mss : nat) (data : list byte)
    (transfers : list (Z * list byte)) :
  plan mss data = Some transfers ->
  total_bytes transfers = Z.of_nat (length data)
  /\ exists demo_chunks,
       chunks_of mss data = Some demo_chunks
       /\ total_bytes_of demo_chunks = total_bytes transfers.
Proof.
  intros Hplan. destruct (plan_inv _ _ _ Hplan) as (cs & Hcs & Hcat & ->).
  assert (Ht : total_bytes (number_from 0 cs ++ [(Z.of_nat (length data), [])])
               = Z.of_nat (length data)).
  { unfold total_bytes. rewrite total_bytes_fold, map_app, number_from_snd.
    cbn [map snd]. rewrite concat_app, Hcat. cbn. rewrite app_nil_r. lia. }
  split; [exact Ht|]. exists cs. split; [exact Hcs|].
  rewrite Ht. unfold total_bytes_of. rewrite total_bytes_of_fold, Hcat. lia.
Qed.

Lemma total_bytes_plan_witness :
  total_bytes demo = Z.of_nat (length demo_data)
  /\ exists demo_chunks,
       chunks_of 1 demo_data = Some demo_chunks
       /\ total_bytes_of demo_chunks = total_bytes demo.
Proof. apply (total_bytes_plan 1 demo_data demo). reflexivity. Defined.

(** ** The loop, step by step *)

Section Steps.

Variable transfers : list (Z * list byte).
Variable alg : summation.
Variable time : nat -> float.
Context {h : host}.

(** What a window send does. *)
Lemma send_next_inv (s s' : sender) :
  send_next transfers time s = Some s' ->
  exists o p pkt,
    transfers !! next_seq_num s = Some (o, p)
    /\ make_packet o p = Some pkt
    /\ sent s' = sent s ++ [pkt]
    /\ next_seq_num s' = S (next_seq_num s)
    /\ base s' = base s
    /\ (clock s <= clock s')%nat
    /\ packet_start_times s'
       = match packet_start_times s !! o with
         | Some _ => packet_start_times s
         | None => <[o := time (clock s)]> (packet_start_times s)
         end.
Proof.
  unfold send_next.
  destruct (transfers !! next_seq_num s) as [[o p]|]; [|discriminate]. cbn.
  destruct (make_packet o p) as [pkt|] eqn:Hpkt; [|discriminate]. cbn.
  intros [= <-]. exists o, p, pkt.
  destruct (packet_start_times s !! o); cbn; repeat split; try lia; exact Hpkt.
Qed.

(** The cases of one iteration. *)
Lemma iteration_inv (s : sender) (ev : event) (out : outcome) :
  iteration transfers alg time s ev = Some out ->
  exists f,
    fill_window transfers time s = Some f
    /\ match ev with
       | RecvTimeout =>
         exists s', on_timeout transfers time f = Some s' /\ out = Running s'
       | Recv ack_pkt =>
         exists ack_id msg,
           parse_ack ack_pkt = Some (ack_id, msg)
           /\ if startswith msg FIN
              then on_fin transfers alg time f ack_id = Some out
              else exists s', on_ack transfers time f ack_id = Some s'
                              /\ out = Running s'
       end.
Proof.
  unfold iteration.
  destruct (fill_window transfers time s) as [f|]; [|discriminate].
  cbn -[startswith FIN]. intros H. exists f. split; [reflexivity|].
  destruct ev as [ack_pkt|].
  - destruct (parse_ack ack_pkt) as [[ack_id msg]|]; [|discriminate].
    cbn -[startswith FIN] in H. exists ack_id, msg. split; [reflexivity|].
    destruct (startswith msg FIN); [exact H|].
    destruct (on_ack transfers time f ack_id) as [s'|]; [|discriminate].
    cbn in H. injection H as <-. eauto.
  - destruct (on_timeout transfers time f) as [s'|]; [|discriminate].
    cbn in H. injection H as <-. eauto.
Qed.

(** The three ways an acknowledgment is handled once [base] has slid. *)
Lemma on_ack_inv (s s' : sender) (ack_id : Z) :
  on_ack transfers time s ack_id = Some s' ->
  exists o p s1,
    transfers !! base s = Some (o, p)
    /\ s1 = (if o <? ack_id
             then advance_base transfers time (length transfers) ack_id s
             else s)
    /\ ((new_ack s1 ack_id = Some s'
         /\ forall prev, prev_ack_id s1 = Some prev -> prev < ack_id)
        \/ (prev_ack_id s1 = Some ack_id /\ dup_ack transfers time s1 = Some s')
        \/ (exists prev, prev_ack_id s1 = Some prev /\ ack_id < prev /\ s' = s1)).
Proof.
  unfold on_ack.
  destruct (transfers !! base s) as [[o p]|]; [|discriminate]. cbn.
  set (s1 := if o <? ack_id then _ else s).
  intros H. exists o, p, s1. split; [reflexivity|]. split; [reflexivity|].
  destruct (prev_ack_id s1) as [prev|] eqn:Eprev.
  - destruct (prev <? ack_id) eqn:E1.
    + left. split; [exact H|]. intros prev' [= <-]. now apply Z.ltb_lt.
    + destruct (ack_id =? prev) eqn:E2.
      * apply Z.eqb_eq in E2 as ->. right. left. now split.
      * apply Z.ltb_ge in E1. apply Z.eqb_neq in E2. injection H as <-.
        right. right. exists prev. repeat split. lia.
  - left. split; [exact H|]. discriminate.
Qed.

(** The sliding loop stops at the end of the plan or at a segment whose
    offset is not below the acknowledgment. *)
Lemma advance_base_exit (ack_id : Z) :
  forall fuel s,
    (length transfers - base s <= fuel)%nat ->
    forall o p,
      transfers !! base (advance_base transfers time fuel ack_id s) = Some (o, p) ->
      ack_id <= o.
Proof.
  induction fuel as [|fuel IH]; intros s Hfuel o p; cbn [advance_base].
  - intros H. apply lookup_lt_Some in H. lia.
  - destruct (transfers !! base s) as [[acked q]|] eqn:Hb; [|congruence].
    destruct (acked <? ack_id) eqn:E.
    + apply IH. destruct (slide_frame time s acked) as (_ & _ & _ & _ & -> & _).
      lia.
    + rewrite Hb. intros [= <- <-]. now apply Z.ltb_ge.
Qed.

Lemma dup_ack_prev (s s' : sender) :
  dup_ack transfers time s = Some s' -> prev_ack_id s' = prev_ack_id s.
Proof.
  unfold dup_ack. destruct (in_fast_recovery s).
  - unfold inflate. cbn. destruct (int_of_float _); [|discriminate]. cbn.
    destruct (_ && _).
    + intros H. apply send_next_frame in H as (_ & Hc & _).
      now apply congestion_eq in Hc as (_ & _ & _ & Hp & _).
    + now intros [= <-].
  - destruct (dup_acks s + 1 =? 3).
    + unfold fast_retransmit.
      destruct (int_floordiv2 _); [|discriminate]. cbn.
      destruct (float_of_int _); [|discriminate]. cbn.
      intros H. apply retransmit_base_frame in H as (_ & _ & _ & _ & _ & _ & _ & Hc & _).
      now apply congestion_eq in Hc as (_ & _ & _ & Hp & _).
    + now intros [= <-].
Qed.

Lemma on_timeout_prev (s s' : sender) :
  on_timeout transfers time s = Some s' -> prev_ack_id s' = prev_ack_id s.
Proof.
  unfold on_timeout. destruct (int_floordiv2 _); [|discriminate]. cbn.
  intros H. apply retransmit_base_frame in H as (_ & _ & _ & _ & _ & _ & _ & Hc & _).
  now apply congestion_eq in Hc as (_ & _ & _ & Hp & _).
Qed.

Lemma on_fin_state (s : sender) (ack_id : Z) (out : outcome) :
  on_fin transfers alg time s ack_id = Some out ->
  exists fin_ack m,
    make_packet ack_id FIN_ACK = Some fin_ack
    /\ print_metrics alg (total_bytes transfers)
         (py_max (time (clock s) - time 0) 1e-6) (packet_delays s) = Some m
    /\ out = Finished
               {| base := base s; next_seq_num := next_seq_num s;
                  packet_start_times := packet_start_times s;
                  packet_delays := packet_delays s;
                  cwnd := cwnd s; ssthresh := ssthresh s; dup_acks := dup_acks s;
                  prev_ack_id := prev_ack_id s;
                  in_fast_recovery := in_fast_recovery s;
                  sent := sent s ++ [fin_ack]; clock := S (clock s) |} m.
Proof.
  unfold on_fin. destruct (make_packet ack_id FIN_ACK) as [fin_ack|]; [|discriminate].
  cbn -[print_metrics].
  destruct (print_metrics _ _ _ _) as [m|]; [|discriminate].
  cbn -[verify_transfer].
  destruct (verify_transfer _ _ _); [|discriminate].
  cbn. intros [= <-]. eauto.
Qed.

(** A property of the states that every iteration keeps holds all along a
    run. *)
Lemma run_keeps (P : sender -> Prop) :
  (forall s ev out, P s -> iteration transfers alg time s ev = Some out ->
                    P (state_of out)) ->
  forall evs s out,
    P s -> run transfers alg time evs s = Some out -> P (state_of out).
Proof.
  intros Hstep. induction evs as [|ev evs IH]; intros s out Hs; cbn [run].
  - destruct (base s <? length transfers)%nat; intros [= <-]; exact Hs.
  - destruct (base s <? length transfers)%nat; [|intros [= <-]; exact Hs].
    destruct (iteration transfers alg time s ev) as [o1|] eqn:E1; [|discriminate].
    cbn. pose proof (Hstep s ev o1 Hs E1) as Hs1.
    destruct o1 as [s1|s1 m|s1]; [apply IH; exact Hs1|intros [= <-]; exact Hs1..].
Qed.

(** *** The recorded acknowledgment and [base] *)

Lemma on_ack_acked_below (s s' : sender) (ack_id : Z) :
  acked_below transfers s -> on_ack transfers time s ack_id = Some s' ->
  acked_below transfers s'.
Proof.
  intros Hs H. apply on_ack_inv in H as (o & p & s1 & Hb & Hs1 & Hcase).
  assert (Hp1 : prev_ack_id s1 = prev_ack_id s).
  { rewrite Hs1. destruct (o <? ack_id); [|reflexivity].
    destruct (advance_base_frame transfers time (length transfers) ack_id s)
      as (Hc & _).
    now apply congestion_eq in Hc as (_ & _ & _ & Hp & _). }
  assert (Hbase : forall o1 p1, transfers !! base s1 = Some (o1, p1) -> ack_id <= o1).
  { intros o1 p1 H1. rewrite Hs1 in H1. destruct (o <? ack_id) eqn:E.
    - eapply advance_base_exit; [|exact H1]. lia.
    - apply Z.ltb_ge in E. rewrite Hb in H1. injection H1 as <- <-. exact E. }
  destruct Hcase as [[Hnew _]|[[Hprev Hdup]|(prev & Hprev & Hlt & ->)]].
  - pose proof Hnew as Hn. apply new_ack_frame in Hn as (Hbs & _).
    unfold new_ack in Hnew.
    destruct (if in_fast_recovery s1 then _ else _); [|discriminate].
    cbn in Hnew. injection Hnew as <-. intros a o1 p1. cbn.
    intros [= <-] H1. eapply Hbase; exact H1.
  - pose proof (dup_ack_prev _ _ Hdup) as Hp.
    apply dup_ack_frame in Hdup as (Hbs & _).
    intros a o1 p1 Ha H1. rewrite Hp, Hprev in Ha. injection Ha as <-.
    rewrite Hbs in H1. eapply Hbase; exact H1.
  - intros a o1 p1 Ha H1. rewrite Hprev in Ha. injection Ha as <-.
    rewrite Hp1 in Hprev. specialize (Hs _ _ _ Hprev Hb).
    assert (s1 = s) as Heq.
    { rewrite Hs1. destruct (o <? ack_id) eqn:E; [|reflexivity].
      apply Z.ltb_lt in E. lia. }
    rewrite Heq in H1. rewrite Hb in H1. injection H1 as <- <-. exact Hs.
Qed.

Lemma iteration_acked_below (s : sender) (ev : event) (out : outcome) :
  acked_below transfers s -> iteration transfers alg time s ev = Some out ->
  acked_below transfers (state_of out).
Proof.
  intros Hs H. apply iteration_inv in H as (f & Hf & Hev).
  destruct (fill_window_frame transfers time s f Hf) as (Hb & Hc & _).
  apply congestion_eq in Hc as (_ & _ & _ & Hp & _).
  assert (Hfok : acked_below transfers f).
  { intros a o p Ha Ho. rewrite Hp in Ha. rewrite Hb in Ho. eapply Hs; eassumption. }
  destruct ev as [ack_pkt|].
  - destruct Hev as (ack_id & msg & _ & Hev). destruct (startswith msg FIN).
    + apply on_fin_state in Hev as (fin_ack & m & _ & _ & ->). exact Hfok.
    + destruct Hev as (s' & Hack & ->). eapply on_ack_acked_below; eassumption.
  - destruct Hev as (s' & Hto & ->). cbn.
    pose proof (on_timeout_prev _ _ Hto) as Hp'.
    apply on_timeout_frame in Hto as (_ & _ & _ & _ & Hb' & _).
    intros a o p Ha Ho. rewrite Hp' in Ha. rewrite Hb' in Ho.
    eapply Hfok; eassumption.
Qed.

(** X10.  In every state the Reno loop reaches from the initial one, the
    recorded acknowledgment is not above the offset of the segment at
    [base]: everything below it has been slid past. *)
Theorem acknowledged_below_base (evs : list event) (out : outcome)
    (a o : Z) (p : list byte) :
  run transfers alg time evs initial = Some out ->
  prev_ack_id (state_of out) = Some a ->
  transfers !! base (state_of out) = Some (o, p) ->
  a <= o.
Proof.
  intros Hrun. apply (run_keeps (acked_below transfers)
                        iteration_acked_below evs initial out); [|exact Hrun].
  intros a' o' p'. discriminate.
Qed.

(** *** The duplicate count *)

Lemma dup_ack_count_ok (s s' : sender) :
  dup_acks_ok s -> dup_ack transfers time s = Some s' -> dup_acks_ok s'.
Proof.
  intros [Hlo Hhi]. unfold dup_ack. destruct (in_fast_recovery s) eqn:Hfr.
  - unfold inflate. cbn. destruct (int_of_float _); [|discriminate]. cbn.
    assert (Hok : forall t, congestion t
                            = ((cwnd s + 1)%float, ssthresh s, dup_acks s + 1,
                               prev_ack_id s, true) -> dup_acks_ok t).
    { intros t Ht. unfold congestion in Ht. injection Ht as _ _ Hd _ Hf.
      unfold dup_acks_ok. rewrite Hd, Hf. split; [lia|discriminate]. }
    destruct (_ && _).
    + intros H. apply send_next_frame in H as (_ & Hc & _). apply Hok.
      rewrite Hc. reflexivity.
    + intros [= <-]. apply Hok. reflexivity.
  - destruct (dup_acks s + 1 =? 3) eqn:E.
    + unfold fast_retransmit.
      destruct (int_floordiv2 _); [|discriminate]. cbn.
      destruct (float_of_int _); [|discriminate]. cbn.
      intros H. apply retransmit_base_frame in H as (_ & _ & _ & _ & _ & _ & _ & Hc & _).
      apply congestion_eq in Hc as (_ & _ & Hd & _ & Hf). cbn in Hd, Hf.
      unfold dup_acks_ok. rewrite Hd, Hf. split; [lia|discriminate].
    + apply Z.eqb_neq in E. intros [= <-]. unfold dup_acks_ok. cbn.
      specialize (Hhi eq_refl). split; lia.
Qed.

Lemma iteration_dup_acks_ok (s : sender) (ev : event) (out : outcome) :
  dup_acks_ok s -> iteration transfers alg time s ev = Some out ->
  dup_acks_ok (state_of out).
Proof.
  intros Hs H. apply iteration_inv in H as (f & Hf & Hev).
  destruct (fill_window_frame transfers time s f Hf) as (_ & Hc & _).
  apply congestion_eq in Hc as (_ & _ & Hd & _ & Hfr).
  assert (Hfok : dup_acks_ok f) by (unfold dup_acks_ok in *; now rewrite Hd, Hfr).
  destruct ev as [ack_pkt|].
  - destruct Hev as (ack_id & msg & _ & Hev). destruct (startswith msg FIN).
    + apply on_fin_state in Hev as (fin_ack & m & _ & _ & ->). exact Hfok.
    + destruct Hev as (s' & Hack & ->). cbn.
      apply on_ack_inv in Hack as (o & p & s1 & Hb & Hs1 & Hcase).
      assert (Hok1 : dup_acks_ok s1).
      { rewrite Hs1. destruct (o <? ack_id); [|exact Hfok].
        destruct (advance_base_frame transfers time (length transfers) ack_id f)
          as (Hc & _).
        apply congestion_eq in Hc as (_ & _ & Hd1 & _ & Hfr1).
        unfold dup_acks_ok in *. now rewrite Hd1, Hfr1. }
      destruct Hcase as [[Hnew _]|[[_ Hdup]|(prev & _ & _ & ->)]].
      * unfold new_ack in Hnew.
        destruct (if in_fast_recovery s1 then _ else _); [|discriminate].
        cbn in Hnew. injection Hnew as <-. unfold dup_acks_ok. cbn. lia.
      * eapply dup_ack_count_ok; eassumption.
      * exact Hok1.
  - destruct Hev as (s' & Hto & ->). cbn. unfold on_timeout in Hto.
    destruct (int_floordiv2 _); [|discriminate]. cbn in Hto.
    apply retransmit_base_frame in Hto as (_ & _ & _ & _ & _ & _ & _ & Hc & _).
    apply congestion_eq in Hc as (_ & _ & Hd' & _ & Hf'). cbn in Hd', Hf'.
    unfold dup_acks_ok. rewrite Hd', Hf'. lia.
Qed.

(** X11.  In every state the Reno loop reaches from the initial one, the
    duplicate count is not negative, and outside fast recovery it is at
    most 2. *)
Theorem duplicate_count_bounds (evs : list event) (out : outcome) :
  run transfers alg time evs initial = Some out ->
  0 <= dup_acks (state_of out)
  /\ (in_fast_recovery (state_of out) = false -> dup_acks (state_of out) <= 2).
Proof.
  intros Hrun. apply (run_keeps dup_acks_ok iteration_dup_acks_ok evs initial out);
    [|exact Hrun].
  unfold dup_acks_ok. cbn. lia.
Qed.

End Steps.

Lemma acknowledged_below_base_witness :
  run (h := demo_host) demo LeftToRight ticks (acks 1 9) initial
  = Some (Running (reached (acks 1 9)))
  /\ prev_ack_id (reached (acks 1 9)) = Some 9
  /\ demo !! base (reached (acks 1 9)) = Some (9, ["j"%byte])
  /\ 9 <= 9.
Proof.
  do 3 (split; [vm_compute; reflexivity|]).
  apply (acknowledged_below_base (h := demo_host) demo LeftToRight ticks (acks 1 9) (Running (reached (acks 1 9)))
           9 9 ["j"%byte]); vm_compute; reflexivity.
Defined.

Lemma duplicate_count_bounds_witness :
  0 <= dup_acks (reached (acks 1 9 ++ [Recv (ack 9); Recv (ack 9)]))
  /\ (in_fast_recovery (reached (acks 1 9 ++ [Recv (ack 9); Recv (ack 9)]))
      = false ->
      dup_acks (reached (acks 1 9 ++ [Recv (ack 9); Recv (ack 9)])) <= 2).
Proof.
  apply (duplicate_count_bounds (h := demo_host) demo LeftToRight ticks
           (acks 1 9 ++ [Recv (ack 9); Recv (ack 9)])
           (Running (reached (acks 1 9 ++ [Recv (ack 9); Recv (ack 9)])))).
  vm_compute. reflexivity.
Defined.

(** ** What is sent *)

Lemma slice_nil {A} (data : list A) (i : nat) : slice data i i = [].
Proof. unfold slice. now rewrite Nat.sub_diag. Qed.

Lemma slice_cons {A} (data : list A) (i j : nat) (x : A) :
  data !! i = Some x -> (i < j)%nat ->
  slice data i j = x :: slice data (S i) j.
Proof.
  intros Hx Hlt. unfold slice. rewrite (drop_S _ _ _ Hx).
  replace (j - i)%nat with (S (j - S i)) by lia. reflexivity.
Qed.

Section Trace.

Variable transfers : list (Z * list byte).
Variable alg : summation.
Variable time : nat -> float.
Context {h : host}.

Lemma packet_of_planned (i j : nat) (out : list (list byte)) :
  Forall2 packet_of (slice transfers i j) out ->
  Forall (planned transfers) out.
Proof.
  intros H. apply Forall_lookup. intros k pkt Hk.
  destruct (Forall2_lookup_r _ _ _ _ _ H Hk) as ([o p] & Hseg & Hpkt).
  unfold slice in Hseg. rewrite lookup_take_Some in Hseg.
  destruct Hseg as [Hseg _]. rewrite lookup_drop in Hseg.
  exists (i + k)%nat, o, p. split; [exact Hseg|exact Hpkt].
Qed.

(** The sending loop stops when the window is full or the plan is used up,
    and sends the segments in between, in order. *)
Lemma fill_loop_spec (limit : Z) :
  forall fuel s f,
    (length transfers - next_seq_num s <= fuel)%nat ->
    fill_loop transfers time fuel limit s = Some f ->
    next_seq_num f
    = Nat.max (next_seq_num s) (Nat.min (Z.to_nat limit) (length transfers))
    /\ exists out,
         sent f = sent s ++ out
         /\ Forall2 packet_of
              (slice transfers (next_seq_num s) (next_seq_num f)) out.
Proof.
  induction fuel as [|fuel IH]; intros s f Hfuel; cbn [fill_loop].
  - intros [= <-]. split; [lia|]. exists []. rewrite app_nil_r, slice_nil.
    split; [reflexivity|constructor].
  - destruct (Z.of_nat (next_seq_num s) <? limit) eqn:E1;
      [apply Z.ltb_lt in E1|apply Z.ltb_ge in E1]; cbn [andb].
    + destruct (next_seq_num s <? length transfers)%nat eqn:E2;
        [apply Nat.ltb_lt in E2|apply Nat.ltb_ge in E2].
      * destruct (send_next transfers time s) as [s1|] eqn:Hs1; [|discriminate].
        cbn. intros Hf.
        apply send_next_inv in Hs1
          as (o & p & pkt & Hseg & Hpkt & Hsent & Hnext & _).
        apply IH in Hf as (Hn & out & Hout & Hall); [|lia].
        rewrite Hnext in Hn, Hall. split; [lia|].
        exists (pkt :: out). split.
        -- rewrite Hout, Hsent, <- app_assoc. reflexivity.
        -- rewrite (slice_cons _ _ _ _ Hseg) by lia.
           constructor; [exact Hpkt|exact Hall].
      * intros [= <-]. split; [lia|]. exists [].
        rewrite app_nil_r, slice_nil. split; [reflexivity|constructor].
    + intros [= <-]. split; [lia|]. exists [].
      rewrite app_nil_r, slice_nil. split; [reflexivity|constructor].
Qed.

Lemma fill_window_spec (s f : sender) (w : Z) :
  int_of_float (cwnd s) = Some w ->
  fill_window transfers time s = Some f ->
  next_seq_num f
  = Nat.max (next_seq_num s)
      (Nat.min (base s + Z.to_nat (Z.max w 1)) (length transfers))
  /\ exists out,
       sent f = sent s ++ out
       /\ Forall2 packet_of
            (slice transfers (next_seq_num s) (next_seq_num f)) out.
Proof.
  intros Hw. unfold fill_window. rewrite Hw. cbn. intros Hf.
  apply fill_loop_spec in Hf as (Hn & Hout); [|lia].
  split; [|exact Hout]. rewrite Hn. f_equal. f_equal. lia.
Qed.

(** X9.  The sending loop of the Reno sender leaves [next_seq_num] at the
    end of the window, [base + max(int(cwnd), 1)], or at the end of the plan,
    whichever comes first (where it was if it was already past that), and
    sends exactly the segments in between, in order, once each. *)
Theorem fill_window_sends (s f : sender) (w : Z) :
  int_of_float (cwnd s) = Some w ->
  fill_window transfers time s = Some f ->
  next_seq_num f
  = Nat.max (next_seq_num s)
      (Nat.min (base s + Z.to_nat (Z.max w 1)) (length transfers))
  /\ exists out,
       sent f = sent s ++ out
       /\ Forall2 packet_of
            (slice transfers (next_seq_num s) (next_seq_num f)) out.
Proof. apply fill_window_spec. Qed.

Lemma fill_window_sent (s f : sender) :
  fill_window transfers time s = Some f ->
  exists out, sent f = sent s ++ out /\ Forall (planned transfers) out.
Proof.
  intros Hf. destruct (int_of_float (cwnd s)) as [w|] eqn:Hw.
  - destruct (fill_window_spec s f w Hw Hf) as (_ & out & Hout & Hall).
    exists out. split; [exact Hout|]. eapply packet_of_planned; exact Hall.
  - unfold fill_window in Hf. rewrite Hw in Hf. discriminate.
Qed.

Lemma retransmit_base_sent (s s' : sender) :
  retransmit_base transfers time s = Some s' ->
  exists out, sent s' = sent s ++ out /\ Forall (planned transfers) out
              /\ length out = 1%nat.
Proof.
  intros H. apply retransmit_base_frame in H
    as (o & p & pkt & Hseg & Hpkt & Hsent & _).
  exists [pkt]. split; [exact Hsent|]. split; [|reflexivity].
  constructor; [|constructor]. exists (base s), o, p. now split.
Qed.

Lemma dup_ack_sent (s s' : sender) :
  dup_ack transfers time s = Some s' ->
  exists out, sent s' = sent s ++ out /\ Forall (planned transfers) out
              /\ (length out <= 1)%nat.
Proof.
  unfold dup_ack. destruct (in_fast_recovery s).
  - unfold inflate. cbn. destruct (int_of_float _); [|discriminate]. cbn.
    destruct (_ && _).
    + intros H. apply send_next_inv in H as (o & p & pkt & Hseg & Hpkt & Hsent & _).
      cbn in *. exists [pkt]. split; [exact Hsent|]. split; [|cbn; lia].
      constructor; [|constructor]. exists (next_seq_num s), o, p. now split.
    + intros [= <-]. cbn. exists []. rewrite app_nil_r.
      split; [reflexivity|]. split; [constructor|cbn; lia].
  - destruct (dup_acks s + 1 =? 3).
    + unfold fast_retransmit.
      destruct (int_floordiv2 _); [|discriminate]. cbn.
      destruct (float_of_int _); [|discriminate]. cbn.
      intros H. apply retransmit_base_sent in H as (out & Hout & Hall & Hlen).
      cbn in *. exists out. split; [exact Hout|]. split; [exact Hall|lia].
    + intros [= <-]. cbn. exists []. rewrite app_nil_r.
      split; [reflexivity|]. split; [constructor|cbn; lia].
Qed.

Lemma on_timeout_sent (s s' : sender) :
  on_timeout transfers time s = Some s' ->
  exists out, sent s' = sent s ++ out /\ Forall (planned transfers) out
              /\ length out = 1%nat.
Proof.
  unfold on_timeout. destruct (int_floordiv2 _); [|discriminate]. cbn.
  intros H. apply retransmit_base_sent in H. exact H.
Qed.

Lemma on_ack_grows (s s' : sender) (ack_id : Z) :
  on_ack transfers time s ack_id = Some s' ->
  (base s <= base s')%nat
  /\ (exists more, packet_delays s' = packet_delays s ++ more)
  /\ exists out, sent s' = sent s ++ out /\ Forall (planned transfers) out
                 /\ (length out <= 1)%nat.
Proof.
  intros H. apply on_ack_inv in H as (o & p & s1 & Hb & Hs1 & Hcase).
  assert (H1 : (base s <= base s1)%nat
               /\ (exists more, packet_delays s1 = packet_delays s ++ more)
               /\ sent s1 = sent s).
  { rewrite Hs1. destruct (o <? ack_id).
    - destruct (advance_base_frame transfers time (length transfers) ack_id s)
        as (_ & Hsent & _ & _ & Hle & _ & more & Hd & _).
      split; [exact Hle|]. split; [eauto|exact Hsent].
    - split; [lia|]. split; [exists []; now rewrite app_nil_r|reflexivity]. }
  destruct H1 as (Hle & [more Hd] & Hsent).
  destruct Hcase as [[Hnew _]|[[_ Hdup]|(prev & _ & _ & ->)]].
  - apply new_ack_frame in Hnew as (Hb' & Hd' & _ & Hs').
    rewrite Hb', Hd', Hs', Hsent. split; [exact Hle|]. split; [eauto|].
    exists []. rewrite app_nil_r. split; [reflexivity|]. split; [constructor|cbn; lia].
  - pose proof (dup_ack_frame _ _ _ _ Hdup) as (Hb' & Hd').
    apply dup_ack_sent in Hdup as (out & Hout & Hall & Hlen).
    rewrite Hb', Hd', Hout, Hsent. split; [exact Hle|]. split; [eauto|eauto].
  - split; [exact Hle|]. split; [eauto|]. exists []. rewrite app_nil_r.
    split; [exact Hsent|]. split; [constructor|cbn; lia].
Qed.

(** What one iteration adds to the trace, and that it moves [base] and the
    delay samples forward only. *)
Lemma iteration_grows (s : sender) (ev : event) (out : outcome) :
  iteration transfers alg time s ev = Some out ->
  (base s <= base (state_of out))%nat
  /\ (exists more, packet_delays (state_of out) = packet_delays s ++ more)
  /\ exists new,
       sent (state_of out) = sent s ++ new
       /\ match out with
          | Finished _ _ =>
            exists body ack_id fin_ack,
              new = body ++ [fin_ack]
              /\ Forall (planned transfers) body
              /\ make_packet ack_id FIN_ACK = Some fin_ack
          | _ => Forall (planned transfers) new
          end.
Proof.
  intros H. apply iteration_inv in H as (f & Hf & Hev).
  destruct (fill_window_frame transfers time s f Hf) as (Hb & _ & Hd & _).
  destruct (fill_window_sent s f Hf) as (out1 & Hout1 & Hall1).
  destruct ev as [ack_pkt|].
  - destruct Hev as (ack_id & msg & _ & Hev). destruct (startswith msg FIN).
    + apply on_fin_state in Hev as (fin_ack & m & Hfin & _ & ->). cbn.
      split; [lia|]. split; [exists []; now rewrite app_nil_r, Hd|].
      exists (out1 ++ [fin_ack]). split; [now rewrite Hout1, <- app_assoc|].
      exists out1, ack_id, fin_ack. now repeat split.
    + destruct Hev as (s' & Hack & ->). cbn.
      apply on_ack_grows in Hack as (Hle & [more Hmore] & out2 & Hout2 & Hall2 & _).
      split; [lia|]. split; [exists more; now rewrite Hmore, Hd|].
      exists (out1 ++ out2). split; [now rewrite Hout2, Hout1, <- app_assoc|].
      apply Forall_app. now split.
  - destruct Hev as (s' & Hto & ->). cbn.
    pose proof (on_timeout_frame _ _ _ _ Hto) as (_ & _ & _ & _ & Hb' & Hd').
    apply on_timeout_sent in Hto as (out2 & Hout2 & Hall2 & _).
    split; [lia|]. split; [exists []; now rewrite app_nil_r, Hd', Hd|].
    exists (out1 ++ out2). split; [now rewrite Hout2, Hout1, <- app_assoc|].
    apply Forall_app. now split.
Qed.

Lemma run_sent (evs : list event) :
  forall s out,
    run transfers alg time evs s = Some out ->
    Forall (planned transfers) (sent s) ->
    match out with
    | Finished t _ =>
      exists body ack_id fin_ack,
        sent t = body ++ [fin_ack]
        /\ Forall (planned transfers) body
        /\ make_packet ack_id FIN_ACK = Some fin_ack
    | Running t | Exhausted t => Forall (planned transfers) (sent t)
    end.
Proof.
  induction evs as [|ev evs IH]; intros s out; cbn [run].
  - destruct (base s <? length transfers)%nat; intros [= <-]; trivial.
  - destruct (base s <? length transfers)%nat; [|intros [= <-]; trivial].
    destruct (iteration transfers alg time s ev) as [o1|] eqn:E1; [|discriminate].
    cbn. intros Hrun Hs.
    destruct (iteration_grows s ev o1 E1) as (_ & _ & new & Hnew & Hcase).
    destruct o1 as [s1|s1 m|s1].
    + apply (IH s1 out Hrun). cbn in Hnew. rewrite Hnew.
      apply Forall_app. now split.
    + injection Hrun as <-. destruct Hcase as (body & ack_id & fin_ack & -> & Hb & Hfin).
      exists (sent s ++ body), ack_id, fin_ack. cbn in Hnew.
      split; [now rewrite Hnew, app_assoc|]. split; [|exact Hfin].
      apply Forall_app. now split.
    + injection Hrun as <-. cbn in Hnew. rewrite Hnew.
      apply Forall_app. now split.
Qed.

(** X12.  The Reno sender sends nothing but datagrams of planned segments,
    except for the FIN/ACK reply, which is the last datagram of a run that
    ends on a fin. *)
Theorem sent_only_planned (evs : list event) (out : outcome) :
  run transfers alg time evs initial = Some out ->
  match out with
  | Finished t _ =>
    exists body ack_id fin_ack,
      sent t = body ++ [fin_ack]
      /\ Forall (planned transfers) body
      /\ make_packet ack_id FIN_ACK = Some fin_ack
  | Running t | Exhausted t => Forall (planned transfers) (sent t)
  end.
Proof. intros H. apply (run_sent evs initial out H). constructor. Qed.

(** X13.  Along a run of the Reno loop [base] never moves back, and the
    datagrams sent and the delay samples are only ever appended to. *)
Theorem run_only_grows (evs : list event) :
  forall s out,
    run transfers alg time evs s = Some out ->
    (base s <= base (state_of out))%nat
    /\ sent s `prefix_of` sent (state_of out)
    /\ packet_delays s `prefix_of` packet_delays (state_of out).
Proof.
  induction evs as [|ev evs IH]; intros s out; cbn [run].
  - destruct (base s <? length transfers)%nat; intros [= <-]; repeat split; reflexivity.
  - destruct (base s <? length transfers)%nat;
      [|intros [= <-]; repeat split; reflexivity].
    destruct (iteration transfers alg time s ev) as [o1|] eqn:E1; [|discriminate].
    cbn. intros Hrun.
    destruct (iteration_grows s ev o1 E1) as (Hb & [more Hd] & new & Hnew & _).
    assert (Hone : (base s <= base (state_of o1))%nat
                   /\ sent s `prefix_of` sent (state_of o1)
                   /\ packet_delays s `prefix_of` packet_delays (state_of o1)).
    { split; [exact Hb|]. split; [exists new; exact Hnew|exists more; exact Hd]. }
    destruct o1 as [s1|s1 m|s1]; [|injection Hrun as <-; exact Hone..].
    apply IH in Hrun as (Hb2 & Hs2 & Hd2). destruct Hone as (Hb1 & Hs1 & Hd1).
    cbn in *. split; [lia|]. split; etrans; eassumption.
Qed.

End Trace.

(** ** Divisors that are never zero *)

Lemma of_uint63_ge_one (k : Z) :
  1 <= k < 2 ^ 63 ->
  (1 <=? PrimFloat.of_uint63 (Uint63.of_Z k))%float = true.
Proof.
  intros Hk. rewrite FloatAxioms.leb_spec, of_uint63_spec, Prim2SF_one.
  rewrite Uint63.of_Z_spec. change Uint63.wB with (2 ^ 63).
  rewrite Z.mod_small by lia.
  destruct k as [|p|p]; [lia| |lia]. cbn [binary_normalize].
  apply binary_round_ge_one. lia.
Qed.

Lemma ge_one_nonzero (x : float) :
  (1 <=? x)%float = true -> (x =? 0)%float = false.
Proof.
  intros H. apply one_le_ge_one_sf in H. rewrite FloatAxioms.eqb_spec.
  change (Prim2SF 0) with (S754_zero false).
  destruct (Prim2SF x) as [s|[]| |[] m e]; cbn [ge_one_sf] in H;
    try contradiction; reflexivity.
Qed.

Lemma positive_nonzero (x : float) :
  (0 <? x)%float = true -> (x =? 0)%float = false.
Proof.
  rewrite FloatAxioms.ltb_spec, FloatAxioms.eqb_spec.
  change (Prim2SF 0) with (S754_zero false).
  destruct (Prim2SF x) as [s|[]| |[] m e]; cbn; congruence.
Qed.

(** A float clamped from below by a millionth is not zero. *)
Lemma py_max_floor_nonzero (x : float) : (py_max x 1e-6 =? 0)%float = false.
Proof.
  unfold py_max. destruct (x <? 1e-6)%float eqn:E; [reflexivity|].
  rewrite FloatAxioms.ltb_spec in E. rewrite FloatAxioms.eqb_spec.
  change (Prim2SF 0) with (S754_zero false).
  let v := eval vm_compute in (Prim2SF 1e-6) in change (Prim2SF 1e-6) with v in E.
  destruct (Prim2SF x) as [s|s| |s m e];
    [ unfold SFltb, SFcompare in E; discriminate
    | destruct s; reflexivity
    | reflexivity
    | destruct s; reflexivity ].
Qed.

Lemma float_of_int_small (n : Z) :
  0 <= n < 2 ^ 63 ->
  float_of_int n = Some (PrimFloat.of_uint63 (Uint63.of_Z n)).
Proof.
  intros Hn. unfold float_of_int.
  assert (E : (0 <=? n) && (n <? 2 ^ 63) = true).
  { apply andb_true_iff. split; [apply Z.leb_le|apply Z.ltb_lt]; lia. }
  now rewrite E.
Qed.

Lemma py_div_some (x y : float) :
  (y =? 0)%float = false -> py_div x y = Some (x / y)%float.
Proof. intros H. unfold py_div. now rewrite H. Qed.

Lemma py_div_none (x y : float) : (y =? 0)%float = true -> py_div x y = None.
Proof. intros H. unfold py_div. now rewrite H. Qed.

(** An average over at least one item is defined. *)
Lemma average_some (total : float) (n : Z) :
  1 <= n < 2 ^ 63 ->
  (k ← float_of_int n; py_div total k)
  = Some (total / PrimFloat.of_uint63 (Uint63.of_Z n))%float.
Proof.
  intros Hn. rewrite float_of_int_small by lia. cbn.
  apply py_div_some, ge_one_nonzero, of_uint63_ge_one, Hn.
Qed.

Lemma safe_nonzero (x : float) :
  ((if (0 <? x)%float then x else 1e-6%float) =? 0)%float = false.
Proof.
  destruct (0 <? x)%float eqn:E; [now apply positive_nonzero|reflexivity].
Qed.

(** The summary is computed whenever the duration is not zero. *)
Lemma print_metrics_some (alg : summation) (total : Z) (duration : float)
    (delays : list float) :
  0 <= total < 2 ^ 63 ->
  Z.of_nat (length delays) < 2 ^ 63 ->
  (duration =? 0)%float = false ->
  exists m, print_metrics alg total duration delays = Some m
    /\ throughput m = (PrimFloat.of_uint63 (Uint63.of_Z total) / duration)%float
    /\ (length delays = 0%nat -> avg_delay m = 0%float)
    /\ ((length delays <= 1)%nat -> avg_jitter m = 0%float).
Proof.
  intros Htotal Hlen Hdur. unfold print_metrics.
  rewrite (float_of_int_small total Htotal). cbn [mbind option_bind].
  rewrite (py_div_some _ _ Hdur). cbn [mbind option_bind].
  set (ad := if (0 <? length delays)%nat then _ else Some 0%float).
  assert (Had : exists avg, ad = Some avg
                            /\ (length delays = 0%nat -> avg = 0%float)).
  { subst ad. destruct (0 <? length delays)%nat eqn:E.
    - apply Nat.ltb_lt in E. rewrite average_some by lia.
      eexists. split; [reflexivity|lia].
    - eexists. split; reflexivity. }
  destruct Had as (avg_d & -> & Hd0). cbn [mbind option_bind].
  set (aj := if (1 <? length delays)%nat then _ else Some 0%float).
  assert (Haj : exists avg, aj = Some avg
                            /\ ((length delays <= 1)%nat -> avg = 0%float)).
  { subst aj. destruct (1 <? length delays)%nat eqn:E.
    - apply Nat.ltb_lt in E. rewrite average_some by lia.
      eexists. split; [reflexivity|lia].
    - eexists. split; reflexivity. }
  destruct Haj as (avg_j & -> & Hj0). cbn [mbind option_bind].
  rewrite (py_div_some _ 2000) by reflexivity. cbn [mbind option_bind].
  rewrite (py_div_some _ _ (safe_nonzero avg_j)). cbn [mbind option_bind].
  rewrite (py_div_some _ _ (safe_nonzero avg_d)). cbn [mbind option_bind].
  eexists. split; [reflexivity|]. cbn. repeat split; assumption.
Qed.

(** X19.  With a byte count and a number of samples that fit a machine
    integer, [print_metrics] fails exactly when the duration is zero (the
    [ZeroDivisionError] of the throughput): the guards keep every other
    divisor away from zero.  A duration clamped by [max(..., 1e-6)], as
    [main] passes it, is never zero. *)
Theorem print_metrics_divisions (alg : summation) (total : Z) (duration : float)
    (delays : list float) :
  0 <= total < 2 ^ 63 ->
  Z.of_nat (length delays) < 2 ^ 63 ->
  (print_metrics alg total duration delays = None
   <-> (duration =? 0)%float = true)
  /\ forall elapsed,
       print_metrics alg total (py_max elapsed 1e-6) delays <> None.
Proof.
  intros Htotal Hlen. split; [split|].
  - intros Hnone. destruct (duration =? 0)%float eqn:E; [reflexivity|].
    destruct (print_metrics_some alg total duration delays Htotal Hlen E)
      as (m & Hm & _).
    congruence.
  - intros Hz. unfold print_metrics.
    rewrite (float_of_int_small total Htotal). cbn [mbind option_bind].
    rewrite (py_div_none _ duration Hz). reflexivity.
  - intros elapsed.
    destruct (print_metrics_some alg total (py_max elapsed 1e-6) delays
                Htotal Hlen (py_max_floor_nonzero elapsed)) as (m & Hm & _).
    congruence.
Qed.

Lemma print_metrics_divisions_witness :
  (print_metrics LeftToRight 3000 0 [0.1; 0.3]%float = None
   <-> (0 =? 0)%float = true)
  /\ forall elapsed,
       print_metrics LeftToRight 3000 (py_max elapsed 1e-6) [0.1; 0.3]%float
       <> None.
Proof.
  apply (print_metrics_divisions LeftToRight 3000 0 [0.1; 0.3]%float);
    vm_compute; [split; [discriminate|reflexivity]|reflexivity].
Defined.

(** ** More transitions *)

Lemma parse_ack_inv (packet : list byte) (ack_id : Z) (msg : list Z) :
  parse_ack packet = Some (ack_id, msg) ->
  ack_id = int_from_bytes (firstn SEQ_ID_SIZE packet)
  /\ decode Ignore (skipn SEQ_ID_SIZE packet) = Some msg.
Proof.
  unfold parse_ack. destruct (decode Ignore _) as [m|]; [|discriminate].
  cbn. intros [= <- <-]. now split.
Qed.

Lemma parse_ack_reply (packet : list byte) (ack_id : Z) (msg : list Z)
    (payload : list byte) :
  parse_ack packet = Some (ack_id, msg) ->
  exists reply, make_packet ack_id payload = Some reply.
Proof.
  intros H. apply parse_ack_inv in H as [-> _].
  destruct (int_to_bytes_in_range (int_from_bytes (firstn SEQ_ID_SIZE packet)))
    as [header Hh].
  { apply int_from_bytes_range. rewrite length_firstn. unfold SEQ_ID_SIZE. lia. }
  unfold make_packet. rewrite Hh. eauto.
Qed.

Section Branches.

Variable transfers : list (Z * list byte).
Variable alg : summation.
Variable time : nat -> float.
Context {h : host}.

Lemma on_timeout_inv (s s' : sender) :
  on_timeout transfers time s = Some s' ->
  exists half o p pkt,
    int_floordiv2 (cwnd s) = Some half
    /\ transfers !! base s = Some (o, p)
    /\ make_packet o p = Some pkt
    /\ sent s' = sent s ++ [pkt]
    /\ cwnd s' = 1%float
    /\ base s' = base s
    /\ next_seq_num s' = base s.
Proof.
  unfold on_timeout. destruct (int_floordiv2 (cwnd s)) as [half|]; [|discriminate].
  cbn. intros H. apply retransmit_base_frame in H
    as (o & p & pkt & Hseg & Hpkt & Hsent & _ & Hc & Hb & Hn & _).
  apply congestion_eq in Hc as (Hcw & _). cbn in *.
  exists half, o, p, pkt. repeat split; assumption.
Qed.

(** X14.  After a timeout of the Reno sender the segment at [base] goes out
    twice: the handler retransmits it, and the next filling of the window,
    which restarts at [base] with a window of one, sends it again. *)
Theorem timeout_sends_twice (s s' : sender) :
  encodable transfers ->
  iteration transfers alg time s RecvTimeout = Some (Running s') ->
  exists o p pkt f',
    transfers !! base s' = Some (o, p)
    /\ packet_of (o, p) pkt
    /\ last (sent s') = Some pkt
    /\ fill_window transfers time s' = Some f'
    /\ sent f' = sent s' ++ [pkt]
    /\ next_seq_num f' = S (base s').
Proof.
  intros Henc H. apply iteration_inv in H as (f & Hf & s1 & Hto & [= <-]).
  apply on_timeout_inv in Hto
    as (half & o & p & pkt & _ & Hseg & Hpkt & Hsent & Hcw & Hb & Hn).
  assert (Hw : int_of_float (cwnd s') = Some 1) by now rewrite Hcw.
  destruct (fill_window_some transfers time s' 1 Henc Hw) as [f' Hf'].
  destruct (fill_window_spec transfers time s' f' 1 Hw Hf')
    as (Hnext & out & Hout & Hall).
  rewrite <- Hb in Hseg. pose proof (lookup_lt_Some _ _ _ Hseg) as Hlt.
  assert (Hnext' : next_seq_num f' = S (base s')).
  { rewrite Hnext, Hn, Hb. change (Z.to_nat (Z.max 1 1)) with 1%nat. lia. }
  rewrite Hnext', Hn, <- Hb in Hall.
  rewrite (slice_cons _ _ _ _ Hseg), slice_nil in Hall by lia.
  inversion Hall as [|seg pkt' l l' Hpkt' Hrest]; subst.
  inversion Hrest; subst. unfold packet_of in Hpkt'. cbn in Hpkt'.
  assert (pkt' = pkt) as -> by congruence.
  exists o, p, pkt, f'. split; [exact Hseg|]. split; [exact Hpkt|].
  split; [rewrite Hsent; apply last_snoc|]. split; [exact Hf'|].
  split; [exact Hout|exact Hnext'].
Qed.

Lemma total_bytes_nonneg : 0 <= total_bytes transfers.
Proof. unfold total_bytes. rewrite total_bytes_fold. lia. Qed.

(** X15.  A fin ends the loop of the Reno sender in whatever state it
    arrives, acknowledged data or not: the window is filled, the FIN/ACK
    reply echoes the identifier received and is the last datagram sent, the
    metrics are computed (no division fails), and [base], the delays and the
    congestion variables are as they were.  What is left is the check of the
    received file: [main] returns when [verify_transfer] returns, whatever
    its answer, and ends in its exception when it raises. *)
Theorem fin_ends_transfer (s : sender) (ack_pkt : list byte) (ack_id : Z)
    (msg : list Z) (evs : list event) :
  encodable transfers ->
  (base s < length transfers)%nat ->
  PrimFloat.is_finite (cwnd s) = true ->
  total_bytes transfers < 2 ^ 63 ->
  Z.of_nat (length (packet_delays s)) < 2 ^ 63 ->
  parse_ack ack_pkt = Some (ack_id, msg) ->
  startswith msg FIN = true ->
  exists f t m fin_ack,
    fill_window transfers time s = Some f
    /\ make_packet ack_id FIN_ACK = Some fin_ack
    /\ run transfers alg time (Recv ack_pkt :: evs) s
       = match verify_transfer test_file payload_file files with
         | Some _ => Some (Finished t m)
         | None => None
         end
    /\ sent t = sent f ++ [fin_ack]
    /\ base t = base s
    /\ packet_delays t = packet_delays s
    /\ congestion t = congestion s
    /\ print_metrics alg (total_bytes transfers)
         (py_max (time (clock f) - time 0) 1e-6) (packet_delays s) = Some m.
Proof.
  intros Henc Hb Hfinite Htotal Hlen Hparse Hfin.
  destruct (int_of_float_finite _ Hfinite) as [w Hw].
  destruct (fill_window_some transfers time s w Henc Hw) as [f Hf].
  destruct (fill_window_frame transfers time s f Hf) as (Hbf & Hc & Hd & _).
  destruct (parse_ack_reply ack_pkt ack_id msg FIN_ACK Hparse) as [fin_ack Hreply].
  destruct (print_metrics_some alg (total_bytes transfers)
              (py_max (time (clock f) - time 0) 1e-6) (packet_delays f))
    as (m & Hm & _).
  { split; [apply total_bytes_nonneg|exact Htotal]. }
  { now rewrite Hd. }
  { apply py_max_floor_nonzero. }
  set (t := {| base := base f; next_seq_num := next_seq_num f;
               packet_start_times := packet_start_times f;
               packet_delays := packet_delays f;
               cwnd := cwnd f; ssthresh := ssthresh f;
               dup_acks := dup_acks f; prev_ack_id := prev_ack_id f;
               in_fast_recovery := in_fast_recovery f;
               sent := sent f ++ [fin_ack]; clock := S (clock f) |}).
  assert (Hit : iteration transfers alg time s (Recv ack_pkt)
                = match verify_transfer test_file payload_file files with
                  | Some _ => Some (Finished t m)
                  | None => None
                  end).
  { unfold iteration. rewrite Hf. cbn -[startswith FIN].
    rewrite Hparse. cbn -[startswith FIN]. rewrite Hfin.
    unfold on_fin. rewrite Hreply. cbn [mbind option_bind].
    rewrite Hm. cbn [mbind option_bind].
    destruct (verify_transfer _ _ _); reflexivity. }
  exists f, t, m, fin_ack. split; [exact Hf|]. split; [exact Hreply|].
  split.
  { cbn [run]. apply Nat.ltb_lt in Hb. rewrite Hb, Hit.
    destruct (verify_transfer _ _ _); reflexivity. }
  cbn. split; [reflexivity|]. split; [exact Hbf|]. split; [exact Hd|].
  split; [exact Hc|]. now rewrite <- Hd.
Qed.

(** X16.  An acknowledgment above every planned offset that is not a fin
    slides [base] to the end of the plan; the loop of the Reno sender then
    leaves without the fin exchange: nothing more is sent and no metrics are
    computed. *)
Theorem ack_past_end (s s' : sender) (ack_pkt : list byte) (ack_id : Z)
    (msg : list Z) (evs : list event) :
  Forall (fun seg => fst seg < ack_id) transfers ->
  parse_ack ack_pkt = Some (ack_id, msg) ->
  startswith msg FIN = false ->
  iteration transfers alg time s (Recv ack_pkt) = Some (Running s') ->
  base s' = length transfers
  /\ run transfers alg time evs s' = Some (Exhausted s')
  /\ exists f, fill_window transfers time s = Some f
               /\ (length (sent s') <= length (sent f) + 1)%nat.
Proof.
  intros Hall Hparse Hfin H. apply iteration_inv in H as (f & Hf & Hev).
  destruct Hev as (a & m & Hp & Hev). rewrite Hparse in Hp.
  injection Hp as <- <-. rewrite Hfin in Hev. destruct Hev as (t & Hack & [= <-]).
  pose proof (on_ack_grows _ _ _ _ _ Hack) as (_ & _ & out & Hout & _ & Hlen).
  apply on_ack_inv in Hack as (o & p & s1 & Hb & Hs1 & Hcase).
  rewrite Forall_lookup in Hall. pose proof (Hall _ _ Hb) as Ho. cbn in Ho.
  apply Z.ltb_lt in Ho. rewrite Ho in Hs1.
  assert (Hend : base s1 = length transfers).
  { destruct (advance_base_frame transfers time (length transfers) ack_id f)
      as (_ & _ & _ & _ & _ & Hle & _).
    rewrite <- Hs1 in Hle. apply lookup_lt_Some in Hb as Hlt.
    specialize (Hle ltac:(lia)).
    destruct (transfers !! base s1) as [[o1 p1]|] eqn:E.
    - pose proof (Hall _ _ E) as Ho1. cbn in Ho1.
      rewrite Hs1 in E.
      apply (advance_base_exit transfers time ack_id) in E; lia.
    - apply lookup_ge_None in E. lia. }
  assert (Hbase : base s' = length transfers).
  { destruct Hcase as [[Hnew _]|[[_ Hdup]|(prev & _ & _ & ->)]].
    - apply new_ack_frame in Hnew as (-> & _). exact Hend.
    - apply dup_ack_frame in Hdup as (-> & _). exact Hend.
    - exact Hend. }
  split; [exact Hbase|]. split.
  - destruct evs; cbn [run]; rewrite Hbase, Nat.ltb_irrefl; reflexivity.
  - exists f. split; [exact Hf|]. rewrite Hout, length_app. lia.
Qed.

Lemma float_of_int_ge_one (n : Z) :
  1 <= n < 2 ^ 63 ->
  exists c, float_of_int n = Some c /\ (1 <=? c)%float = true.
Proof.
  intros Hn. rewrite float_of_int_small by lia.
  eexists. split; [reflexivity|]. now apply of_uint63_ge_one.
Qed.

(** X17.  A new acknowledgment received in fast recovery deflates the
    window to [float(ssthresh)], leaves fast recovery, clears the duplicate
    count and records the acknowledgment. *)
Theorem fast_recovery_exit (s s' : sender) (ack_pkt : list byte) (ack_id : Z)
    (msg : list Z) :
  parse_ack ack_pkt = Some (ack_id, msg) ->
  startswith msg FIN = false ->
  (forall prev, prev_ack_id s = Some prev -> prev < ack_id) ->
  in_fast_recovery s = true ->
  1 <= ssthresh s < 2 ^ 63 ->
  iteration transfers alg time s (Recv ack_pkt) = Some (Running s') ->
  float_of_int (ssthresh s) = Some (cwnd s')
  /\ ssthresh s' = ssthresh s
  /\ in_fast_recovery s' = false
  /\ dup_acks s' = 0
  /\ prev_ack_id s' = Some ack_id.
Proof.
  intros Hparse Hfin Hnew Hfr Hss Hit.
  destruct (new_ack_received transfers alg time s s' ack_pkt ack_id msg
              Hparse Hfin Hnew Hit) as (s1 & Hc & Hack).
  apply congestion_eq in Hc as (_ & Hss1 & _ & _ & Hfr1).
  destruct (float_of_int_ge_one (ssthresh s) Hss) as (c & Hc & Hone).
  unfold new_ack in Hack. rewrite Hfr1, Hfr, Hss1, Hc in Hack.
  cbn in Hack. injection Hack as <-. cbn.
  rewrite (py_max_of_ge_one c Hone). repeat split; assumption.
Qed.

(** X18.  A duplicate acknowledgment received in fast recovery adds 1.0 to
    the window and 1 to the duplicate count, keeps the threshold and [base],
    and sends at most one datagram: the segment at [next_seq_num], when the
    inflated window has room for it and the plan is not exhausted. *)
Theorem fast_recovery_inflation (s f s' : sender) (ack_pkt : list byte)
    (a o : Z) (msg : list Z) (payload : list byte) :
  fill_window transfers time s = Some f ->
  parse_ack ack_pkt = Some (a, msg) ->
  startswith msg FIN = false ->
  prev_ack_id s = Some a ->
  transfers !! base s = Some (o, payload) ->
  a <= o ->
  in_fast_recovery s = true ->
  iteration transfers alg time s (Recv ack_pkt) = Some (Running s') ->
  cwnd s' = (cwnd s + 1)%float
  /\ ssthresh s' = ssthresh s
  /\ dup_acks s' = dup_acks s + 1
  /\ in_fast_recovery s' = true
  /\ base s' = base s
  /\ exists w,
       int_of_float (cwnd s + 1) = Some w
       /\ if (Z.of_nat (next_seq_num f) <? Z.of_nat (base s) + w)
             && (next_seq_num f <? length transfers)%nat
          then exists seg pkt,
                 transfers !! next_seq_num f = Some seg
                 /\ packet_of seg pkt
                 /\ sent s' = sent f ++ [pkt]
                 /\ next_seq_num s' = S (next_seq_num f)
          else sent s' = sent f /\ next_seq_num s' = next_seq_num f.
Proof.
  intros Hf Hparse Hfin Hprev Hseg Hle Hfr Hit.
  destruct (duplicate_iteration transfers alg time s f ack_pkt a o msg payload
              Hf Hparse Hfin Hprev Hseg Hle) as [_ Hdup].
  rewrite Hdup in Hit.
  destruct (dup_ack transfers time f) as [t|] eqn:Ht; [|discriminate].
  cbn in Hit. injection Hit as <-.
  destruct (fill_window_frame transfers time s f Hf) as (Hb & Hc & _).
  apply congestion_eq in Hc as (Hcw & Hss & Hd & _ & Hfrf).
  unfold dup_ack in Ht. rewrite Hfrf, Hfr in Ht. unfold inflate in Ht.
  cbn -[Nat.ltb Z.ltb send_next] in Ht. rewrite Hcw, Hb in Ht.
  destruct (int_of_float (cwnd s + 1)) as [w|]; [|discriminate].
  cbn -[Nat.ltb Z.ltb send_next] in Ht.
  destruct ((Z.of_nat (next_seq_num f) <? Z.of_nat (base s) + w)
            && (next_seq_num f <? length transfers)%nat) eqn:Econd.
  - pose proof (send_next_frame _ _ _ _ Ht) as (Hb' & Hc' & _).
    apply congestion_eq in Hc' as (Hcw' & Hss' & Hd' & _ & Hfr').
    apply send_next_inv in Ht as (o1 & p1 & pkt & Hs1 & Hpkt & Hsent & Hn & _).
    cbn in Hb', Hcw', Hss', Hd', Hfr', Hs1, Hsent, Hn.
    split; [exact Hcw'|]. split; [congruence|]. split; [congruence|].
    split; [exact Hfr'|]. split; [exact Hb'|].
    exists w. split; [reflexivity|]. rewrite Econd.
    exists (o1, p1), pkt. repeat split; assumption.
  - injection Ht as <-.
    cbn [cwnd ssthresh dup_acks in_fast_recovery base sent next_seq_num].
    split; [reflexivity|]. split; [exact Hss|]. split; [congruence|].
    split; [reflexivity|]. split; [reflexivity|].
    exists w. split; [reflexivity|]. rewrite Econd. split; reflexivity.
Qed.

End Branches.

(** Closed side conditions, by evaluation. *)
Ltac compute_side :=
  lazymatch goal with
  | |- encodable _ => encodable_demo
  | |- (_ < _)%nat => vm_compute; lia
  | |- _ <= _ < _ => vm_compute; split; [discriminate|reflexivity]
  | |- _ <= _ => vm_compute; discriminate
  | |- _ < _ => vm_compute; reflexivity
  | |- _ => vm_compute; reflexivity
  end.

Lemma fill_window_sends_witness :
  exists f,
    fill_window demo ticks (reached (acks 1 3)) = Some f
    /\ next_seq_num f
       = Nat.max (next_seq_num (reached (acks 1 3)))
           (Nat.min (base (reached (acks 1 3)) + Z.to_nat (Z.max 4 1))
                    (length demo))
    /\ exists out,
         sent f = sent (reached (acks 1 3)) ++ out
         /\ Forall2 packet_of
              (slice demo (next_seq_num (reached (acks 1 3))) (next_seq_num f))
              out.
Proof.
  result_of (fill_window demo ticks (reached (acks 1 3))).
  split; [vm_compute; reflexivity|].
  apply (fill_window_sends demo ticks (reached (acks 1 3)) _ 4);
    vm_compute; reflexivity.
Defined.

Lemma sent_only_planned_witness :
  exists t m,
    run (h := demo_host) demo LeftToRight ticks (acks 1 24 ++ [Recv (fin 24)]) initial
    = Some (Finished t m)
    /\ exists body ack_id fin_ack,
         sent t = body ++ [fin_ack]
         /\ Forall (planned demo) body
         /\ make_packet ack_id FIN_ACK = Some fin_ack.
Proof.
  result_of (run (h := demo_host) demo LeftToRight ticks (acks 1 24 ++ [Recv (fin 24)]) initial).
  split; [vm_compute; reflexivity|].
  lazymatch goal with
  | |- exists body ack_id fin_ack, sent ?t = _ /\ _ =>
    let v := eval vm_compute in
        (run (h := demo_host) demo LeftToRight ticks (acks 1 24 ++ [Recv (fin 24)]) initial) in
    lazymatch v with
    | Some ?out =>
      apply (sent_only_planned (h := demo_host) demo LeftToRight ticks
               (acks 1 24 ++ [Recv (fin 24)]) out)
    end
  end.
  vm_compute. reflexivity.
Defined.

Lemma run_only_grows_witness :
  (base (reached (acks 1 3))
   <= base (reached (acks 1 3 ++ [RecvTimeout; Recv (ack 5)])))%nat
  /\ sent (reached (acks 1 3))
     `prefix_of` sent (reached (acks 1 3 ++ [RecvTimeout; Recv (ack 5)]))
  /\ packet_delays (reached (acks 1 3))
     `prefix_of` packet_delays (reached (acks 1 3 ++ [RecvTimeout; Recv (ack 5)])).
Proof.
  apply (run_only_grows (h := demo_host) demo LeftToRight ticks [RecvTimeout; Recv (ack 5)]
           (reached (acks 1 3))
           (Running (reached (acks 1 3 ++ [RecvTimeout; Recv (ack 5)])))).
  vm_compute. reflexivity.
Defined.

Lemma timeout_sends_twice_witness :
  exists o p pkt f',
    demo !! base (reached (acks 1 3 ++ [RecvTimeout])) = Some (o, p)
    /\ packet_of (o, p) pkt
    /\ last (sent (reached (acks 1 3 ++ [RecvTimeout]))) = Some pkt
    /\ fill_window demo ticks (reached (acks 1 3 ++ [RecvTimeout])) = Some f'
    /\ sent f' = sent (reached (acks 1 3 ++ [RecvTimeout])) ++ [pkt]
    /\ next_seq_num f' = S (base (reached (acks 1 3 ++ [RecvTimeout]))).
Proof.
  apply (timeout_sends_twice (h := demo_host) demo LeftToRight ticks (reached (acks 1 3))
           (reached (acks 1 3 ++ [RecvTimeout])));
    [encodable_demo|vm_compute; reflexivity].
Defined.

Lemma fin_ends_transfer_witness :
  exists f t m fin_ack,
    fill_window demo ticks (reached (acks 1 3)) = Some f
    /\ make_packet 24 FIN_ACK = Some fin_ack
    /\ run (h := demo_host) demo LeftToRight ticks [Recv (fin 24)] (reached (acks 1 3))
       = Some (Finished t m)
    /\ sent t = sent f ++ [fin_ack]
    /\ base t = base (reached (acks 1 3))
    /\ packet_delays t = packet_delays (reached (acks 1 3))
    /\ congestion t = congestion (reached (acks 1 3))
    /\ print_metrics LeftToRight (total_bytes demo)
         (py_max (ticks (clock f) - ticks 0) 1e-6)
         (packet_delays (reached (acks 1 3))) = Some m.
Proof.
  apply (fin_ends_transfer (h := demo_host) demo LeftToRight ticks (reached (acks 1 3))
           (fin 24) 24 [102; 105; 110] []); compute_side.
Defined.

Lemma ack_past_end_witness :
  base (reached [Recv (ack 100)]) = length demo
  /\ run (h := demo_host) demo LeftToRight ticks [RecvTimeout] (reached [Recv (ack 100)])
     = Some (Exhausted (reached [Recv (ack 100)]))
  /\ exists f, fill_window demo ticks initial = Some f
               /\ (length (sent (reached [Recv (ack 100)]))
                   <= length (sent f) + 1)%nat.
Proof.
  apply (ack_past_end (h := demo_host) demo LeftToRight ticks initial (reached [Recv (ack 100)])
           (ack 100) 100 [97; 99; 107] [RecvTimeout]).
  - let d := eval vm_compute in demo in change demo with d.
    repeat (apply List.Forall_cons; [cbn; lia|]). apply List.Forall_nil.
  - vm_compute. reflexivity.
  - vm_compute. reflexivity.
  - vm_compute. reflexivity.
Defined.

Lemma fast_recovery_exit_witness :
  float_of_int (ssthresh (reached to_recovery))
  = Some (cwnd (reached (to_recovery ++ [Recv (ack 12)])))
  /\ ssthresh (reached (to_recovery ++ [Recv (ack 12)]))
     = ssthresh (reached to_recovery)
  /\ in_fast_recovery (reached (to_recovery ++ [Recv (ack 12)])) = false
  /\ dup_acks (reached (to_recovery ++ [Recv (ack 12)])) = 0
  /\ prev_ack_id (reached (to_recovery ++ [Recv (ack 12)])) = Some 12.
Proof.
  apply (fast_recovery_exit (h := demo_host) demo LeftToRight ticks (reached to_recovery)
           (reached (to_recovery ++ [Recv (ack 12)])) (ack 12) 12 [97; 99; 107]).
  - vm_compute. reflexivity.
  - vm_compute. reflexivity.
  - intros prev Hprev. vm_compute in Hprev. injection Hprev as Hprev. lia.
  - vm_compute. reflexivity.
  - vm_compute. split; [discriminate|reflexivity].
  - vm_compute. reflexivity.
Defined.

Lemma fast_recovery_inflation_witness :
  exists f,
    fill_window demo ticks (reached to_recovery) = Some f
    /\ cwnd (reached (to_recovery ++ [Recv (ack 9)]))
       = (cwnd (reached to_recovery) + 1)%float
    /\ ssthresh (reached (to_recovery ++ [Recv (ack 9)]))
       = ssthresh (reached to_recovery)
    /\ dup_acks (reached (to_recovery ++ [Recv (ack 9)]))
       = dup_acks (reached to_recovery) + 1
    /\ in_fast_recovery (reached (to_recovery ++ [Recv (ack 9)])) = true
    /\ base (reached (to_recovery ++ [Recv (ack 9)])) = base (reached to_recovery)
    /\ exists w,
         int_of_float (cwnd (reached to_recovery) + 1) = Some w
         /\ if (Z.of_nat (next_seq_num f) <? Z.of_nat (base (reached to_recovery)) + w)
               && (next_seq_num f <? length demo)%nat
            then exists seg pkt,
                   demo !! next_seq_num f = Some seg
                   /\ packet_of seg pkt
                   /\ sent (reached (to_recovery ++ [Recv (ack 9)])) = sent f ++ [pkt]
                   /\ next_seq_num (reached (to_recovery ++ [Recv (ack 9)]))
                      = S (next_seq_num f)
            else sent (reached (to_recovery ++ [Recv (ack 9)])) = sent f
                 /\ next_seq_num (reached (to_recovery ++ [Recv (ack 9)]))
                    = next_seq_num f.
Proof.
  result_of (fill_window demo ticks (reached to_recovery)).
  split; [vm_compute; reflexivity|].
  lazymatch goal with
  | |- _ /\ _ /\ _ /\ _ /\ _ /\ exists w, _ /\ if (Z.of_nat (next_seq_num ?f) <? _) && _ then _ else _ =>
    apply (fast_recovery_inflation (h := demo_host) demo LeftToRight ticks (reached to_recovery) f
             (reached (to_recovery ++ [Recv (ack 9)])) (ack 9) 9 9
             [97; 99; 107] ["j"%byte]); compute_side
  end.
Defined.

(** ** The fixed-window sender *)

Section FixedWindowLoop.

Import FixedWindow.

Variable transfers : list (Z * list byte).
Variable alg : summation.
Variable time : nat -> float.

Lemma fixed_send_next_inv (s s' : window) :
  send_next transfers time s = Some s' ->
  exists o p pkt,
    transfers !! next_seq_num s = Some (o, p)
    /\ make_packet o p = Some pkt
    /\ sent s' = sent s ++ [pkt]
    /\ next_seq_num s' = S (next_seq_num s)
    /\ base s' = base s
    /\ packet_delays s' = packet_delays s
    /\ (forall k t, packet_start_times s !! k = Some t ->
                    packet_start_times s' !! k = Some t).
Proof.
  unfold send_next.
  destruct (transfers !! next_seq_num s) as [[o p]|]; [|discriminate]. cbn.
  destruct (make_packet o p) as [pkt|] eqn:Hpkt; [|discriminate]. cbn.
  intros [= <-]. exists o, p, pkt.
  destruct (packet_start_times s !! o) eqn:E; cbn; repeat split; try exact Hpkt;
    trivial.
  intros k t Hk. destruct (decide (o = k)) as [->|Hne]; [congruence|].
  now rewrite lookup_insert_ne.
Qed.

(** The sending loop stops when the window is full or the plan is used up;
    it sends the segments in between, in order, and keeps the send times
    already recorded. *)
Lemma fixed_fill_loop_spec :
  forall fuel s f,
    (length transfers - next_seq_num s <= fuel)%nat ->
    fill_loop transfers time fuel s = Some f ->
    next_seq_num f
    = Nat.max (next_seq_num s)
        (Nat.min (base s + Z.to_nat WINDOW_SIZE) (length transfers))
    /\ base f = base s
    /\ packet_delays f = packet_delays s
    /\ (forall k t, packet_start_times s !! k = Some t ->
                    packet_start_times f !! k = Some t)
    /\ exists out,
         sent f = sent s ++ out
         /\ Forall2 packet_of
              (slice transfers (next_seq_num s) (next_seq_num f)) out.
Proof.
  unfold WINDOW_SIZE.
  induction fuel as [|fuel IH]; intros s f Hfuel; cbn [fill_loop].
  - intros [= <-]. split; [lia|]. repeat split; trivial. exists [].
    rewrite app_nil_r, slice_nil. split; [reflexivity|constructor].
  - unfold WINDOW_SIZE.
    destruct (Z.of_nat (next_seq_num s) <? Z.of_nat (base s) + 100) eqn:E1;
      [apply Z.ltb_lt in E1|apply Z.ltb_ge in E1]; cbn [andb].
    + destruct (next_seq_num s <? length transfers)%nat eqn:E2;
        [apply Nat.ltb_lt in E2|apply Nat.ltb_ge in E2].
      * destruct (send_next transfers time s) as [s1|] eqn:Hs1; [|discriminate].
        cbn. intros Hf.
        apply fixed_send_next_inv in Hs1
          as (o & p & pkt & Hseg & Hpkt & Hsent & Hnext & Hb & Hd & Ht).
        apply IH in Hf as (Hn & Hb' & Hd' & Ht' & out & Hout & Hall); [|lia].
        rewrite Hnext, Hb in Hn. rewrite Hnext in Hall.
        split; [lia|]. split; [congruence|]. split; [congruence|].
        split; [intros k t Hk; apply Ht', Ht, Hk|].
        exists (pkt :: out). split.
        -- rewrite Hout, Hsent, <- app_assoc. reflexivity.
        -- rewrite (slice_cons _ _ _ _ Hseg) by lia.
           constructor; [exact Hpkt|exact Hall].
      * intros [= <-]. split; [lia|]. repeat split; trivial. exists [].
        rewrite app_nil_r, slice_nil. split; [reflexivity|constructor].
    + intros [= <-]. split; [lia|]. repeat split; trivial. exists [].
      rewrite app_nil_r, slice_nil. split; [reflexivity|constructor].
Qed.

Lemma fixed_fill_window_spec (s f : window) :
  fill_window transfers time s = Some f ->
  next_seq_num f
  = Nat.max (next_seq_num s)
      (Nat.min (base s + Z.to_nat WINDOW_SIZE) (length transfers))
  /\ base f = base s
  /\ packet_delays f = packet_delays s
  /\ (forall k t, packet_start_times s !! k = Some t ->
                  packet_start_times f !! k = Some t)
  /\ exists out,
       sent f = sent s ++ out
       /\ Forall2 packet_of
            (slice transfers (next_seq_num s) (next_seq_num f)) out.
Proof. unfold fill_window. apply fixed_fill_loop_spec. lia. Qed.

Lemma fixed_advance_base_frame (ack_id : Z) :
  forall fuel s,
    let s' := advance_base transfers time fuel ack_id s in
    packet_start_times s' = packet_start_times s
    /\ sent s' = sent s
    /\ next_seq_num s' = next_seq_num s
    /\ (base s <= base s')%nat
    /\ (base s <= length transfers -> base s' <= length transfers)%nat.
Proof.
  induction fuel as [|fuel IH]; intros s; cbn [advance_base]; cbv zeta.
  - repeat split; lia.
  - destruct (transfers !! base s) as [[acked p]|] eqn:Hb; [|repeat split; lia].
    destruct (acked <? ack_id); [|repeat split; lia].
    apply lookup_lt_Some in Hb.
    specialize (IH (slide time s acked)). cbv zeta in IH.
    destruct IH as (Ht & Hs & Hn & Hle & Hlen).
    assert (Hslide : packet_start_times (slide time s acked) = packet_start_times s
                     /\ sent (slide time s acked) = sent s
                     /\ next_seq_num (slide time s acked) = next_seq_num s
                     /\ base (slide time s acked) = S (base s)).
    { unfold slide. destruct (packet_start_times s !! acked); cbn; repeat split. }
    destruct Hslide as (Ht1 & Hs1 & Hn1 & Hb1).
    rewrite Ht, Hs, Hn, Ht1, Hs1, Hn1. rewrite Hb1 in Hle, Hlen.
    repeat split; lia.
Qed.

(** The cases of one iteration. *)
Lemma fixed_iteration_inv (s : window) (ev : event) (out : outcome) :
  iteration transfers alg time s ev = Some out ->
  exists f,
    fill_window transfers time s = Some f
    /\ match ev with
       | RecvTimeout => out = Running (on_timeout f)
       | Recv ack_pkt =>
         exists ack_id msg,
           parse_ack ack_pkt = Some (ack_id, msg)
           /\ if startswith msg FIN
              then exists fin_ack m,
                     make_packet ack_id FIN_ACK = Some fin_ack
                     /\ out = Finished
                          {| base := base f; next_seq_num := next_seq_num f;
                             packet_start_times := packet_start_times f;
                             packet_delays := packet_delays f;
                             sent := sent f ++ [fin_ack];
                             clock := S (clock f) |} m
              else exists o p,
                     transfers !! base f = Some (o, p)
                     /\ out = Running
                          (if o <? ack_id
                           then advance_base transfers time (length transfers)
                                  ack_id f
                           else f)
       end.
Proof.
  unfold iteration.
  destruct (fill_window transfers time s) as [f|]; [|discriminate].
  cbn -[startswith FIN]. intros H. exists f. split; [reflexivity|].
  destruct ev as [ack_pkt|]; [|now injection H as <-].
  destruct (parse_ack ack_pkt) as [[ack_id msg]|]; [|discriminate].
  cbn -[startswith FIN] in H. exists ack_id, msg. split; [reflexivity|].
  destruct (startswith msg FIN).
  - unfold on_fin in H.
    destruct (make_packet ack_id FIN_ACK) as [fin_ack|]; [|discriminate].
    cbn -[print_metrics] in H.
    destruct (print_metrics _ _ _ _) as [m|]; [|discriminate].
    cbn in H. injection H as <-. eauto.
  - unfold on_ack in H.
    destruct (transfers !! base f) as [[o p]|]; [|discriminate].
    cbn in H. injection H as <-. eauto.
Qed.

Lemma fixed_run_keeps (P : window -> Prop) :
  (forall s ev out, P s -> iteration transfers alg time s ev = Some out ->
                    P (state_of out)) ->
  forall evs s out,
    P s -> run transfers alg time evs s = Some out -> P (state_of out).
Proof.
  intros Hstep. induction evs as [|ev evs IH]; intros s out Hs; cbn [run].
  - destruct (base s <? length transfers)%nat; intros [= <-]; exact Hs.
  - destruct (base s <? length transfers)%nat; [|intros [= <-]; exact Hs].
    destruct (iteration transfers alg time s ev) as [o1|] eqn:E1; [|discriminate].
    cbn. pose proof (Hstep s ev o1 Hs E1) as Hs1.
    destruct o1 as [s1|s1 m|s1]; [apply IH; exact Hs1|intros [= <-]; exact Hs1..].
Qed.

(** X20.  In the fixed-window sender a send time, once recorded, is never
    changed: the delay of a segment is measured from its first
    transmission, however often it is sent again. *)
Theorem fixed_send_times_kept (evs : list event) (s : window) (out : outcome)
    (o : Z) (t : float) :
  run transfers alg time evs s = Some out ->
  packet_start_times s !! o = Some t ->
  packet_start_times (state_of out) !! o = Some t.
Proof.
  intros Hrun Hs.
  apply (fixed_run_keeps (fun w => packet_start_times w !! o = Some t))
    with (evs := evs) (s := s); [|exact Hs|exact Hrun].
  clear. intros s ev out Hs H.
  apply fixed_iteration_inv in H as (f & Hf & Hev).
  apply fixed_fill_window_spec in Hf as (_ & _ & _ & Ht & _).
  apply Ht in Hs. destruct ev as [ack_pkt|]; [|subst out; exact Hs].
  destruct Hev as (ack_id & msg & _ & Hev). destruct (startswith msg FIN).
  - destruct Hev as (fin_ack & m & _ & ->). exact Hs.
  - destruct Hev as (o' & p & _ & ->). cbn. destruct (o' <? ack_id); [|exact Hs].
    destruct (fixed_advance_base_frame ack_id (length transfers) f) as (-> & _).
    exact Hs.
Qed.

(** X21.  A timeout of the fixed-window sender sends nothing by itself and
    moves [next_seq_num] back to [base]; the next filling of the window then
    sends again every segment from [base] up to the window's end or the
    plan's, in order. *)
Theorem fixed_go_back_n (s s' : window) :
  (base s < length transfers)%nat ->
  iteration transfers alg time s RecvTimeout = Some (Running s') ->
  exists f,
    fill_window transfers time s = Some f
    /\ sent s' = sent f
    /\ base s' = base s
    /\ next_seq_num s' = base s
    /\ forall f',
         fill_window transfers time s' = Some f' ->
         next_seq_num f'
         = Nat.min (base s + Z.to_nat WINDOW_SIZE) (length transfers)
         /\ exists out,
              sent f' = sent s' ++ out
              /\ Forall2 packet_of
                   (slice transfers (base s)
                      (Nat.min (base s + Z.to_nat WINDOW_SIZE) (length transfers)))
                   out.
Proof.
  intros Hb H. apply fixed_iteration_inv in H as (f & Hf & [= ->]).
  pose proof (fixed_fill_window_spec _ _ Hf) as (_ & Hbf & _).
  exists f. cbn. split; [exact Hf|]. split; [reflexivity|].
  split; [exact Hbf|]. split; [exact Hbf|].
  intros f' Hf'. apply fixed_fill_window_spec in Hf' as (Hn & _ & _ & _ & Hout).
  cbn in Hn, Hout. rewrite Hbf in Hn, Hout.
  assert (Hn' : next_seq_num f'
                = Nat.min (base s + Z.to_nat WINDOW_SIZE) (length transfers))
    by (rewrite Hn; unfold WINDOW_SIZE; lia).
  split; [exact Hn'|]. now rewrite Hn' in Hout.
Qed.

Lemma fixed_iteration_in_window (s : window) (ev : event) (out : outcome) :
  in_window transfers s -> iteration transfers alg time s ev = Some out ->
  in_window transfers (state_of out).
Proof.
  unfold in_window, WINDOW_SIZE. intros (Hw & Hn & Hb) H.
  apply fixed_iteration_inv in H as (f & Hf & Hev).
  apply fixed_fill_window_spec in Hf as (Hnf & Hbf & _).
  unfold WINDOW_SIZE in Hnf.
  assert (Hfw : Z.of_nat (next_seq_num f) <= Z.of_nat (base f) + 100
                /\ (next_seq_num f <= length transfers)%nat
                /\ (base f <= length transfers)%nat) by lia.
  destruct ev as [ack_pkt|]; [|subst out; cbn; lia].
  destruct Hev as (ack_id & msg & _ & Hev). destruct (startswith msg FIN).
  - destruct Hev as (fin_ack & m & _ & ->). exact Hfw.
  - destruct Hev as (o' & p & _ & ->). cbn. destruct (o' <? ack_id); [|exact Hfw].
    destruct (fixed_advance_base_frame ack_id (length transfers) f)
      as (_ & _ & -> & Hle & Hlen).
    lia.
Qed.

(** X22.  In every state the fixed-window loop reaches from the initial
    one, [next_seq_num] is at most [base + WINDOW_SIZE] and neither index is
    past the end of the plan. *)
Theorem fixed_window_bound (evs : list event) (out : outcome) :
  run transfers alg time evs initial = Some out ->
  Z.of_nat (next_seq_num (state_of out))
  <= Z.of_nat (base (state_of out)) + WINDOW_SIZE
  /\ (next_seq_num (state_of out) <= length transfers)%nat
  /\ (base (state_of out) <= length transfers)%nat.
Proof.
  intros Hrun.
  apply (fixed_run_keeps (in_window transfers) fixed_iteration_in_window
           evs initial out); [|exact Hrun].
  unfold in_window, WINDOW_SIZE. cbn. lia.
Qed.

End FixedWindowLoop.

Lemma fixed_send_times_kept_witness :
  FixedWindow.packet_start_times
    (FixedWindow.reached (acks 1 3 ++ [RecvTimeout; RecvTimeout])) !! 3
  = Some 4%float.
Proof.
  apply (fixed_send_times_kept demo LeftToRight ticks [RecvTimeout; RecvTimeout]
           (FixedWindow.reached (acks 1 3))
           (FixedWindow.Running
              (FixedWindow.reached (acks 1 3 ++ [RecvTimeout; RecvTimeout])))
           3 4%float);
    vm_compute; reflexivity.
Defined.

Lemma fixed_go_back_n_witness :
  exists f,
    FixedWindow.fill_window demo ticks (FixedWindow.reached (acks 1 3)) = Some f
    /\ FixedWindow.sent (FixedWindow.reached (acks 1 3 ++ [RecvTimeout]))
       = FixedWindow.sent f
    /\ FixedWindow.base (FixedWindow.reached (acks 1 3 ++ [RecvTimeout]))
       = FixedWindow.base (FixedWindow.reached (acks 1 3))
    /\ FixedWindow.next_seq_num (FixedWindow.reached (acks 1 3 ++ [RecvTimeout]))
       = FixedWindow.base (FixedWindow.reached (acks 1 3))
    /\ forall f',
         FixedWindow.fill_window demo ticks
           (FixedWindow.reached (acks 1 3 ++ [RecvTimeout])) = Some f' ->
         FixedWindow.next_seq_num f'
         = Nat.min (FixedWindow.base (FixedWindow.reached (acks 1 3))
                    + Z.to_nat FixedWindow.WINDOW_SIZE) (length demo)
         /\ exists out,
              FixedWindow.sent f'
              = FixedWindow.sent (FixedWindow.reached (acks 1 3 ++ [RecvTimeout]))
                ++ out
              /\ Forall2 packet_of
                   (slice demo (FixedWindow.base (FixedWindow.reached (acks 1 3)))
                      (Nat.min (FixedWindow.base (FixedWindow.reached (acks 1 3))
                                + Z.to_nat FixedWindow.WINDOW_SIZE) (length demo)))
                   out.
Proof.
  apply (fixed_go_back_n demo LeftToRight ticks (FixedWindow.reached (acks 1 3))
           (FixedWindow.reached (acks 1 3 ++ [RecvTimeout])));
    [vm_compute; lia|vm_compute; reflexivity].
Defined.

Lemma fixed_window_bound_witness :
  Z.of_nat (FixedWindow.next_seq_num (FixedWindow.reached (acks 1 3)))
  <= Z.of_nat (FixedWindow.base (FixedWindow.reached (acks 1 3)))
     + FixedWindow.WINDOW_SIZE
  /\ (FixedWindow.next_seq_num (FixedWindow.reached (acks 1 3)) <= length demo)%nat
  /\ (FixedWindow.base (FixedWindow.reached (acks 1 3)) <= length demo)%nat.
Proof.
  apply (fixed_window_bound demo LeftToRight ticks (acks 1 3)
           (FixedWindow.Running (FixedWindow.reached (acks 1 3)))).
  vm_compute. reflexivity.
Defined.

(** What [rfind] returns. *)
Lemma rfind_spec (c : Z) (s : list Z) :
  (rfind s c = -1 /\ contains s c = false)
  \/ exists before after,
       s = before ++ c :: after
       /\ rfind s c = Z.of_nat (length before)
       /\ contains after c = false
       /\ contains s c = true.
Proof.
  induction s as [|x s IH]; [left; now split|]. cbn [rfind]. cbv zeta.
  destruct IH as [[Hr Hc]|(before & after & -> & Hr & Hafter & Hc)].
  - rewrite Hr. cbn [Z.leb Z.compare]. destruct (x =? c) eqn:E.
    + apply Z.eqb_eq in E as ->. right. exists [], s.
      repeat split; [exact Hc|]. cbn. now rewrite Z.eqb_refl.
    + left. split; [reflexivity|]. cbn. rewrite Z.eqb_sym, E. exact Hc.
  - rewrite Hr. destruct (0 <=? Z.of_nat (length before)) eqn:E;
      [|apply Z.leb_gt in E; lia].
    right. exists (x :: before), after. cbn [length].
    repeat split; [lia|exact Hafter|]. unfold contains in *.
    change ((x :: before) ++ c :: after) with (x :: (before ++ c :: after)).
    cbn [existsb]. rewrite Hc. apply orb_true_r.
Qed.

Lemma contains_app (a b : list Z) (c : Z) :
  contains (a ++ b) c = contains a c || contains b c.
Proof. unfold contains. apply existsb_app. Qed.

Lemma basename_no_slash (p : list Z) : contains (basename p) SLASH = false.
Proof.
  unfold basename.
  destruct (rfind_spec SLASH p) as [[Hr Hc]|(before & after & -> & Hr & Hafter & _)].
  - rewrite Hr. exact Hc.
  - rewrite Hr. replace (Z.to_nat (Z.of_nat (length before) + 1))
      with (length before + 1)%nat by lia.
    rewrite skipn_app, skipn_all2 by lia.
    replace (length before + 1 - length before)%nat with 1%nat by lia.
    exact Hafter.
Qed.

(** The name under which the received copy is looked for. *)
Lemma received_basename_spec (original : list Z) :
  contains (received_basename original) SLASH = false
  /\ if contains (basename original) DOT
     then exists name ext,
            basename original = name ++ DOT :: ext
            /\ contains ext DOT = false
            /\ received_basename original
               = name ++ text_of_bytes ["_"; "r"; "e"; "c"; "e"; "i"; "v"; "e";
                                        "d"; "."]%byte ++ ext
     else received_basename original
          = basename original
            ++ text_of_bytes ["_"; "r"; "e"; "c"; "e"; "i"; "v"; "e"; "d"]%byte.
Proof.
  pose proof (basename_no_slash original) as Hslash.
  unfold received_basename. cbv zeta.
  destruct (rfind_spec DOT (basename original))
    as [[Hr Hc]|(name & ext & Hb & Hr & Hext & Hc)]; rewrite Hc.
  - split; [|reflexivity]. rewrite contains_app, Hslash. reflexivity.
  - unfold rsplit1. rewrite Hr, Nat2Z.id, Hb.
    rewrite firstn_app, firstn_all, Nat.sub_diag. cbn [firstn].
    rewrite app_nil_r.
    replace (S (length name)) with (length name + 1)%nat by lia.
    rewrite skipn_app, skipn_all2 by lia.
    replace (length name + 1 - length name)%nat with 1%nat by lia.
    cbn [skipn app]. rewrite drop_0.
    rewrite Hb, contains_app in Hslash. apply orb_false_iff in Hslash as [Hn He].
    unfold contains in He. cbn [existsb] in He.
    apply orb_false_iff in He as [_ He]. fold (contains ext SLASH) in He.
    split.
    + rewrite !contains_app, Hn, He. reflexivity.
    + exists name, ext. repeat split. exact Hext.
Qed.

(** X23.  The received copy is looked for directly in [/hdd], whatever the
    directory of the original: under the original's base name with
    [_received] put before its last extension, or appended when the base
    name has no dot. *)
Theorem received_file_form (original : list Z) :
  exists received,
    received_file original
    = text_of_bytes ["/"; "h"; "d"; "d"; "/"]%byte ++ received
    /\ contains received SLASH = false
    /\ if contains (basename original) DOT
       then exists name ext,
              basename original = name ++ DOT :: ext
              /\ contains ext DOT = false
              /\ received
                 = name ++ text_of_bytes ["_"; "r"; "e"; "c"; "e"; "i"; "v"; "e";
                                          "d"; "."]%byte ++ ext
       else received
            = basename original
              ++ text_of_bytes ["_"; "r"; "e"; "c"; "e"; "i"; "v"; "e"; "d"]%byte.
Proof.
  exists (received_basename original). split; [reflexivity|].
  apply received_basename_spec.
Qed.


